(** * spleeter.model: the estimator-spec builder

    A shallow embedding of [spleeter/model/__init__.py].  Python
    dictionaries are finite maps, exceptions are an explicit error type,
    the [features] dictionary that the builder mutates is a store threaded
    through a state-and-error monad, and tensors are a shape together with
    an indexing function.  Tensor entries are exact rationals where the
    development is about the formulas and the shapes of the graph; the
    ratio mask, whose values depend on it, is also read in float32.
    TensorFlow's signal routines, norbert and the helpers of
    [spleeter.utils.tensor] are operations of a [Backend]; the two
    transforms are also embedded from the library, in exact arithmetic. *)

From Stdlib Require Import QArith Qabs Qpower Lqa ZArith Lia Ascii String SpecFloat.
From stdpp Require Import base option list gmap strings fin_maps.

Open Scope string_scope.
Open Scope list_scope.
Open Scope Q_scope.

(** ** Exceptions, results and the store monad *)

Inductive exn :=
| ValueError (msg : string)
| KeyError (key : string)
| TypeError (msg : string)
| ModuleNotFoundError (name : string)
| AttributeError (name : string)
| TFError (op : string).

Inductive result (A : Type) :=
| Ok (a : A)
| Raise (e : exn).
Arguments Ok {A} a.
Arguments Raise {A} e.

#[export] Instance result_ret : MRet result := λ A a, Ok a.
#[export] Instance result_bind : MBind result := λ A B f m,
  match m with Ok a => f a | Raise e => Raise e end.
#[export] Instance result_fmap : FMap result := λ A B f m,
  match m with Ok a => Ok (f a) | Raise e => Raise e end.

(** [d[key]] on a dictionary. *)
Definition getitem {V} (d : gmap string V) (key : string) : result V :=
  match d !! key with Some v => Ok v | None => Raise (KeyError key) end.

(** [params[key]] on a configuration entry that may be absent. *)
Definition require {V} (key : string) (o : option V) : result V :=
  match o with Some v => Ok v | None => Raise (KeyError key) end.

(** ** Tensors *)

Record tensor (A : Type) := Tensor { shape : list nat; data : list nat → A }.
Arguments Tensor {A} shape data.
Arguments shape {A} t.
Arguments data {A} t idx.

Definition complex : Type := Q * Q.

Definition rank {A} (t : tensor A) : nat := length (shape t).

Definition in_bounds (s idx : list nat) : Prop := Forall2 lt idx s.

Definition numel (s : list nat) : nat := foldr Nat.mul 1%nat s.

Definition Qnat (n : nat) : Q := inject_Z (Z.of_nat n).

Definition qsum_list (l : list Q) : Q := foldr Qplus 0 l.

Fixpoint qsum_n (n : nat) (f : nat → Q) : Q :=
  match n with
  | O => 0
  | S k => qsum_n k f + f k
  end.

(** Sum of [f] over every index of a tensor of shape [s]. *)
Fixpoint tsum (s : list nat) (f : list nat → Q) : Q :=
  match s with
  | [] => f []
  | d :: s' => qsum_n d (λ i, tsum s' (λ idx, f (i :: idx)))
  end.

Definition tmap {A B} (f : A → B) (t : tensor A) : tensor B :=
  Tensor (shape t) (λ idx, f (data t idx)).

Definition zeros (s : list nat) : tensor Q := Tensor s (λ _, 0).

(** Broadcasting, dimensions aligned from the last one. *)
Definition broadcast_dim (d1 d2 : nat) : option nat :=
  if decide (d1 = d2) then Some d1
  else if decide (d1 = 1%nat) then Some d2
  else if decide (d2 = 1%nat) then Some d1
  else None.

Fixpoint broadcast_rev (s1 s2 : list nat) : option (list nat) :=
  match s1, s2 with
  | [], s | s, [] => Some s
  | d1 :: r1, d2 :: r2 =>
      d ← broadcast_dim d1 d2; r ← broadcast_rev r1 r2; Some (d :: r)
  end.

Definition broadcast_shape (s1 s2 : list nat) : option (list nat) :=
  reverse <$> broadcast_rev (reverse s1) (reverse s2).

Definition bidx_rev (s idx : list nat) : list nat :=
  zip_with (λ d i, if decide (d = 1%nat) then 0%nat else i) s idx.

(** The index of an operand of shape [s] that an index of the broadcast
    result reads. *)
Definition bidx (s idx : list nat) : list nat :=
  reverse (bidx_rev (reverse s) (reverse idx)).

Definition broadcast2 {A B C} (op : string) (f : A → B → C)
    (a : tensor A) (b : tensor B) : result (tensor C) :=
  match broadcast_shape (shape a) (shape b) with
  | Some s =>
      Ok (Tensor s (λ idx, f (data a (bidx (shape a) idx))
                             (data b (bidx (shape b) idx))))
  | None => Raise (TFError op)
  end.

Definition tsub := broadcast2 "sub" Qminus.
Definition tmul := broadcast2 "mul" Qmult.
Definition tabs : tensor Q → tensor Q := tmap Qabs.
Definition tscale (t : tensor Q) (c : Q) : tensor Q := tmap (λ x, x * c) t.

(** ** The arithmetic of the ratio mask *)

(** TensorFlow evaluates the ratio mask in the type of the estimates,
    float32 for the shipped models, and Python evaluates
    [EPSILON / len(output_dict)] on its own floats, which are binary64,
    before the quotient becomes an operand of a tensor.  The mask is
    embedded once, over the operations it uses; they are read below in
    exact arithmetic, which gives the formula, and in float32, which gives
    the values that the code computes. *)
Class Arithmetic (A : Type) := {
  pyfloat : Type;
  py_float : Q → pyfloat;
  py_truediv : pyfloat → nat → pyfloat;
  tf_constant : pyfloat → A;
  tf_zero : A;
  tf_add : A → A → A;
  tf_truediv : A → A → A;
  tf_pow : A → Z → A
}.

(** Exact arithmetic: every number is a rational and nothing is rounded. *)
#[export] Instance exact : Arithmetic Q := {|
  pyfloat := Q;
  py_float := λ x, x;
  py_truediv := λ x n, x / Qnat n;
  tf_constant := λ x, x;
  tf_zero := 0;
  tf_add := Qplus;
  tf_truediv := Qdiv;
  tf_pow := Qpower
|}.

(** IEEE 754 arithmetic, rounding to nearest with ties to even: binary32
    has 24 digits and exponents below 128, binary64 has 53 digits and
    exponents below 1024. *)
Abbreviation float32 := spec_float (only parsing).
Abbreviation float64 := spec_float (only parsing).

Definition float64_of_Z (z : Z) : float64 := binary_normalize 53 1024 z 0 false.
Definition float32_of_Z (z : Z) : float32 := binary_normalize 24 128 z 0 false.

(** The binary64 that Python reads from a decimal literal [n / d], for
    [n] and [d] below 2^53: the quotient, rounded once. *)
Definition float64_of_Q (x : Q) : float64 :=
  SFdiv 53 1024 (float64_of_Z (Qnum x)) (float64_of_Z (Zpos (Qden x))).

(** [np.float32(x)]. *)
Definition float32_of_float64 (x : float64) : float32 :=
  match x with
  | S754_finite s m e => binary_round 24 128 s m e
  | _ => x
  end.

Definition float32_mul : float32 → float32 → float32 := SFmul 24 128.
Definition float32_one : float32 := float32_of_Z 1.

(** Float32 tensors with binary64 Python floats.  The power [x ** p] is
    [powf] of the C library, which IEEE 754 does not fix to the last
    place: it is a parameter. *)
Definition ieee (powf : float32 → Z → float32) : Arithmetic float32 := {|
  pyfloat := float64;
  py_float := float64_of_Q;
  py_truediv := λ x n, SFdiv 53 1024 x (float64_of_Z (Z.of_nat n));
  tf_constant := float32_of_float64;
  tf_zero := S754_zero false;
  tf_add := SFadd 24 128;
  tf_truediv := SFdiv 24 128;
  tf_pow := powf
|}.

(** A power for the examples: [x ** p] for an integer [p] by repeated
    multiplication with every product rounded, and the inverse of
    [x ** -p] for a negative [p].  [powf] is within a unit in the last
    place of the exact power; the two agree for the exponents 0 and 1, on
    zeros and infinities, and on the powers that overflow. *)
Definition float32_pow (x : float32) (p : Z) : float32 :=
  match p with
  | Z0 => float32_one
  | Zpos n => Pos.iter (float32_mul x) float32_one n
  | Zneg n => SFdiv 24 128 float32_one (Pos.iter (float32_mul x) float32_one n)
  end.

(** [EPSILON] and [EPSILON / n] as operands of a float32 tensor, and the
    mask of a cell where each of [n] estimates is zero. *)
Definition epsilon32 (eps : Q) : float32 := float32_of_float64 (float64_of_Q eps).
Definition share32 (eps : Q) (n : nat) : float32 :=
  float32_of_float64 (SFdiv 53 1024 (float64_of_Q eps) (float64_of_Z (Z.of_nat n))).
Definition zero_mask (eps : Q) (n : nat) : float32 :=
  SFdiv 24 128 (share32 eps n) (epsilon32 eps).

(** A float that is a number or an infinity of positive sign, a positive
    zero, or not a number. *)
Definition unsigned (x : spec_float) : Prop :=
  match x with
  | S754_zero true | S754_infinity true | S754_finite true _ _ => False
  | _ => True
  end.

(** A float that is a number, and one that is above zero. *)
Definition is_finite (x : spec_float) : bool :=
  match x with
  | S754_zero _ | S754_finite _ _ _ => true
  | _ => false
  end.
Definition is_positive (x : spec_float) : bool :=
  SFltb (S754_zero false) x.

(** The rational that a finite float stands for, in lowest terms. *)
Definition float_value (x : spec_float) : option Q :=
  match x with
  | S754_zero _ => Some 0
  | S754_finite s m e =>
      Some (Qred (inject_Z (if s then Zneg m else Zpos m) * 2 ^ e))
  | _ => None
  end.

Section tensor_arithmetic.
Context {A : Type} {arith : Arithmetic A}.

Definition tdiv := broadcast2 "truediv" tf_truediv.
Definition tpow (t : tensor A) (p : Z) : tensor A := tmap (λ x, tf_pow x p) t.
Definition tadd_scalar (t : tensor A) (c : pyfloat) : tensor A :=
  tmap (λ x, tf_add x (tf_constant c)) t.

(** The sum of a list of numbers, in the order of the list; TensorFlow
    leaves the order of a reduction open. *)
Definition sum_list (l : list A) : A := foldr tf_add tf_zero l.
End tensor_arithmetic.

(** [tf.cast(mask, tf.complex64) * stft]. *)
Definition cmul (x y : complex) : complex :=
  (fst x * fst y - snd x * snd y, fst x * snd y + snd x * fst y).
Definition tcast_complex : tensor Q → tensor complex := tmap (λ x, (x, 0)).
Definition tcmul := broadcast2 "mul" cmul.

(** [tf.reduce_mean(t)]: the mean of all entries. *)
Definition reduce_mean (t : tensor Q) : Q :=
  tsum (shape t) (data t) / Qnat (numel (shape t)).

(** [idx] with the entries at [axes] replaced by those of [r]. *)
Definition set_axes (axes r idx : list nat) : list nat :=
  foldr (λ av i, <[av.1 := av.2]> i) idx (zip axes r).

(** [tf.reduce_mean(t, axis=axes, keepdims=True)]. *)
Definition reduce_mean_axes (axes : list nat) (t : tensor Q) : result (tensor Q) :=
  if bool_decide (Forall (λ a, (a < rank t)%nat) axes) then
    let dims := (λ a, default 0%nat (shape t !! a)) <$> axes in
    Ok (Tensor (set_axes axes (replicate (length axes) 1%nat) (shape t))
               (λ idx, tsum dims (λ r, data t (set_axes axes r idx))
                       / Qnat (numel dims)))
  else Raise (TFError "reduce_mean").

(** [tf.reduce_sum(ts, axis=0)] on a Python list of tensors: the list is
    packed into one tensor, which needs equal shapes, and summed along the
    new first axis. *)
Definition reduce_sum_list {A} {arith : Arithmetic A} (ts : list (tensor A))
    : result (tensor A) :=
  match ts with
  | [] => Ok (Tensor [] (λ _, tf_zero))
  | t :: _ =>
      if bool_decide (Forall (λ u, shape u = shape t) ts) then
        Ok (Tensor (shape t) (λ idx, sum_list ((λ u, data u idx) <$> ts)))
      else Raise (TFError "pack")
  end.

(** [tf.tile(t, multiples)]. *)
Definition tile {A} (t : tensor A) (multiples : list Z) : result (tensor A) :=
  if bool_decide (length multiples = rank t ∧ Forall (λ m, (0 ≤ m)%Z) multiples) then
    Ok (Tensor (zip_with (λ d m, (d * Z.to_nat m)%nat) (shape t) multiples)
               (λ idx, data t (zip_with Nat.modulo idx (shape t))))
  else Raise (TFError "tile").

(** [tf.concat([a, b], axis)]. *)
Definition concat2 {A} (a b : tensor A) (axis : nat) : result (tensor A) :=
  match shape a !! axis, shape b !! axis with
  | Some da, Some db =>
      if bool_decide (<[axis := 0%nat]> (shape a) = <[axis := 0%nat]> (shape b)) then
        Ok (Tensor (<[axis := (da + db)%nat]> (shape a))
                   (λ idx, match idx !! axis with
                           | Some i =>
                               if (i <? da)%nat then data a idx
                               else data b (<[axis := (i - da)%nat]> idx)
                           | None => data a idx
                           end))
      else Raise (TFError "concat")
  | _, _ => Raise (TFError "concat")
  end.

(** [tf.reshape(t, [s[0] * s[1]] + s[2:])] with [s = tf.shape(t)]. *)
Definition reshape_stack_back {A} (t : tensor A) : result (tensor A) :=
  match shape t with
  | d0 :: d1 :: rest =>
      Ok (Tensor ((d0 * d1)%nat :: rest)
                 (λ idx, match idx with
                         | i :: r => data t ((i / d1)%nat :: (i mod d1)%nat :: r)
                         | [] => data t []
                         end))
  | _ => Raise (TFError "strided_slice")
  end.

(** [tf.shape(t)[0]]. *)
Definition shape0 {A} (t : tensor A) : result nat :=
  match shape t with d0 :: _ => Ok d0 | [] => Raise (TFError "strided_slice") end.

(** [tf.shape(t)[i]] and [tf.shape(t)[-1]]. *)
Definition shape_at {A} (t : tensor A) (i : nat) : result nat :=
  match shape t !! i with Some d => Ok d | None => Raise (TFError "strided_slice") end.
Definition shape_last {A} (t : tensor A) : result nat :=
  match last (shape t) with Some d => Ok d | None => Raise (TFError "strided_slice") end.

(** [t[:n, ...]], and [t[:n, :]] when [min_rank] is 2. *)
Definition slice_rows {A} (min_rank n : nat) (t : tensor A) : result (tensor A) :=
  match shape t with
  | d0 :: rest =>
      if bool_decide (min_rank ≤ rank t)%nat then
        Ok (Tensor (Nat.min n d0 :: rest) (data t))
      else Raise (TFError "strided_slice")
  | [] => Raise (TFError "strided_slice")
  end.

(** The end of a Python slice [:e] on an axis of length [d]. *)
Definition slice_end (d : nat) (e : Z) : nat :=
  if (e <? 0)%Z then Z.to_nat (Z.max 0 (Z.of_nat d + e)) else Nat.min d (Z.to_nat e).

(** [t[:, :, :e, :]]. *)
Definition slice_bins {A} (e : Z) (t : tensor A) : result (tensor A) :=
  match shape t !! 2%nat with
  | Some d2 =>
      if bool_decide (4 ≤ rank t)%nat then
        Ok (Tensor (<[2%nat := slice_end d2 e]> (shape t)) (data t))
      else Raise (TFError "strided_slice")
  | None => Raise (TFError "strided_slice")
  end.

(** [tf.transpose(t, perm=perm)] and [tf.transpose(t)]. *)
Definition transpose_perm {A} (t : tensor A) (perm : list nat) : result (tensor A) :=
  if bool_decide (length perm = rank t ∧ NoDup perm
                  ∧ Forall (λ p, (p < rank t)%nat) perm) then
    Ok (Tensor ((λ p, default 0%nat (shape t !! p)) <$> perm)
               (λ idx, data t (set_axes perm idx idx)))
  else Raise (TFError "transpose").

Definition transpose {A} (t : tensor A) : tensor A :=
  Tensor (reverse (shape t)) (λ idx, data t (reverse idx)).

(** [tf.stack(ts, axis=3)]. *)
Definition stack3 {A} (ts : list (tensor A)) : result (tensor A) :=
  match ts with
  | [] => Raise (TFError "stack")
  | t :: _ =>
      if bool_decide (Forall (λ u, shape u = shape t) ts ∧ (3 ≤ rank t)%nat) then
        Ok (Tensor (take 3 (shape t) ++ length ts :: drop 3 (shape t))
                   (λ idx, data (default t (ts !! default 0%nat (idx !! 3%nat)))
                                (take 3 idx ++ drop 4 idx)))
      else Raise (TFError "stack")
  end.

(** [t[:, :, :, k]]. *)
Definition select_last {A} (t : tensor A) (k : nat) : result (tensor A) :=
  match shape t !! 3%nat with
  | Some d3 =>
      if bool_decide (k < d3)%nat then
        Ok (Tensor (take 3 (shape t) ++ drop 4 (shape t))
                   (λ idx, data t (take 3 idx ++ k :: drop 3 idx)))
      else Raise (TFError "strided_slice")
  | None => Raise (TFError "strided_slice")
  end.

(** ** Configuration, features and the store *)

(** A JSON value: the model parameters and the [audio_id] are passed
    through untouched. *)
#[warnings="-register-all"] Inductive pyval :=
| PNone
| PBool (b : bool)
| PInt (z : Z)
| PFloat (q : Q)
| PStr (s : string)
| PList (l : list pyval)
| PDict (d : list (string * pyval)).

(** The [model] entry of the configuration. *)
Record model_config := ModelConfig {
  model_type : option string;
  model_params : option pyval
}.

(** The [params] dictionary, read with the types its values have in the
    shipped configurations; [None] is an absent key. *)
Record Params := {
  mix_name : option string;
  instrument_list : option (list string);
  n_channels : option Z;
  T : option Z;
  F : option Z;
  frame_length : option Z;
  frame_step : option Z;
  model : option model_config;
  loss_type : option string;
  optimizer : option string;
  learning_rate : option Q;
  MWF : option bool;
  mask_extension : option string;
  separation_exponent : option Z
}.

Inductive feature :=
| FReal (t : tensor Q)
| FComplex (t : tensor complex)
| FValue (v : pyval).

(** Computations over the [features] dictionary, which the builder shares
    with its caller and extends in place. *)
Definition M (A : Type) : Type :=
  gmap string feature → result A * gmap string feature.

#[export] Instance M_ret : MRet M := λ A a fs, (Ok a, fs).
#[export] Instance M_bind : MBind M := λ A B f m fs,
  match m fs with
  | (Ok a, fs') => f a fs'
  | (Raise e, fs') => (Raise e, fs')
  end.

Definition lift {A} (r : result A) : M A := λ fs, (r, fs).

(** [self._features[key]] and [self._features[key] = v]. *)
Definition get_feature (key : string) : M feature := λ fs, (getitem fs key, fs).
Definition set_feature (key : string) (v : feature) : M () :=
  λ fs, (Ok (), <[key := v]> fs).
Definition has_feature (key : string) : M bool :=
  λ fs, (Ok (bool_decide (is_Some (fs !! key))), fs).

Definition as_real (v : feature) : result (tensor Q) :=
  match v with FReal t => Ok t | _ => Raise (TypeError "float32 tensor expected") end.
Definition as_complex (v : feature) : result (tensor complex) :=
  match v with FComplex t => Ok t | _ => Raise (TypeError "complex64 tensor expected") end.

(** ** The world outside the module *)

(** The window a [window_fn] returns. *)
Inductive window := hann_window (window_length : Z) (periodic : bool).

(** A model function of [spleeter.model.functions]: it takes the mix
    spectrogram, the instrument names and the model parameters. *)
Definition model_function : Type :=
  tensor Q → list string → pyval → result (gmap string (tensor Q)).

Inductive optimizer_t :=
| AdadeltaOptimizer
| GradientDescentOptimizer (rate : Q)
| AdamOptimizer (rate : Q).

(** The operation that [optimizer.minimize(loss=loss, global_step=...)]
    adds to the graph. *)
Record train_operation := TrainOperation { min_optimizer : optimizer_t; min_loss : Q }.

(** What the module calls and does not define: [tensorflow.contrib.signal],
    the complex modulus of [tf.abs], [spleeter.utils.tensor], [norbert],
    the modules that [importlib] locates and the optimizers' [minimize].
    [importable] holds the modules whose import succeeds, each with its
    attributes; [broken] holds the modules that are located and whose
    import raises, with the exception raised: [ModuleNotFoundError] when a
    module that they import in turn is missing.  [minimize] raises when the
    graph of the model has nothing to train. *)
Class Backend := {
  stft : tensor Q → Z → Z → (Z → window) → bool → result (tensor complex);
  inverse_stft : tensor complex → Z → Z → (Z → window) → result (tensor Q);
  complex_abs : complex → Q;
  pad_and_partition : tensor complex → Z → result (tensor complex);
  pad_and_reshape : tensor Q → Z → Z → result (tensor Q);
  wiener : tensor Q → tensor complex → result (tensor complex);
  importable : gmap string (gmap string model_function);
  broken : gmap string exn;
  minimize : optimizer_t → Q → result train_operation
}.

(** A module that [importlib] finds, whether or not its import succeeds. *)
Definition located `{Backend} (path : string) : Prop :=
  is_Some (importable !! path) ∨ is_Some (broken !! path).

(** [importlib.import_module] and [getattr]. *)
Definition import_module `{Backend} (path : string)
    : result (gmap string model_function) :=
  match importable !! path with
  | Some module => Ok module
  | None =>
      match broken !! path with
      | Some e => Raise e
      | None => Raise (ModuleNotFoundError path)
      end
  end.

Definition getattr (module : gmap string model_function) (name : string)
    : result model_function :=
  match module !! name with
  | Some f => Ok f
  | None => Raise (AttributeError name)
  end.

(** [str.split] on one character: never empty. *)
Fixpoint split (sep : ascii) (s : string) : list string :=
  match s with
  | EmptyString => [EmptyString]
  | String a s' =>
      if decide (a = sep) then EmptyString :: split sep s'
      else match split sep s' with
           | x :: r => String a x :: r
           | [] => [String a EmptyString]
           end
  end.

Definition dot : ascii := "."%char.
Definition __name__ : string := "spleeter.model".

Definition get_model_function `{Backend} (model_type : string)
    : result model_function :=
  let relative_path_to_module :=
    String.concat "." (removelast (split dot model_type)) in
  let model_name := default "" (last (split dot model_type)) in
  let main_module := String.concat "." [__name__; "functions"] in
  let path_to_module := main_module +:+ "." +:+ relative_path_to_module in
  module ← import_module path_to_module;
  getattr module model_name.

(** The module path that [get_model_function] imports and the attribute
    that it reads. *)
Definition path_to_module (model_type : string) : string :=
  "spleeter.model.functions." +:+ String.concat "." (removelast (split dot model_type)).

Definition model_name (model_type : string) : string :=
  default "" (last (split dot model_type)).

(** ** EstimatorSpecBuilder *)

Record EstimatorSpecBuilder := {
  _params : Params;
  _mix_name : string;
  _instruments : list string;
  _n_channels : Z;
  _T : Z;
  _F : Z;
  _frame_length : Z;
  _frame_step : Z
}.

Definition DEFAULT_MODEL : string := "unet.unet".
Definition L1_MASK : string := "L1_mask".
Definition WEIGHTED_L1_MASK : string := "weighted_L1_mask".
Definition ADADELTA : string := "Adadelta".
Definition SGD : string := "SGD".
Definition WINDOW_COMPENSATION_FACTOR : Q := 2 # 3.
Definition EPSILON : Q := 1 # 10000000000.

(** [tf.estimator.ModeKeys]. *)
Definition PREDICT : string := "infer".
Definition EVAL : string := "eval".
Definition TRAIN : string := "train".

Record EstimatorSpec := {
  mode : string;
  predictions : option (gmap string feature);
  loss : option Q;
  train_op : option train_operation;
  eval_metric_ops : option (gmap string Q)
}.

(** The constructor; the [features] it keeps are the store of [M]. *)
Definition __init__ (params : Params) : result EstimatorSpecBuilder :=
  mix_name ← require "mix_name" (mix_name params);
  instruments ← require "instrument_list" (instrument_list params);
  n_channels ← require "n_channels" (n_channels params);
  T ← require "T" (T params);
  F ← require "F" (F params);
  frame_length ← require "frame_length" (frame_length params);
  frame_step ← require "frame_step" (frame_step params);
  mret {| _params := params; _mix_name := mix_name; _instruments := instruments;
          _n_channels := n_channels; _T := T; _F := F;
          _frame_length := frame_length; _frame_step := frame_step |}.

(** A dictionary built entry by entry: a later entry replaces an earlier
    one with the same key. *)
Definition dict_of_items {V} (items : list (string * V)) : gmap string V :=
  list_to_map (reverse items).

(** [list(d.values())]. *)
Definition values {V} (d : gmap string V) : list V := (map_to_list d).*2.

(** [{name: f(name, v) for name, v in d.items()}]. *)
Definition dict_comprehension {V W} (f : string → V → result W)
    (d : gmap string V) : result (gmap string W) :=
  items ← mapM (λ kv, w ← f kv.1 kv.2; mret (kv.1, w)) (map_to_list d);
  mret (dict_of_items items).

(** The [try] block of [_build_output_dict]. *)
Definition resolve_model `{Backend} (model_type : string) : result model_function :=
  match get_model_function model_type with
  | Raise (ModuleNotFoundError _) =>
      Raise (ValueError ("No model function " +:+ model_type +:+ " found"))
  | r => r
  end.

Definition _build_output_dict `{Backend} (self : EstimatorSpecBuilder)
    : M (gmap string (tensor Q)) :=
  input_tensor ← get_feature (_mix_name self +:+ "_spectrogram");
  let model_type :=
    match model (_params self) with
    | Some model => default DEFAULT_MODEL (model_type model)
    | None => DEFAULT_MODEL
    end in
  apply_model ← lift (resolve_model model_type);
  model ← lift (require "model" (model (_params self)));
  model_params ← lift (require "params" (model_params model));
  input_tensor ← lift (as_real input_tensor);
  lift (apply_model input_tensor (_instruments self) model_params).

(** One instrument's term of the [L1_mask] loss ... *)
Definition l1_term (output label : tensor Q) : result Q :=
  difference ← tsub output label;
  mret (reduce_mean (tabs difference)).

(** ... and of the [weighted_L1_mask] loss. *)
Definition weighted_l1_term (output label : tensor Q) : result Q :=
  weight ← reduce_mean_axes [1; 2; 3]%nat label;
  difference ← tsub output label;
  weighted ← tmul weight (tabs difference);
  mret (reduce_mean weighted).

(** The loss and the metrics; a metric is recorded as the value whose
    running mean TensorFlow tracks. *)
Definition _build_loss (self : EstimatorSpecBuilder)
    (output_dict labels : gmap string (tensor Q)) : result (Q * gmap string Q) :=
  let loss_type := default L1_MASK (loss_type (_params self)) in
  losses ←
    (if decide (loss_type = L1_MASK) then
       dict_comprehension
         (λ name output, label ← getitem labels name; l1_term output label)
         output_dict
     else if decide (loss_type = WEIGHTED_L1_MASK) then
       dict_comprehension
         (λ name output, label ← getitem labels name; weighted_l1_term output label)
         output_dict
     else Raise (ValueError ("Unknown loss type: " +:+ loss_type)));
  let loss := qsum_list (values losses) in
  let metrics := <["absolute_difference" := loss]> losses in
  mret (loss, metrics).

(** The per-instrument term that the configured loss type selects. *)
Definition loss_selects (self : EstimatorSpecBuilder)
    (term : tensor Q → tensor Q → result Q) : Prop :=
  (default L1_MASK (loss_type (_params self)) = L1_MASK ∧ term = l1_term)
  ∨ (default L1_MASK (loss_type (_params self)) = WEIGHTED_L1_MASK
     ∧ term = weighted_l1_term).

(** Every output has a label of its shape, four-dimensional and not
    empty, and [P] relates the two. *)
Definition matching_labels (P : tensor Q → tensor Q → Prop)
    (output_dict labels : gmap string (tensor Q)) : Prop :=
  ∀ name output, output_dict !! name = Some output →
    ∃ label, labels !! name = Some label ∧ shape label = shape output
      ∧ length (shape output) = 4%nat ∧ numel (shape output) ≠ 0%nat
      ∧ P output label.

Definition _build_optimizer (self : EstimatorSpecBuilder) : result optimizer_t :=
  let name := optimizer (_params self) in
  if decide (name = Some ADADELTA) then mret AdadeltaOptimizer
  else
    rate ← require "learning_rate" (learning_rate (_params self));
    if decide (name = Some SGD) then mret (GradientDescentOptimizer rate)
    else mret (AdamOptimizer rate).

(** The [window_fn] of both transforms. *)
Definition periodic_hann (frame_length : Z) : window := hann_window frame_length true.

Definition _build_stft_feature `{Backend} (self : EstimatorSpecBuilder) : M () :=
  waveform ← get_feature "waveform";
  waveform ← lift (as_real waveform);
  frames ← lift (stft (transpose waveform) (_frame_length self) (_frame_step self)
                      periodic_hann true);
  stft_feature ← lift (transpose_perm frames [1; 2; 0]%nat);
  set_feature (_mix_name self +:+ "_stft") (FComplex stft_feature);;
  segments ← lift (pad_and_partition stft_feature (_T self));
  spectrogram ← lift (slice_bins (_F self) (tmap complex_abs segments));
  set_feature (_mix_name self +:+ "_spectrogram") (FReal spectrogram).

(** [tf.shape(v)[0]] of a feature. *)
Definition feature_shape0 (v : feature) : result nat :=
  match v with
  | FReal t => shape0 t
  | FComplex t => shape0 t
  | FValue _ => Raise (TFError "strided_slice")
  end.

Definition _inverse_stft `{Backend} (self : EstimatorSpecBuilder)
    (stft : tensor complex) : M (tensor Q) :=
  frames ← lift (transpose_perm stft [2; 0; 1]%nat);
  inversed ← lift (inverse_stft frames (_frame_length self) (_frame_step self)
                                periodic_hann);
  let inversed := tscale inversed WINDOW_COMPENSATION_FACTOR in
  let reshaped := transpose inversed in
  waveform ← get_feature "waveform";
  n ← lift (feature_shape0 waveform);
  lift (slice_rows 2 n reshaped).

Definition _build_mwf_output_waveform `{Backend} (self : EstimatorSpecBuilder)
    (output_dict : gmap string (tensor Q)) : M (gmap string feature) :=
  x ← get_feature (_mix_name self +:+ "_stft");
  estimates ← lift (mapM (λ instrument,
      estimate ← getitem output_dict (instrument +:+ "_spectrogram");
      reshaped ← pad_and_reshape estimate (_frame_length self) (_F self);
      n ← feature_shape0 x;
      slice_rows 1 n reshaped) (_instruments self));
  v ← lift (stack3 estimates);
  x ← lift (as_complex x);
  stft_function ← lift (wiener v x);
  waveforms ← mapM (λ ki,
      separated ← lift (select_last stft_function ki.1);
      waveform ← _inverse_stft self separated;
      mret (ki.2, FReal waveform))
    (zip (seq 0 (length (_instruments self))) (_instruments self));
  mret (dict_of_items waveforms).

Definition _extend_mask (self : EstimatorSpecBuilder) (mask : tensor Q)
    : result (tensor Q) :=
  extension ← require "mask_extension" (mask_extension (_params self));
  extension_row ←
    (if decide (extension = "average") then reduce_mean_axes [2%nat] mask
     else if decide (extension = "zeros") then
       d0 ← shape_at mask 0; d1 ← shape_at mask 1; dl ← shape_last mask;
       mret (zeros [d0; d1; 1%nat; dl])
     else Raise (ValueError ("Invalid mask_extension parameter " +:+ extension)));
  let n_extra_row := ((_frame_length self) `div` 2 + 1 - _F self)%Z in
  extension ← tile extension_row [1; 1; n_extra_row; 1]%Z;
  concat2 mask extension 2.

(** The ratio mask of [_build_manual_output_waveform], in any arithmetic
    and for any value [eps] of the regularising constant; the builder uses
    [EPSILON]. *)
Section ratio_mask_definition.
Context {A : Type} {arith : Arithmetic A}.

Definition ratio_output_sum (eps : pyfloat) (separation_exponent : Z)
    (output_dict : gmap string (tensor A)) : result (tensor A) :=
  total ← reduce_sum_list ((λ e, tpow e separation_exponent) <$> values output_dict);
  mret (tadd_scalar total eps).

Definition ratio_mask (eps : pyfloat) (separation_exponent : Z)
    (output_dict : gmap string (tensor A)) (output output_sum : tensor A)
    : result (tensor A) :=
  tdiv (tadd_scalar (tpow output separation_exponent)
                    (py_truediv eps (size output_dict)))
       output_sum.

(** The denominator of every mask at the cell [idx]. *)
Definition ratio_denominator (eps : pyfloat) (separation_exponent : Z)
    (output_dict : gmap string (tensor A)) (idx : list nat) : A :=
  tf_add (sum_list ((λ v, tf_pow (data v idx) separation_exponent)
                      <$> values output_dict))
         (tf_constant eps).

(** The mask of one instrument: the first lines of the loop body. *)
Definition instrument_mask (eps : pyfloat) (separation_exponent : Z)
    (output_dict : gmap string (tensor A)) (output_sum : tensor A)
    (instrument : string) : result (tensor A) :=
  output ← getitem output_dict (instrument +:+ "_spectrogram");
  ratio_mask eps separation_exponent output_dict output output_sum.
End ratio_mask_definition.

Definition _build_manual_output_waveform `{Backend} (self : EstimatorSpecBuilder)
    (output_dict : gmap string (tensor Q)) : M (gmap string feature) :=
  separation_exponent ←
    lift (require "separation_exponent" (separation_exponent (_params self)));
  output_sum ← lift (ratio_output_sum (py_float EPSILON) separation_exponent
                                      output_dict);
  waveforms ← mapM (λ instrument,
      mask ← lift (instrument_mask (py_float EPSILON) separation_exponent
                                   output_dict output_sum instrument);
      mask ← lift (_extend_mask self mask);
      mask ← lift (reshape_stack_back mask);
      stft_feature ← get_feature (_mix_name self +:+ "_stft");
      n ← lift (feature_shape0 stft_feature);
      mask ← lift (slice_rows 1 n mask);
      stft_feature ← lift (as_complex stft_feature);
      masked ← lift (tcmul (tcast_complex mask) stft_feature);
      waveform ← _inverse_stft self masked;
      mret (instrument, FReal waveform))
    (_instruments self);
  mret (dict_of_items waveforms).

Definition _build_output_waveform `{Backend} (self : EstimatorSpecBuilder)
    (output_dict : gmap string (tensor Q)) : M (gmap string feature) :=
  output_waveform ←
    (if default false (MWF (_params self))
     then _build_mwf_output_waveform self output_dict
     else _build_manual_output_waveform self output_dict);
  present ← has_feature "audio_id";
  if present : bool then
    audio_id ← get_feature "audio_id";
    mret (<["audio_id" := audio_id]> output_waveform)
  else mret output_waveform.

Definition build_predict_model `{Backend} (self : EstimatorSpecBuilder)
    : M EstimatorSpec :=
  _build_stft_feature self;;
  output_dict ← _build_output_dict self;
  output_waveform ← _build_output_waveform self output_dict;
  mret {| mode := PREDICT; predictions := Some output_waveform; loss := None;
          train_op := None; eval_metric_ops := None |}.

Definition build_evaluation_model `{Backend} (self : EstimatorSpecBuilder)
    (labels : gmap string (tensor Q)) : M EstimatorSpec :=
  output_dict ← _build_output_dict self;
  lm ← lift (_build_loss self output_dict labels);
  mret {| mode := EVAL; predictions := None; loss := Some lm.1;
          train_op := None; eval_metric_ops := Some lm.2 |}.

Definition build_train_model `{Backend} (self : EstimatorSpecBuilder)
    (labels : gmap string (tensor Q)) : M EstimatorSpec :=
  output_dict ← _build_output_dict self;
  lm ← lift (_build_loss self output_dict labels);
  optimizer ← lift (_build_optimizer self);
  train_operation ← lift (minimize optimizer lm.1);
  mret {| mode := TRAIN; predictions := None; loss := Some lm.1;
          train_op := Some train_operation; eval_metric_ops := Some lm.2 |}.

(** The entry point handed to [tf.estimator.Estimator]; [config] is not
    used. *)
Definition model_fn `{Backend} (labels : gmap string (tensor Q)) (mode : string)
    (params : Params) (config : pyval) : M EstimatorSpec :=
  builder ← lift (__init__ params);
  if decide (mode = PREDICT) then build_predict_model builder
  else if decide (mode = EVAL) then build_evaluation_model builder labels
  else if decide (mode = TRAIN) then build_train_model builder labels
  else lift (Raise (ValueError ("Unknown mode " +:+ mode))).

(** ** Sample configurations *)

(** A model function that returns the mix spectrogram for every
    instrument. *)
Definition echo_model : model_function := λ input instruments _,
  Ok (dict_of_items ((λ i, (i +:+ "_spectrogram", input)) <$> instruments)).

Definition zero_complex (s : list nat) : tensor complex := Tensor s (λ _, (0, 0)).

(** The length of the Fourier transform that [stft] and [inverse_stft]
    take when none is given: the smallest power of two that is at least
    the frame length. *)
Definition enclosing_power_of_two (value : Z) : Z := 2 ^ Z.log2_up value.

(** The number of frequency bins of a forward transform. *)
Definition fft_unique_bins (frame_length : Z) : nat :=
  Z.to_nat (enclosing_power_of_two frame_length `div` 2 + 1).

(** A backend with the shapes of the real one and silent signals: a
    forward transform with [pad_end] has [ceil(n / frame_step)] frames of
    [fft_length // 2 + 1] bins, and overlap-add returns
    [(frames - 1) * frame_step + frame_length] samples.  Its model
    functions create no variable, so that [minimize] has nothing to
    train. *)
Definition overlap_add_length (frames : nat) (frame_length frame_step : Z) : nat :=
  Z.to_nat ((Z.of_nat frames - 1) * frame_step + frame_length).

Definition silent_backend : Backend := {|
  stft := λ t frame_length frame_step _ _,
    match shape t with
    | [c; n] =>
        Ok (zero_complex [c; Z.to_nat (- ((- Z.of_nat n) `div` frame_step));
                          fft_unique_bins frame_length])
    | _ => Raise (TFError "stft")
    end;
  inverse_stft := λ t frame_length frame_step _,
    match shape t with
    | [c; frames; _] => Ok (zeros [c; overlap_add_length frames frame_length frame_step])
    | _ => Raise (TFError "inverse_stft")
    end;
  complex_abs := λ z, Qabs (fst z) + Qabs (snd z);
  pad_and_partition := λ t _, Raise (TFError "pad_and_partition");
  pad_and_reshape := λ t _ _, Raise (TFError "pad_and_reshape");
  wiener := λ _ _, Raise (TFError "wiener");
  importable := {[ "spleeter.model.functions.unet" := {[ "unet" := echo_model ]} ]};
  broken := ∅;
  minimize := λ _ _, Raise (ValueError "No variables to optimize.")
|}.

(** [silent_backend] where the [unet] module is found and imports a module
    that is not installed ... *)
Definition missing_dependency_backend : Backend := {|
  stft := @stft silent_backend;
  inverse_stft := @inverse_stft silent_backend;
  complex_abs := @complex_abs silent_backend;
  pad_and_partition := @pad_and_partition silent_backend;
  pad_and_reshape := @pad_and_reshape silent_backend;
  wiener := @wiener silent_backend;
  importable := ∅;
  broken := {[ "spleeter.model.functions.unet" := ModuleNotFoundError "tensorflow" ]};
  minimize := @minimize silent_backend
|}.

(** ... and where its import raises another exception. *)
Definition failing_import_backend : Backend := {|
  stft := @stft silent_backend;
  inverse_stft := @inverse_stft silent_backend;
  complex_abs := @complex_abs silent_backend;
  pad_and_partition := @pad_and_partition silent_backend;
  pad_and_reshape := @pad_and_reshape silent_backend;
  wiener := @wiener silent_backend;
  importable := ∅;
  broken := {[ "spleeter.model.functions.unet" := TypeError "unsupported operand" ]};
  minimize := @minimize silent_backend
|}.

(** [silent_backend] with a model that has variables to train. *)
Definition trainable_backend : Backend := {|
  stft := @stft silent_backend;
  inverse_stft := @inverse_stft silent_backend;
  complex_abs := @complex_abs silent_backend;
  pad_and_partition := @pad_and_partition silent_backend;
  pad_and_reshape := @pad_and_reshape silent_backend;
  wiener := @wiener silent_backend;
  importable := @importable silent_backend;
  broken := @broken silent_backend;
  minimize := λ optimizer loss, Ok (TrainOperation optimizer loss)
|}.

(** The specification of model resolution that the code does not meet:
    the error is raised exactly when the submodule cannot be located. *)
Definition not_found_iff_not_located : Prop :=
  ∀ (backend : Backend) name,
    @resolve_model backend name
    = Raise (ValueError ("No model function " +:+ name +:+ " found"))
    ↔ ¬ @located backend (path_to_module name).

Definition sample_params (model : option model_config)
    (loss_type optimizer : option string) (learning_rate : option Q)
    (mask_extension : option string) (frame_length frame_step F : Z) : Params := {|
  mix_name := Some "mix";
  instrument_list := Some ["vocals"; "accompaniment"];
  n_channels := Some 2%Z;
  T := Some 2%Z;
  F := Some F;
  frame_length := Some frame_length;
  frame_step := Some frame_step;
  model := model;
  loss_type := loss_type;
  optimizer := optimizer;
  learning_rate := learning_rate;
  MWF := None;
  mask_extension := mask_extension;
  separation_exponent := Some 2%Z
|}.

Definition sample_builder (params : Params) : EstimatorSpecBuilder := {|
  _params := params;
  _mix_name := default "" (mix_name params);
  _instruments := default [] (instrument_list params);
  _n_channels := default 0%Z (n_channels params);
  _T := default 0%Z (T params);
  _F := default 0%Z (F params);
  _frame_length := default 0%Z (frame_length params);
  _frame_step := default 0%Z (frame_step params)
|}.

Definition unet_config : model_config := ModelConfig (Some "unet.unet") (Some (PDict [])).

(** A spectrogram of shape (1, 2, 2, 1) and a mask of the same shape. *)
Definition ramp (s : list nat) : tensor Q :=
  Tensor s (λ idx, Qnat (foldr (λ i acc, i + 2 * acc)%nat 1%nat idx)).

Definition sample_spectrogram : tensor Q := ramp [1; 2; 2; 1]%nat.

Definition sample_features : gmap string feature :=
  {[ "mix_spectrogram" := FReal sample_spectrogram ]}.

Definition optimizer_builder (name : option string) (rate : option Q) :=
  sample_builder (sample_params (Some unet_config) None name rate (Some "zeros") 4 1 2).

Definition unet_params : Params :=
  sample_params (Some unet_config) None None None (Some "zeros") 4 1 2.
Definition unet_builder : EstimatorSpecBuilder := sample_builder unet_params.
Definition default_model_builder : EstimatorSpecBuilder :=
  sample_builder (sample_params None None None None (Some "zeros") 4 1 2).

Definition extension_builder (extension : string) : EstimatorSpecBuilder :=
  sample_builder (sample_params (Some unet_config) None None None (Some extension) 4 1 2).

(** Output dictionaries of shape (1, 2, 2, 1): one silent, one not. *)
Definition silent_outputs : gmap string (tensor Q) :=
  {[ "vocals_spectrogram" := zeros [1; 2; 2; 1]%nat;
     "accompaniment_spectrogram" := zeros [1; 2; 2; 1]%nat ]}.

Definition sample_outputs : gmap string (tensor Q) :=
  {[ "vocals_spectrogram" := sample_spectrogram;
     "accompaniment_spectrogram" := tscale sample_spectrogram (1 # 2) ]}.

(** Estimates in float32, of shape (1, 2, 2, 1) and the same at every
    cell: silence; 1e20 beside silence; 1e20 twice; 2^127, the largest
    power of two, twice; and -1 beside 1. *)
Definition constant {A} (s : list nat) (x : A) : tensor A := Tensor s (λ _, x).

Definition estimates (vocals accompaniment : float32) : gmap string (tensor float32) :=
  {[ "vocals_spectrogram" := constant [1; 2; 2; 1]%nat vocals;
     "accompaniment_spectrogram" := constant [1; 2; 2; 1]%nat accompaniment ]}.

Definition silent_estimates := estimates (S754_zero false) (S754_zero false).
Definition overflowing_estimates :=
  estimates (float32_of_Z (10 ^ 20)) (S754_zero false).
Definition huge_estimates :=
  estimates (float32_of_Z (10 ^ 20)) (float32_of_Z (10 ^ 20)).
Definition loud_estimates :=
  estimates (float32_of_Z (2 ^ 127)) (float32_of_Z (2 ^ 127)).
Definition signed_estimates := estimates (float32_of_Z (-1)) (float32_of_Z 1).

Section float32_examples.
#[local] Instance multiplied : Arithmetic float32 := ieee float32_pow.

(** The masks of the two instruments at the first cell. *)
Definition masks_at_origin (p : Z) (output_dict : gmap string (tensor float32))
    : result (list float32) :=
  output_sum ← ratio_output_sum (py_float EPSILON) p output_dict;
  masks ← mapM (instrument_mask (py_float EPSILON) p output_dict output_sum)
               ["vocals"; "accompaniment"];
  mret ((λ m, data m [0; 0; 0; 0]%nat) <$> masks).

(** The specification of the ratio mask that the code does not meet in
    float32: the mask is a number and strictly positive at every cell,
    here even for estimates that are numbers and not negative and for an
    exponent of at least 1. *)
Definition ratio_mask_finite_positive : Prop :=
  ∀ p (output_dict : gmap string (tensor float32)) s instrument output_sum mask idx,
    (1 ≤ p)%Z →
    (∀ k v, output_dict !! k = Some v →
       shape v = s ∧ is_finite (data v idx) = true
       ∧ SFleb (S754_zero false) (data v idx) = true) →
    in_bounds s idx →
    ratio_output_sum (py_float EPSILON) p output_dict = Ok output_sum →
    instrument_mask (py_float EPSILON) p output_dict output_sum instrument = Ok mask →
    is_finite (data mask idx) = true ∧ is_positive (data mask idx) = true.

(** The specification of the sum of the masks that the code does not meet
    in float32: for estimates that are numbers and strictly positive, the
    masks of the instruments add up to a number within 1/2 of 1. *)
Definition ratio_masks_sum_near_one : Prop :=
  ∀ p (instruments : list string) (output_dict : gmap string (tensor float32))
    s idx output_sum masks,
    (1 ≤ p)%Z → NoDup instruments →
    dom output_dict = list_to_set ((λ i, i +:+ "_spectrogram") <$> instruments) →
    (∀ k v, output_dict !! k = Some v →
       shape v = s ∧ is_finite (data v idx) = true
       ∧ is_positive (data v idx) = true) →
    in_bounds s idx →
    ratio_output_sum (py_float EPSILON) p output_dict = Ok output_sum →
    mapM (instrument_mask (py_float EPSILON) p output_dict output_sum) instruments
    = Ok masks →
    ∃ total, float_value (sum_list ((λ m, data m idx) <$> masks)) = Some total
      ∧ Qabs (total - 1) <= 1 # 2.
End float32_examples.

Definition loss_builder (loss_type : option string) : EstimatorSpecBuilder :=
  sample_builder (sample_params (Some unet_config) loss_type None None (Some "zeros") 4 1 2).

(** What the development assumes of [inverse_stft]: from [frames] frames
    per channel, overlap-add returns [overlap_add_length] samples per
    channel. *)
Definition overlap_add_contract `{Backend} : Prop :=
  ∀ t frame_length frame_step window_fn c frames bins,
    shape t = [c; frames; bins] →
    (0 < frames)%nat → (0 < frame_length)%Z → (0 < frame_step)%Z →
    ∃ inversed, inverse_stft t frame_length frame_step window_fn = Ok inversed
      ∧ shape inversed = [c; overlap_add_length frames frame_length frame_step].

(** The number of frames of a forward transform with [pad_end]:
    [ceil(n / frame_step)]. *)
Definition forward_frames (n : nat) (frame_step : Z) : nat :=
  Z.to_nat (- ((- Z.of_nat n) `div` frame_step)).

(** The specification of the inverse transform that the code does not
    meet: whatever transform it is given, the waveform it returns has the
    shape of the input waveform. *)
Definition inverse_stft_restores_shape : Prop :=
  ∀ (backend : Backend) self stft features wave w,
    @overlap_add_contract backend →
    features !! "waveform" = Some (FReal wave) →
    (@_inverse_stft backend self stft features).1 = Ok w →
    shape w = shape wave.

(** Frames of length 4 every 8 samples: a waveform of 16 samples has 2. *)
Definition sparse_builder : EstimatorSpecBuilder :=
  sample_builder (sample_params (Some unet_config) None None None (Some "zeros") 4 8 2).
Definition sparse_stft : tensor complex := zero_complex [2; 3; 1]%nat.
Definition sparse_features : gmap string feature :=
  {[ "waveform" := FReal (zeros [16; 1]%nat) ]}.

(** Frames of length 4 every sample: a waveform of 5 samples has 5. *)
Definition dense_stft : tensor complex := zero_complex [5; 3; 1]%nat.
Definition short_stft : tensor complex := zero_complex [1; 3; 1]%nat.
Definition dense_features : gmap string feature :=
  {[ "waveform" := FReal (zeros [5; 1]%nat) ]}.

(** A computation that reads the features and never writes them. *)
Definition read_only {A} (m : M A) : Prop := ∀ fs, (m fs).2 = fs.

(** What the development assumes of the forward transform with [pad_end]:
    [forward_frames] frames per channel, each of [fft_length // 2 + 1]
    bins, where [fft_length] is the power of two that encloses the frame
    length. *)
Definition stft_contract `{Backend} : Prop :=
  ∀ t frame_length frame_step window_fn c n,
    shape t = [c; n] → (0 < frame_length)%Z → (0 < frame_step)%Z →
    ∃ frames, stft t frame_length frame_step window_fn true = Ok frames
      ∧ shape frames = [c; forward_frames n frame_step;
                        fft_unique_bins frame_length].

(** What the development assumes of [pad_and_partition]: the first axis is
    padded and cut into segments of [segment_len] frames. *)
Definition partition_contract `{Backend} : Prop :=
  ∀ t segment_len frames rest,
    shape t = frames :: rest → (0 < segment_len)%Z →
    ∃ segments nb, pad_and_partition t segment_len = Ok segments
      ∧ shape segments = nb :: Z.to_nat segment_len :: rest
      ∧ (frames ≤ nb * Z.to_nat segment_len)%nat.

(** What the development assumes of a model function: one estimate per
    instrument, each of the shape of the mix spectrogram. *)
Definition model_contract (apply_model : model_function)
    (instruments : list string) (model_params : pyval) : Prop :=
  ∀ input, ∃ output_dict,
    apply_model input instruments model_params = Ok output_dict
    ∧ (∀ k v, output_dict !! k = Some v → shape v = shape input)
    ∧ (∀ instrument, instrument ∈ instruments →
         is_Some (output_dict !! (instrument +:+ "_spectrogram"))).

(** [silent_backend] with a [pad_and_partition] that pads with silence. *)
Definition framing_backend : Backend := {|
  stft := @stft silent_backend;
  inverse_stft := @inverse_stft silent_backend;
  complex_abs := @complex_abs silent_backend;
  pad_and_partition := λ t segment_len,
    match shape t with
    | frames :: rest =>
        let len := Z.to_nat segment_len in
        Ok (Tensor (Z.to_nat (- ((- Z.of_nat frames) `div` segment_len)) :: len :: rest)
                   (λ idx, match idx with
                           | i :: j :: r =>
                               if (i * len + j <? frames)%nat
                               then data t ((i * len + j)%nat :: r) else (0, 0)
                           | _ => (0, 0)
                           end))
    | [] => Raise (TFError "pad_and_partition")
    end;
  pad_and_reshape := @pad_and_reshape silent_backend;
  wiener := @wiener silent_backend;
  importable := @importable silent_backend;
  broken := @broken silent_backend;
  minimize := @minimize silent_backend
|}.

Definition predict_features : gmap string feature :=
  {[ "waveform" := FReal (zeros [5; 1]%nat); "audio_id" := FValue (PStr "track") ]}.

Definition manual_features : gmap string feature :=
  {[ "mix_stft" := FComplex (zero_complex [2; 3; 1]%nat);
     "waveform" := FReal (zeros [5; 1]%nat) ]}.

(** A computation that writes no feature outside [keys]. *)
Definition writes_only {A} (keys : list string) (m : M A) : Prop :=
  ∀ fs k, k ∉ keys → (m fs).2 !! k = fs !! k.

(** A configuration with no key at all. *)
Definition empty_params : Params := {|
  mix_name := None; instrument_list := None; n_channels := None; T := None;
  F := None; frame_length := None; frame_step := None; model := None;
  loss_type := None; optimizer := None; learning_rate := None; MWF := None;
  mask_extension := None; separation_exponent := None
|}.

Definition half_mask : tensor Q := Tensor [1; 2; 2; 1]%nat (λ _, 1 # 2).

(** A band of 5 bins where the transform has 3, and no extension policy. *)
Definition wide_builder : EstimatorSpecBuilder :=
  sample_builder (sample_params (Some unet_config) None None None (Some "zeros") 4 1 5).
Definition no_extension_builder : EstimatorSpecBuilder :=
  sample_builder (sample_params (Some unet_config) None None None None 4 1 2).

(** Frames of length 6, transformed with a Fourier transform of length 8. *)
Definition long_frame_builder : EstimatorSpecBuilder :=
  sample_builder (sample_params (Some unet_config) None None None (Some "zeros") 6 1 2).

(** A function that [unet] does not define, and a model without
    parameters. *)
Definition softmax_builder : EstimatorSpecBuilder :=
  sample_builder (sample_params (Some (ModelConfig (Some "unet.softmax_unet")
                                                   (Some (PDict []))))
                                None None None (Some "zeros") 4 1 2).
Definition no_model_params_builder : EstimatorSpecBuilder :=
  sample_builder (sample_params (Some (ModelConfig (Some "unet.unet") None))
                                None None None (Some "zeros") 4 1 2).

(** Outputs of two shapes. *)
Definition ragged_outputs : gmap string (tensor Q) :=
  {[ "vocals_spectrogram" := zeros [1; 2; 2; 1]%nat;
     "accompaniment_spectrogram" := zeros [1; 2; 3; 1]%nat ]}.
Definition accompaniment_only : gmap string (tensor Q) :=
  {[ "accompaniment_spectrogram" := zeros [1; 2; 2; 1]%nat ]}.

(** ** tensorflow.contrib.signal in exact arithmetic *)

(** [cos(2 pi k / 4)] and [sin(2 pi k / 4)]. *)
Definition quarter_cos (k : Z) : Q :=
  match (k `mod` 4)%Z with 0%Z => 1 | 2%Z => -1 | _ => 0 end.
Definition quarter_sin (k : Z) : Q :=
  match (k `mod` 4)%Z with 1%Z => 1 | 3%Z => -1 | _ => 0 end.

(** [cos(2 pi k / n)] and [sin(2 pi k / n)] as functions of [k], for the
    [n] at which every value is rational: 1, 2 and 4. *)
Definition cos_turn (n : Z) : option (Z → Q) :=
  if decide (n = 1)%Z then Some (λ _, 1)
  else if decide (n = 2)%Z then Some (λ k, if Z.even k then 1 else -1)
  else if decide (n = 4)%Z then Some quarter_cos
  else None.

Definition sin_turn (n : Z) : option (Z → Q) :=
  if decide (n = 1)%Z then Some (λ _, 0)
  else if decide (n = 2)%Z then Some (λ _, 0)
  else if decide (n = 4)%Z then Some quarter_sin
  else None.

(** The values of a window: [hann_window] is the raised cosine
    [0.5 - 0.5 cos(2 pi k / n)], with [n] the window length when the
    window is periodic and of even length and one less otherwise; a
    window of length 1 is 1. *)
Definition window_values (w : window) : option (nat → Q) :=
  match w with
  | hann_window window_length periodic =>
      if decide (window_length = 1)%Z then Some (λ _, 1)
      else
        let even := if Z.even window_length then 1%Z else 0%Z in
        let n := (window_length + (if periodic then even else 0) - 1)%Z in
        cos ← cos_turn n;
        Some (λ k, (1 # 2) - (1 # 2) * cos (Z.of_nat k))
  end.

(** [shape_ops.frame]: the number of frames of [n] samples. *)
Definition frame_count (n : nat) (frame_length frame_step : Z) (pad_end : bool) : nat :=
  if pad_end then forward_frames n frame_step
  else Z.to_nat (Z.max 0 (1 + (Z.of_nat n - frame_length) `div` frame_step)).

(** The real Fourier transform of a frame at the bin [k], and the inverse
    transform of the bins 0 to [fft_length // 2] at the sample [j], where
    the bins between the first and the last count twice, for their
    conjugates. *)
Definition rfft (frame_length : Z) (cos sin : Z → Q) (frame : nat → Q) (k : nat)
    : complex :=
  (qsum_n (Z.to_nat frame_length) (λ j, frame j * cos (Z.of_nat (j * k))),
   - qsum_n (Z.to_nat frame_length) (λ j, frame j * sin (Z.of_nat (j * k)))).

Definition irfft (fft_length : Z) (cos sin : Z → Q) (bin : nat → complex) (j : nat)
    : Q :=
  let half := Z.to_nat (fft_length `div` 2) in
  qsum_n (S half)
    (λ k, (if bool_decide (k = 0%nat ∨ k = half) then 1 else 2)
          * (fst (bin k) * cos (Z.of_nat (j * k))
             - snd (bin k) * sin (Z.of_nat (j * k))))
  / inject_Z fft_length.

(** [stft(signals, frame_length, frame_step, window_fn=window_fn,
    pad_end=pad_end)] on signals of shape (channels, samples): the signal
    is cut into frames, padded with zeros at the end, and every frame is
    multiplied by the window and transformed.  The length of the
    transform encloses the frame length.  The transform is embedded where
    its coefficients are rational, and raises elsewhere. *)
Definition tf_stft (signals : tensor Q) (frame_length frame_step : Z)
    (window_fn : Z → window) (pad_end : bool) : result (tensor complex) :=
  let fft_length := enclosing_power_of_two frame_length in
  match shape signals, window_values (window_fn frame_length),
        cos_turn fft_length, sin_turn fft_length with
  | [c; n], Some window, Some cos, Some sin =>
      if bool_decide (0 < frame_length ∧ 0 < frame_step)%Z then
        let frame ch f j :=
          let t := (f * Z.to_nat frame_step + j)%nat in
          window j * (if (t <? n)%nat then data signals [ch; t] else 0) in
        Ok (Tensor [c; frame_count n frame_length frame_step pad_end;
                    fft_unique_bins frame_length]
                   (λ idx, match idx with
                           | [ch; f; k] => rfft frame_length cos sin (frame ch f) k
                           | _ => (0, 0)
                           end))
      else Raise (TFError "stft")
  | _, _, _, _ => Raise (TFError "stft")
  end.

(** [inverse_stft(stfts, frame_length, frame_step, window_fn=window_fn)]
    on transforms of shape (channels, frames, bins): every frame is
    transformed back, cut to the frame length and multiplied by the
    window, and the frames are added where they overlap. *)
Definition tf_inverse_stft (stfts : tensor complex) (frame_length frame_step : Z)
    (window_fn : Z → window) : result (tensor Q) :=
  let fft_length := enclosing_power_of_two frame_length in
  match shape stfts, window_values (window_fn frame_length),
        cos_turn fft_length, sin_turn fft_length with
  | [c; frames; bins], Some window, Some cos, Some sin =>
      if bool_decide (0 < frame_length ∧ 0 < frame_step)%Z then
        let bin ch f k :=
          if (k <? bins)%nat then data stfts [ch; f; k] else (0, 0) in
        let real_frame ch f j := window j * irfft fft_length cos sin (bin ch f) j in
        Ok (Tensor [c; overlap_add_length frames frame_length frame_step]
                   (λ idx, match idx with
                           | [ch; t] =>
                               qsum_n frames
                                 (λ f, let start := (f * Z.to_nat frame_step)%nat in
                                       if (start <=? t)%nat
                                          && (t <? start + Z.to_nat frame_length)%nat
                                       then real_frame ch f (t - start)%nat else 0)
                           | _ => 0
                           end))
      else Raise (TFError "inverse_stft")
  | _, _, _, _ => Raise (TFError "inverse_stft")
  end.

(** [framing_backend] with these transforms. *)
Definition exact_signal : Backend := {|
  stft := tf_stft;
  inverse_stft := tf_inverse_stft;
  complex_abs := @complex_abs framing_backend;
  pad_and_partition := @pad_and_partition framing_backend;
  pad_and_reshape := @pad_and_reshape framing_backend;
  wiener := @wiener framing_backend;
  importable := @importable framing_backend;
  broken := @broken framing_backend;
  minimize := @minimize framing_backend
|}.

(** A backend whose transforms are those of the library. *)
Definition library_transforms `{Backend} : Prop :=
  (∀ signals frame_length frame_step window_fn pad_end,
     stft signals frame_length frame_step window_fn pad_end
     = tf_stft signals frame_length frame_step window_fn pad_end)
  ∧ (∀ stfts frame_length frame_step window_fn,
       inverse_stft stfts frame_length frame_step window_fn
       = tf_inverse_stft stfts frame_length frame_step window_fn).

(** The forward transform: the first statement of [_build_stft_feature]. *)
Definition forward_transform `{Backend} (self : EstimatorSpecBuilder)
    (waveform : tensor Q) : result (tensor complex) :=
  frames ← stft (transpose waveform) (_frame_length self) (_frame_step self)
                periodic_hann true;
  transpose_perm frames [1; 2; 0]%nat.

(** The periodic Hann window of length 4, and the sum of the squares of
    the window values that [frames] frames of length 4, [frame_step]
    apart, lay over the sample [t]. *)
Definition hann4 (j : nat) : Q := (1 # 2) - (1 # 2) * quarter_cos (Z.of_nat j).

Definition overlap_gain (frames : nat) (frame_step : Z) (t : nat) : Q :=
  qsum_n frames
    (λ f, let start := (f * Z.to_nat frame_step)%nat in
          if (start <=? t)%nat && (t <? start + 4)%nat
          then hann4 (t - start) * hann4 (t - start) else 0).

(** The frame [f] of the channel [ch] of a waveform of [n] samples, padded
    with zeros and multiplied by the window. *)
Definition windowed_frame (frame_step : Z) (wave : tensor Q) (n ch f j : nat) : Q :=
  hann4 j * (if (f * Z.to_nat frame_step + j <? n)%nat
             then data wave [(f * Z.to_nat frame_step + j)%nat; ch] else 0).

(** What the round trip keeps of a sample, for frames of length 4 every
    sample: nothing of the first, a sixth of the second, five sixths of
    the third, and all of every other. *)
Definition head_gain (t : nat) : Q :=
  match t with
  | 0%nat => 0
  | 1%nat => 1 # 6
  | 2%nat => 5 # 6
  | _ => 1
  end.

Definition ones (s : list nat) : tensor Q := Tensor s (λ _, 1).

(** Frames of length 4 every 2 samples. *)
Definition half_overlap_builder : EstimatorSpecBuilder :=
  sample_builder (sample_params (Some unet_config) None None None (Some "zeros") 4 2 2).

Definition steady_features : gmap string feature :=
  {[ "waveform" := FReal (ones [8; 1]%nat) ]}.

(** The specification of the round trip that the code does not meet: with
    the transforms of the library and frames that overlap, a sample that
    is at least a frame away from the end of the waveform comes back
    within half of its value. *)
Definition round_trip_up_to_tail : Prop :=
  ∀ (self : EstimatorSpecBuilder) features wave n c stft_feature w,
    features !! "waveform" = Some (FReal wave) → shape wave = [n; c] →
    (0 < _frame_step self < _frame_length self)%Z →
    @forward_transform exact_signal self wave = Ok stft_feature →
    (@_inverse_stft exact_signal self stft_feature features).1 = Ok w →
    ∀ t ch, (t + Z.to_nat (_frame_length self) ≤ n)%nat → (ch < c)%nat →
      Qabs (data w [t; ch] - data wave [t; ch])
      <= (1 # 2) * Qabs (data wave [t; ch]).

(** * Optimizer selection *)

Section optimizer_selection.
Variable self : EstimatorSpecBuilder.

Lemma build_optimizer_adadelta :
  optimizer (_params self) = Some ADADELTA →
  _build_optimizer self = Ok AdadeltaOptimizer.
Proof. intros Hname. unfold _build_optimizer. by rewrite decide_True. Qed.

Lemma build_optimizer_sgd rate :
  optimizer (_params self) = Some SGD →
  learning_rate (_params self) = Some rate →
  _build_optimizer self = Ok (GradientDescentOptimizer rate).
Proof.
  intros Hname Hrate. unfold _build_optimizer.
  rewrite decide_False by (rewrite Hname; discriminate).
  rewrite Hrate. simpl. by rewrite decide_True.
Qed.

Lemma build_optimizer_adam rate :
  optimizer (_params self) ≠ Some ADADELTA →
  optimizer (_params self) ≠ Some SGD →
  learning_rate (_params self) = Some rate →
  _build_optimizer self = Ok (AdamOptimizer rate).
Proof.
  intros Hna Hns Hrate. unfold _build_optimizer.
  rewrite decide_False by done. rewrite Hrate. simpl.
  by rewrite decide_False.
Qed.
End optimizer_selection.

(** C7. ADADELTA gives an Adadelta optimizer whether or not a learning rate
    is configured; SGD gives gradient descent with the configured learning
    rate; any other optimizer name, an absent one included, gives ADAM with
    the configured learning rate. *)
Theorem build_optimizer_selection (self : EstimatorSpecBuilder) :
  (optimizer (_params self) = Some ADADELTA →
   _build_optimizer self = Ok AdadeltaOptimizer)
  ∧ (∀ rate, optimizer (_params self) = Some SGD →
       learning_rate (_params self) = Some rate →
       _build_optimizer self = Ok (GradientDescentOptimizer rate))
  ∧ (∀ rate, optimizer (_params self) ≠ Some ADADELTA →
       optimizer (_params self) ≠ Some SGD →
       learning_rate (_params self) = Some rate →
       _build_optimizer self = Ok (AdamOptimizer rate)).
Proof.
  split; [|split].
  - apply build_optimizer_adadelta.
  - intros rate. apply build_optimizer_sgd.
  - intros rate. apply build_optimizer_adam.
Qed.

Lemma build_optimizer_selection_witness :
  _build_optimizer (optimizer_builder (Some "Adadelta") None) = Ok AdadeltaOptimizer
  ∧ _build_optimizer (optimizer_builder (Some "SGD") (Some (1 # 100)))
    = Ok (GradientDescentOptimizer (1 # 100))
  ∧ _build_optimizer (optimizer_builder None (Some (1 # 1000)))
    = Ok (AdamOptimizer (1 # 1000))
  ∧ _build_optimizer (optimizer_builder (Some "RMSProp") (Some (1 # 1000)))
    = Ok (AdamOptimizer (1 # 1000)).
Proof.
  split; [|split; [|split]].
  - apply (proj1 (build_optimizer_selection _)). reflexivity.
  - apply (proj1 (proj2 (build_optimizer_selection _))); reflexivity.
  - apply (proj2 (proj2 (build_optimizer_selection _))); [discriminate | discriminate | reflexivity].
  - apply (proj2 (proj2 (build_optimizer_selection _))); [discriminate | discriminate | reflexivity].
Defined.

(** * Model resolution and the output dictionary *)

Section model_resolution.
Context `{Backend}.

Example path_to_module_unet : path_to_module "unet.unet" = "spleeter.model.functions.unet".
Proof. reflexivity. Qed.

Example path_to_module_nested :
  path_to_module "blstm.v2.blstm" = "spleeter.model.functions.blstm.v2"
  ∧ model_name "blstm.v2.blstm" = "blstm".
Proof. split; reflexivity. Qed.

Lemma get_model_function_unfold model_type :
  get_model_function model_type
  = (module ← import_module (path_to_module model_type);
     getattr module (model_name model_type)).
Proof. reflexivity. Qed.

Lemma import_module_not_located path :
  ¬ located path → import_module path = Raise (ModuleNotFoundError path).
Proof.
  intros Hnot. unfold import_module.
  destruct (importable !! path) as [module|] eqn:Hm.
  - exfalso. apply Hnot. left. by eexists.
  - destruct (broken !! path) as [e|] eqn:Hb; [|done].
    exfalso. apply Hnot. right. by eexists.
Qed.

Lemma resolve_model_not_found model_type missing :
  import_module (path_to_module model_type) = Raise (ModuleNotFoundError missing) →
  resolve_model model_type
  = Raise (ValueError ("No model function " +:+ model_type +:+ " found")).
Proof.
  intros Hraise. unfold resolve_model. rewrite get_model_function_unfold.
  by rewrite Hraise.
Qed.

Lemma resolve_model_passes_on model_type e :
  import_module (path_to_module model_type) = Raise e →
  (∀ missing, e ≠ ModuleNotFoundError missing) →
  resolve_model model_type = Raise e.
Proof.
  intros Hraise He. unfold resolve_model. rewrite get_model_function_unfold.
  rewrite Hraise. simpl. destruct e; try done. by destruct (He name).
Qed.

Lemma resolve_model_found model_type module :
  importable !! path_to_module model_type = Some module →
  resolve_model model_type = getattr module (model_name model_type).
Proof.
  intros Hsome. unfold resolve_model. rewrite get_model_function_unfold.
  unfold import_module. rewrite Hsome. simpl.
  unfold getattr. by destruct (module !! model_name model_type).
Qed.

Lemma resolve_model_imported model_type module msg :
  importable !! path_to_module model_type = Some module →
  resolve_model model_type ≠ Raise (ValueError msg).
Proof.
  intros Hm. rewrite (resolve_model_found _ _ Hm). unfold getattr.
  by destruct (module !! model_name model_type).
Qed.

Lemma build_output_dict_applies self features input cfg mp
    (apply_model : model_function) :
  features !! (_mix_name self +:+ "_spectrogram") = Some (FReal input) →
  model (_params self) = Some cfg →
  model_params cfg = Some mp →
  resolve_model (default DEFAULT_MODEL (model_type cfg)) = Ok apply_model →
  _build_output_dict self features
  = (apply_model input (_instruments self) mp, features).
Proof.
  intros Hin Hcfg Hmp Hres. unfold _build_output_dict, get_feature, getitem.
  unfold mbind at 1, M_bind. rewrite Hin, Hcfg. simpl.
  unfold mbind, M_bind, lift. rewrite Hres, Hmp. reflexivity.
Qed.

Lemma build_output_dict_no_model self features :
  model (_params self) = None →
  ∃ e, (_build_output_dict self features).1 = Raise e.
Proof.
  intros Hcfg. unfold _build_output_dict, get_feature.
  unfold mbind at 1, M_bind.
  destruct (getitem features _) as [input|e]; [|by eexists].
  rewrite Hcfg. unfold mbind at 1, M_bind, lift.
  destruct (resolve_model DEFAULT_MODEL) as [f|e]; [|by eexists].
  simpl. by eexists.
Qed.
End model_resolution.

(** C8. Resolution raises the error with the message
    "No model function <name> found" whenever the import of the submodule
    raises [ModuleNotFoundError]: when the submodule cannot be located, and
    also when it is located and a module that it imports is missing.  Any
    other exception of the import is passed on as it is, and after a
    successful import that error is not raised.  When the import succeeds
    and the module holds the model function, building the output
    dictionary applies that function to the mix spectrogram, the
    instrument list and the model parameters. *)
Theorem model_resolution_spec `{Backend} (name : string) :
  let not_found := ValueError ("No model function " +:+ name +:+ " found") in
  (∀ missing,
     import_module (path_to_module name) = Raise (ModuleNotFoundError missing) →
     resolve_model name = Raise not_found)
  ∧ (¬ located (path_to_module name) → resolve_model name = Raise not_found)
  ∧ (∀ e, import_module (path_to_module name) = Raise e →
          (∀ missing, e ≠ ModuleNotFoundError missing) →
          resolve_model name = Raise e)
  ∧ (∀ module, importable !! path_to_module name = Some module →
               resolve_model name ≠ Raise not_found)
  ∧ (∀ self features input cfg mp module (apply_model : model_function),
       importable !! path_to_module name = Some module →
       module !! model_name name = Some apply_model →
       features !! (_mix_name self +:+ "_spectrogram") = Some (FReal input) →
       model (_params self) = Some cfg →
       default DEFAULT_MODEL (model_type cfg) = name →
       model_params cfg = Some mp →
       _build_output_dict self features
       = (apply_model input (_instruments self) mp, features)).
Proof.
  intros not_found. split; [|split; [|split; [|split]]].
  - intros missing. apply resolve_model_not_found.
  - intros Hnot. apply (resolve_model_not_found _ (path_to_module name)).
    by apply import_module_not_located.
  - apply resolve_model_passes_on.
  - intros module Hmod. by apply (resolve_model_imported _ module).
  - intros self features input cfg mp module apply_model Hmod Hattr Hin Hcfg Hty Hmp.
    apply (build_output_dict_applies _ _ _ cfg); [done..|].
    rewrite Hty, (resolve_model_found _ _ Hmod). unfold getattr. by rewrite Hattr.
Qed.

Lemma model_resolution_spec_witness :
  @resolve_model silent_backend "nonexistent.foo"
    = Raise (ValueError "No model function nonexistent.foo found")
  ∧ @resolve_model missing_dependency_backend "unet.unet"
    = Raise (ValueError "No model function unet.unet found")
  ∧ @resolve_model failing_import_backend "unet.unet"
    = Raise (TypeError "unsupported operand")
  ∧ @_build_output_dict silent_backend unet_builder sample_features
    = (echo_model sample_spectrogram ["vocals"; "accompaniment"] (PDict []),
       sample_features).
Proof.
  split; [|split; [|split]].
  - apply (proj1 (proj2 (@model_resolution_spec silent_backend "nonexistent.foo"))).
    intros [[module Hm]|[e He]]; [discriminate Hm | discriminate He].
  - apply (proj1 (@model_resolution_spec missing_dependency_backend "unet.unet")
             "tensorflow").
    reflexivity.
  - apply (proj1 (proj2 (proj2
             (@model_resolution_spec failing_import_backend "unet.unet"))));
      [reflexivity | discriminate].
  - apply (proj2 (proj2 (proj2 (proj2 (@model_resolution_spec silent_backend "unet.unet")))))
      with (cfg := unet_config) (module := {[ "unet" := echo_model ]});
      reflexivity.
Defined.

(** C8 as the specification states it fails: the [unet] submodule is
    located, the import of TensorFlow inside it is not, and resolution
    raises the error that the specification reserves for a submodule that
    cannot be located. *)
Lemma model_resolution_located_not_imported :
  @located missing_dependency_backend (path_to_module "unet.unet")
  ∧ @resolve_model missing_dependency_backend "unet.unet"
    = Raise (ValueError "No model function unet.unet found")
  ∧ ¬ not_found_iff_not_located.
Proof.
  assert (@located missing_dependency_backend (path_to_module "unet.unet")) as Hloc.
  { right. by eexists. }
  split; [exact Hloc|]. split; [reflexivity|].
  intros Hiff.
  by apply (proj1 (Hiff missing_dependency_backend "unet.unet") eq_refl).
Qed.

(** C10. With the [model] key omitted the default model type is resolved,
    but the output dictionary is not built: reading the model parameters
    raises [KeyError]. *)
Theorem build_output_dict_default_model `{Backend} self features input
    (apply_model : model_function) :
  model (_params self) = None →
  features !! (_mix_name self +:+ "_spectrogram") = Some (FReal input) →
  resolve_model DEFAULT_MODEL = Ok apply_model →
  _build_output_dict self features = (Raise (KeyError "model"), features).
Proof.
  intros Hcfg Hin Hres. unfold _build_output_dict, get_feature, getitem.
  unfold mbind at 1, M_bind. rewrite Hin, Hcfg. simpl.
  unfold mbind, M_bind, lift. by rewrite Hres.
Qed.

Lemma build_output_dict_default_model_witness :
  @_build_output_dict silent_backend default_model_builder sample_features
  = (Raise (KeyError "model"), sample_features).
Proof.
  apply (@build_output_dict_default_model silent_backend default_model_builder
           sample_features sample_spectrogram echo_model); reflexivity.
Defined.

(** * Mode dispatch *)

(** C9. With the required keys configured, a mode other than PREDICT, EVAL
    and TRAIN raises the "Unknown mode" error and leaves the features
    untouched; the three modes run the predict, the evaluation and the
    train builder. *)
Theorem model_fn_dispatch `{Backend} labels mode' params config builder features :
  __init__ params = Ok builder →
  (mode' = PREDICT →
   model_fn labels mode' params config features = build_predict_model builder features)
  ∧ (mode' = EVAL →
     model_fn labels mode' params config features
     = build_evaluation_model builder labels features)
  ∧ (mode' = TRAIN →
     model_fn labels mode' params config features
     = build_train_model builder labels features)
  ∧ (mode' ≠ PREDICT → mode' ≠ EVAL → mode' ≠ TRAIN →
     model_fn labels mode' params config features
     = (Raise (ValueError ("Unknown mode " +:+ mode')), features)).
Proof.
  intros Hinit. unfold model_fn, mbind, M_bind, lift. rewrite Hinit.
  split; [|split; [|split]].
  - intros ->. reflexivity.
  - intros ->. reflexivity.
  - intros ->. reflexivity.
  - intros Hp He Ht. by rewrite !decide_False.
Qed.

Lemma model_fn_dispatch_witness :
  @model_fn silent_backend ∅ "predict" unet_params PNone sample_features
  = (Raise (ValueError "Unknown mode predict"), sample_features)
  ∧ @model_fn silent_backend ∅ "eval" unet_params PNone sample_features
    = @build_evaluation_model silent_backend unet_builder ∅ sample_features.
Proof.
  split.
  - apply (@model_fn_dispatch silent_backend ∅ "predict" unet_params PNone unet_builder);
      [reflexivity | discriminate..].
  - apply (@model_fn_dispatch silent_backend ∅ "eval" unet_params PNone unet_builder);
      reflexivity.
Defined.

(** * Mask extension *)

Section mask_extension.
Variable self : EstimatorSpecBuilder.
Variables (mask : tensor Q) (B T' Fw C : nat).
Hypothesis Hshape : shape mask = [B; T'; Fw; C].
Hypothesis HF : _F self = Z.of_nat Fw.
Hypothesis Hwidth : (Z.of_nat Fw ≤ _frame_length self `div` 2 + 1)%Z.

Lemma extend_mask_average :
  mask_extension (_params self) = Some "average" →
  ∃ m, _extend_mask self mask = Ok m
    ∧ shape m = [B; T'; Z.to_nat (_frame_length self `div` 2 + 1); C]
    ∧ ∀ b t f c, (b < B)%nat → (t < T')%nat → (c < C)%nat →
        ((f < Fw)%nat → data m [b; t; f; c] = data mask [b; t; f; c])
        ∧ ((Fw ≤ f)%nat →
           data m [b; t; f; c]
           == qsum_n Fw (λ k, data mask [b; t; k; c]) / Qnat Fw).
Proof.
  intros Hext. destruct mask as [s d]. simpl in Hshape. subst s.
  unfold _extend_mask. rewrite Hext. simpl.
  unfold reduce_mean_axes. simpl. unfold tile. simpl.
  rewrite bool_decide_eq_true_2.
  2:{ split; [done|]. repeat constructor; lia. }
  simpl. unfold concat2. simpl.
  rewrite bool_decide_eq_true_2.
  2:{ change (Z.to_nat 1) with 1%nat. by rewrite !Nat.mul_1_r. }
  eexists. split; [reflexivity|]. simpl. split.
  { do 2 f_equal. f_equal. lia. }
  intros b t f c Hb Ht Hc. split.
  - intros Hf. apply Nat.ltb_lt in Hf. by rewrite Hf.
  - intros Hf. apply Nat.ltb_ge in Hf. rewrite Hf.
    unfold set_axes. simpl.
    rewrite !Nat.mod_small by done. by rewrite Nat.mul_1_r.
Qed.

Lemma extend_mask_zeros :
  mask_extension (_params self) = Some "zeros" →
  ∃ m, _extend_mask self mask = Ok m
    ∧ shape m = [B; T'; Z.to_nat (_frame_length self `div` 2 + 1); C]
    ∧ ∀ b t f c,
        ((f < Fw)%nat → data m [b; t; f; c] = data mask [b; t; f; c])
        ∧ ((Fw ≤ f)%nat → data m [b; t; f; c] = 0).
Proof.
  intros Hext. destruct mask as [s d]. simpl in Hshape. subst s.
  unfold _extend_mask. rewrite Hext. simpl.
  unfold tile. simpl.
  rewrite bool_decide_eq_true_2.
  2:{ split; [done|]. repeat constructor; lia. }
  simpl. unfold concat2. simpl.
  rewrite bool_decide_eq_true_2.
  2:{ change (Z.to_nat 1) with 1%nat. by rewrite !Nat.mul_1_r. }
  eexists. split; [reflexivity|]. simpl. split.
  { do 2 f_equal. f_equal. lia. }
  intros b t f c. split.
  - intros Hf. apply Nat.ltb_lt in Hf. by rewrite Hf.
  - intros Hf. apply Nat.ltb_ge in Hf. by rewrite Hf.
Qed.
End mask_extension.

Lemma extend_mask_invalid self mask extension :
  mask_extension (_params self) = Some extension →
  extension ≠ "average" → extension ≠ "zeros" →
  _extend_mask self mask
  = Raise (ValueError ("Invalid mask_extension parameter " +:+ extension)).
Proof.
  intros Hext Ha Hz. unfold _extend_mask. rewrite Hext. simpl.
  by rewrite !decide_False.
Qed.

(** C3. A mask of shape (B, T, F, C), with F the configured band and
    0 < F <= frame_length // 2 + 1, is extended to frequency width
    frame_length // 2 + 1 with its first F bins unchanged; under "average"
    every extra bin holds the mean over the F bins of its batch entry, time
    frame and channel, under "zeros" every extra bin is zero; any other
    extension value raises the "Invalid mask_extension parameter" error. *)
Theorem extend_mask_spec (self : EstimatorSpecBuilder) (mask : tensor Q) :
  let width := Z.to_nat (_frame_length self `div` 2 + 1) in
  (∀ B T' Fw C,
     shape mask = [B; T'; Fw; C] → _F self = Z.of_nat Fw → (0 < Fw ≤ width)%nat →
     (mask_extension (_params self) = Some "average" →
      ∃ m, _extend_mask self mask = Ok m ∧ shape m = [B; T'; width; C]
        ∧ ∀ b t f c, (b < B)%nat → (t < T')%nat → (c < C)%nat →
            ((f < Fw)%nat → data m [b; t; f; c] = data mask [b; t; f; c])
            ∧ ((Fw ≤ f < width)%nat →
               data m [b; t; f; c]
               == qsum_n Fw (λ k, data mask [b; t; k; c]) / Qnat Fw))
     ∧ (mask_extension (_params self) = Some "zeros" →
        ∃ m, _extend_mask self mask = Ok m ∧ shape m = [B; T'; width; C]
          ∧ ∀ b t f c, (b < B)%nat → (t < T')%nat → (c < C)%nat →
              ((f < Fw)%nat → data m [b; t; f; c] = data mask [b; t; f; c])
              ∧ ((Fw ≤ f < width)%nat → data m [b; t; f; c] = 0)))
  ∧ (∀ extension,
       mask_extension (_params self) = Some extension →
       extension ≠ "average" → extension ≠ "zeros" →
       _extend_mask self mask
       = Raise (ValueError ("Invalid mask_extension parameter " +:+ extension))).
Proof.
  intros width. split.
  - intros B T' Fw C Hshape HF [Hpos Hle].
    assert (Z.of_nat Fw ≤ _frame_length self `div` 2 + 1)%Z as Hw by (subst width; lia).
    split; intros Hext.
    + destruct (extend_mask_average self mask B T' Fw C Hshape HF Hw Hext)
        as (m & Hm & Hs & Hd).
      exists m. split; [done|]. split; [done|].
      intros b t f c Hb Ht Hc. destruct (Hd b t f c Hb Ht Hc) as [Hlow Hhigh].
      split; [done|]. intros [Hf _]. by apply Hhigh.
    + destruct (extend_mask_zeros self mask B T' Fw C Hshape HF Hw Hext)
        as (m & Hm & Hs & Hd).
      exists m. split; [done|]. split; [done|].
      intros b t f c _ _ _. destruct (Hd b t f c) as [Hlow Hhigh].
      split; [done|]. intros [Hf _]. by apply Hhigh.
  - intros extension. apply extend_mask_invalid.
Qed.

Lemma extend_mask_spec_witness :
  (∃ m, _extend_mask (extension_builder "average") sample_spectrogram = Ok m
     ∧ shape m = [1; 2; 3; 1]%nat
     ∧ data m [0; 1; 1; 0]%nat = 22 ∧ data m [0; 1; 2; 0]%nat == 20)
  ∧ (∃ m, _extend_mask (extension_builder "zeros") sample_spectrogram = Ok m
       ∧ shape m = [1; 2; 3; 1]%nat
       ∧ data m [0; 1; 1; 0]%nat = 22 ∧ data m [0; 1; 2; 0]%nat = 0)
  ∧ _extend_mask (extension_builder "ones") sample_spectrogram
    = Raise (ValueError "Invalid mask_extension parameter ones").
Proof.
  split; [|split].
  - destruct (proj1 (proj1 (extend_mask_spec (extension_builder "average")
                              sample_spectrogram) 1 2 2 1 eq_refl eq_refl
                       ltac:(vm_compute; lia)) eq_refl)%nat as (m & Hm & Hs & Hd).
    exists m. split; [exact Hm|]. split; [exact Hs|].
    destruct (Hd 0 1 1 0 ltac:(lia) ltac:(lia) ltac:(lia))%nat as [Hlow _].
    destruct (Hd 0 1 2 0 ltac:(lia) ltac:(lia) ltac:(lia))%nat as [_ Hhigh].
    split.
    + rewrite Hlow by lia. reflexivity.
    + rewrite Hhigh by (vm_compute; lia). reflexivity.
  - destruct (proj2 (proj1 (extend_mask_spec (extension_builder "zeros")
                              sample_spectrogram) 1 2 2 1 eq_refl eq_refl
                       ltac:(vm_compute; lia)) eq_refl)%nat as (m & Hm & Hs & Hd).
    exists m. split; [exact Hm|]. split; [exact Hs|].
    destruct (Hd 0 1 1 0 ltac:(lia) ltac:(lia) ltac:(lia))%nat as [Hlow _].
    destruct (Hd 0 1 2 0 ltac:(lia) ltac:(lia) ltac:(lia))%nat as [_ Hhigh].
    split.
    + rewrite Hlow by lia. reflexivity.
    + apply Hhigh. vm_compute. lia.
  - apply (proj2 (extend_mask_spec (extension_builder "ones") sample_spectrogram));
      [reflexivity | discriminate | discriminate].
Defined.

(** * Sums and broadcasting *)

Lemma qsum_list_perm (l k : list Q) : l ≡ₚ k → qsum_list l == qsum_list k.
Proof.
  induction 1 as [|x l k _ IH|x y l|l k m _ IH1 _ IH2]; simpl.
  - reflexivity.
  - by rewrite IH.
  - ring.
  - by rewrite IH1.
Qed.

Lemma qsum_list_nonneg (l : list Q) : Forall (λ x, 0 <= x) l → 0 <= qsum_list l.
Proof.
  induction 1 as [|x l Hx _ IH]; simpl; [apply Qle_refl|].
  change 0 with (0 + 0) at 1. by apply Qplus_le_compat.
Qed.

Lemma qsum_list_zero (l : list Q) : Forall (λ x, x == 0) l → qsum_list l == 0.
Proof. induction 1 as [|x l Hx _ IH]; simpl; [reflexivity|]. rewrite Hx, IH. ring. Qed.

Lemma qsum_n_nonneg n (f : nat → Q) :
  (∀ i, (i < n)%nat → 0 <= f i) → 0 <= qsum_n n f.
Proof.
  induction n as [|n IH]; intros Hf; simpl; [apply Qle_refl|].
  change 0 with (0 + 0) at 1. apply Qplus_le_compat; [apply IH|apply Hf]; auto with lia.
Qed.

Lemma qsum_n_zero n (f : nat → Q) :
  (∀ i, (i < n)%nat → f i == 0) → qsum_n n f == 0.
Proof.
  induction n as [|n IH]; intros Hf; simpl; [reflexivity|].
  rewrite IH, Hf by auto with lia. ring.
Qed.

Lemma tsum_nonneg s (f : list nat → Q) :
  (∀ idx, in_bounds s idx → 0 <= f idx) → 0 <= tsum s f.
Proof.
  revert f. induction s as [|d s IH]; intros f Hf; simpl.
  - apply Hf. constructor.
  - apply qsum_n_nonneg. intros i Hi. apply IH. intros idx Hidx.
    apply Hf. by constructor.
Qed.

Lemma tsum_zero s (f : list nat → Q) :
  (∀ idx, in_bounds s idx → f idx == 0) → tsum s f == 0.
Proof.
  revert f. induction s as [|d s IH]; intros f Hf; simpl.
  - apply Hf. constructor.
  - apply qsum_n_zero. intros i Hi. apply IH. intros idx Hidx.
    apply Hf. by constructor.
Qed.

Lemma broadcast_dim_same d : broadcast_dim d d = Some d.
Proof. unfold broadcast_dim. by rewrite decide_True. Qed.

Lemma broadcast_rev_same s : broadcast_rev s s = Some s.
Proof.
  induction s as [|d s IH]; simpl; [done|].
  rewrite broadcast_dim_same. simpl. by rewrite IH.
Qed.

Lemma broadcast_shape_same s : broadcast_shape s s = Some s.
Proof.
  unfold broadcast_shape. rewrite broadcast_rev_same. simpl.
  by rewrite reverse_involutive.
Qed.

Lemma bidx_rev_in_bounds s idx : Forall2 lt idx s → bidx_rev s idx = idx.
Proof.
  induction 1 as [|i d idx s Hi _ IH]; [done|].
  unfold bidx_rev in *. simpl. rewrite IH. f_equal.
  case_decide; lia.
Qed.

Lemma bidx_in_bounds s idx : in_bounds s idx → bidx s idx = idx.
Proof.
  intros Hb. unfold bidx. rewrite bidx_rev_in_bounds.
  - apply reverse_involutive.
  - by apply Forall2_reverse.
Qed.

(** An elementwise operation on two tensors of one shape. *)
Lemma broadcast2_same {A B C} op (f : A → B → C) (a : tensor A) (b : tensor B) s :
  shape a = s → shape b = s →
  ∃ c, broadcast2 op f a b = Ok c ∧ shape c = s
    ∧ ∀ idx, in_bounds s idx → data c idx = f (data a idx) (data b idx).
Proof.
  intros Ha Hb. unfold broadcast2. rewrite Ha, Hb, broadcast_shape_same.
  eexists. split; [reflexivity|]. split; [reflexivity|].
  intros idx Hidx. simpl. by rewrite bidx_in_bounds.
Qed.

(** * The ratio mask *)

Lemma values_elem {V} (d : gmap string V) (P : V → Prop) :
  (∀ k v, d !! k = Some v → P v) → Forall P (values d).
Proof.
  intros HP. apply Forall_forall. intros v Hv. unfold values in Hv.
  apply list_elem_of_fmap in Hv as ([k v'] & -> & Hkv).
  apply elem_of_map_to_list in Hkv. by apply (HP k).
Qed.

Lemma Qnat_pos n : n ≠ 0%nat → 0 < Qnat n.
Proof. intros Hn. unfold Qnat. change 0 with (inject_Z 0). rewrite <- Zlt_Qlt. lia. Qed.

Lemma size_pos {V} (d : gmap string V) k v : d !! k = Some v → 0 < Qnat (size d).
Proof.
  intros Hk. apply Qnat_pos, map_size_non_empty_iff.
  intros ->. by rewrite lookup_empty in Hk.
Qed.

(** The mask in any arithmetic: it is defined when the estimates have one
    shape, it has that shape, and its value at a cell is the quotient of
    the formula. *)
Section ratio_mask.
Context {A : Type} {arith : Arithmetic A}.
Variables (eps : pyfloat) (p : Z) (output_dict : gmap string (tensor A)).
Variable s : list nat.
Hypothesis Hshapes : ∀ k v, output_dict !! k = Some v → shape v = s.

Lemma ratio_output_sum_ok :
  ∃ total, ratio_output_sum eps p output_dict = Ok total
    ∧ (output_dict ≠ ∅ → shape total = s)
    ∧ ∀ idx, data total idx = ratio_denominator eps p output_dict idx.
Proof.
  unfold ratio_output_sum, ratio_denominator.
  pose proof (values_elem output_dict _ Hshapes) as Hv. simpl in Hv.
  destruct (values output_dict) as [|t ts] eqn:Hvals.
  - simpl. eexists. split; [reflexivity|]. split; [|done].
    intros Hne. exfalso. apply Hne. apply map_to_list_empty_iff.
    unfold values in Hvals. by apply fmap_nil_inv in Hvals.
  - simpl. rewrite bool_decide_eq_true_2.
    + simpl. eexists. split; [reflexivity|]. split.
      * intros _. simpl. by apply Forall_cons in Hv as [Ht _].
      * intros idx. simpl. by rewrite <- list_fmap_compose.
    + constructor; [done|]. apply Forall_fmap. apply Forall_cons in Hv as [Ht Hts].
      eapply Forall_impl; [exact Hts|]. simpl. intros u Hu. by rewrite Hu, Ht.
Qed.

Lemma instrument_mask_ok total instrument output :
  output_dict !! (instrument +:+ "_spectrogram") = Some output →
  shape total = s →
  (∀ idx, data total idx = ratio_denominator eps p output_dict idx) →
  ∃ mask, instrument_mask eps p output_dict total instrument = Ok mask
    ∧ shape mask = s
    ∧ ∀ idx, in_bounds s idx →
        data mask idx
        = tf_truediv (tf_add (tf_pow (data output idx) p)
                             (tf_constant (py_truediv eps (size output_dict))))
                     (ratio_denominator eps p output_dict idx).
Proof.
  intros Hout Hts Htd. unfold instrument_mask, getitem. rewrite Hout. simpl.
  unfold ratio_mask, tdiv.
  destruct (broadcast2_same "truediv" tf_truediv
              (tadd_scalar (tpow output p) (py_truediv eps (size output_dict)))
              total s) as (mask & Hm & Hs & Hd); [by apply (Hshapes _ _ Hout)|done|].
  exists mask. split; [done|]. split; [done|].
  intros idx Hidx. rewrite (Hd idx Hidx). simpl. by rewrite Htd.
Qed.
End ratio_mask.

(** ** In float32 *)

Lemma binary_round_aux_unsigned prec emax m e l :
  unsigned (binary_round_aux prec emax false m e l).
Proof.
  unfold binary_round_aux.
  destruct (shr_fexp prec emax m e l) as [mrs' e'].
  destruct (shr_fexp prec emax _ e' loc_Exact) as [mrs'' e''].
  destruct (shr_m mrs'') as [|m'|m']; [done| |done].
  by destruct (Z.leb e'' (Z.sub emax prec)).
Qed.

Lemma binary_round_unsigned prec emax m e : unsigned (binary_round prec emax false m e).
Proof.
  unfold binary_round. destruct (shl_align m e _) as [mz ez].
  apply binary_round_aux_unsigned.
Qed.

Lemma float64_of_nat_unsigned n : unsigned (float64_of_Z (Z.of_nat n)).
Proof.
  unfold float64_of_Z, binary_normalize.
  destruct (Z.of_nat n) as [|m|m] eqn:Hn; [done| |lia].
  apply binary_round_unsigned.
Qed.

Lemma float_div_unsigned prec emax x y :
  unsigned x → unsigned y → unsigned (SFdiv prec emax x y).
Proof.
  destruct x as [[]|[]| |[] mx ex], y as [[]|[]| |[] my ey]; try done.
  intros _ _. unfold SFdiv.
  destruct (SFdiv_core_binary prec emax (Zpos mx) ex (Zpos my) ey) as [[mz ez] lz].
  apply binary_round_aux_unsigned.
Qed.

Lemma float_mul_unsigned prec emax x y :
  unsigned x → unsigned y → unsigned (SFmul prec emax x y).
Proof.
  destruct x as [[]|[]| |[] mx ex], y as [[]|[]| |[] my ey]; try done.
  intros _ _. apply binary_round_aux_unsigned.
Qed.

Lemma float_add_unsigned prec emax x y :
  unsigned x → unsigned y → unsigned (SFadd prec emax x y).
Proof.
  destruct x as [[]|[]| |[] mx ex], y as [[]|[]| |[] my ey]; try done.
  intros _ _. unfold SFadd, cond_Zopp, binary_normalize.
  destruct (shl_align mx ex (Z.min ex ey)) as [ax ?].
  destruct (shl_align my ey (Z.min ex ey)) as [ay ?].
  simpl. apply binary_round_unsigned.
Qed.

Lemma float32_sum_unsigned powf (l : list float32) :
  Forall unsigned l → unsigned (sum_list (arith := ieee powf) l).
Proof.
  induction 1 as [|x l Hx _ IH]; [done|].
  change (sum_list (arith := ieee powf) (x :: l))
    with (SFadd 24 128 x (sum_list (arith := ieee powf) l)).
  by apply float_add_unsigned.
Qed.

Lemma float32_pow_unsigned x p : unsigned x → unsigned (float32_pow x p).
Proof.
  intros Hx.
  assert (∀ n, unsigned (Pos.iter (float32_mul x) float32_one n)) as Hiter.
  { intros n. apply Pos.iter_invariant; [|done].
    intros y Hy. by apply float_mul_unsigned. }
  destruct p as [|n|n]; unfold float32_pow; [done|apply Hiter|].
  apply float_div_unsigned; [done|apply Hiter].
Qed.

Lemma float32_of_float64_unsigned x : unsigned x → unsigned (float32_of_float64 x).
Proof.
  destruct x as [[]|[]| |[] m e]; try done. intros _. apply binary_round_unsigned.
Qed.

Lemma float32_add_zero_l x : unsigned x → SFadd 24 128 (S754_zero false) x = x.
Proof. by destruct x as [[]|[]| |[] m e]. Qed.

Lemma EPSILON_unsigned : unsigned (float64_of_Q EPSILON).
Proof. by vm_compute. Qed.

(** The share of the constant that goes to every mask is never negative. *)
Lemma share_unsigned n : unsigned (share32 EPSILON n).
Proof.
  apply float32_of_float64_unsigned, float_div_unsigned.
  - apply EPSILON_unsigned.
  - apply float64_of_nat_unsigned.
Qed.

Lemma float32_pow_zero p : (0 < p)%Z → float32_pow (S754_zero false) p = S754_zero false.
Proof.
  destruct p as [|n|n]; [lia| |lia]. intros _. unfold float32_pow.
  induction n as [|n IH] using Pos.peano_ind; [reflexivity|].
  rewrite Pos.iter_succ, IH. reflexivity.
Qed.

Lemma float32_sum_zero powf (l : list float32) :
  Forall (λ x, x = S754_zero false) l →
  sum_list (arith := ieee powf) l = S754_zero false.
Proof.
  induction 1 as [|x l -> _ IH]; [reflexivity|].
  change (sum_list (arith := ieee powf) (S754_zero false :: l))
    with (SFadd 24 128 (S754_zero false) (sum_list (arith := ieee powf) l)).
  rewrite IH. reflexivity.
Qed.

Lemma zero_mask_finite_positive n :
  (1 ≤ n ≤ 1024)%nat →
  is_finite (zero_mask EPSILON n) = true ∧ is_positive (zero_mask EPSILON n) = true.
Proof.
  intros Hn.
  assert (forallb (λ k, is_finite (zero_mask EPSILON k)
                        && is_positive (zero_mask EPSILON k))
                  (seq 1 1024) = true) as Hall by (vm_compute; reflexivity).
  rewrite forallb_forall in Hall.
  specialize (Hall n). apply andb_prop. apply Hall. apply in_seq. lia.
Qed.

Section float32_mask.
Variable powf : float32 → Z → float32.
Hypothesis powf_zero :
  ∀ p, (0 < p)%Z → powf (S754_zero false) p = S754_zero false.

(** C1. In float32, whatever the last place of the powers, which need only
    map zero to zero: for an instrument whose spectrogram is in the
    output dictionary, the mask at a cell is the quotient of
    output^p + EPSILON / N by the sum of the output_i^p plus EPSILON, with
    N the number of entries of the dictionary, EPSILON / N divided in
    binary64 and every operation rounded.  Where every output is zero,
    with p > 0, that is the quotient of EPSILON / N by EPSILON, which is a
    number and strictly positive for up to 1024 entries.  Where no output
    is negative, and with powers that are not negative either, the mask
    is not negative: it may be zero, infinite or not a number. *)
Theorem ratio_mask_spec (p : Z) (output_dict : gmap string (tensor float32))
    (s : list nat) (instrument : string) (output : tensor float32) (idx : list nat) :
  (∀ k v, output_dict !! k = Some v → shape v = s) →
  output_dict !! (instrument +:+ "_spectrogram") = Some output →
  in_bounds s idx →
  let total :=
    SFadd 24 128
      (sum_list (arith := ieee powf)
                ((λ v, powf (data v idx) p) <$> values output_dict))
      (epsilon32 EPSILON) in
  ∃ output_sum mask,
    ratio_output_sum (arith := ieee powf) (py_float EPSILON) p output_dict
    = Ok output_sum
    ∧ instrument_mask (arith := ieee powf) (py_float EPSILON) p output_dict
                      output_sum instrument = Ok mask
    ∧ shape mask = s
    ∧ data mask idx
      = SFdiv 24 128
          (SFadd 24 128 (powf (data output idx) p) (share32 EPSILON (size output_dict)))
          total
    ∧ ((0 < p)%Z →
       (∀ k v, output_dict !! k = Some v → data v idx = S754_zero false) →
       data mask idx = zero_mask EPSILON (size output_dict)
       ∧ ((size output_dict ≤ 1024)%nat →
          is_finite (data mask idx) = true ∧ is_positive (data mask idx) = true))
    ∧ ((∀ x, unsigned x → unsigned (powf x p)) →
       (∀ k v, output_dict !! k = Some v → unsigned (data v idx)) →
       unsigned (data mask idx)).
Proof.
  intros Hshapes Hout Hidx total.
  destruct (ratio_output_sum_ok (arith := ieee powf) (py_float EPSILON) p
              output_dict s Hshapes) as (output_sum & Hsum & Hss & Hsd).
  assert (output_dict ≠ ∅) as Hne by (intros ->; by rewrite lookup_empty in Hout).
  destruct (instrument_mask_ok (arith := ieee powf) (py_float EPSILON) p output_dict
              s Hshapes output_sum instrument output Hout (Hss Hne) Hsd)
    as (mask & Hmask & Hms & Hmd).
  exists output_sum, mask. split; [done|]. split; [done|]. split; [done|].
  split; [by rewrite (Hmd idx Hidx)|].
  split.
  2:{ intros Hpowf Hunsigned. rewrite (Hmd idx Hidx).
      apply float_div_unsigned.
      - apply float_add_unsigned; [by apply Hpowf, (Hunsigned _ _ Hout)|].
        apply share_unsigned.
      - apply float_add_unsigned.
        + apply float32_sum_unsigned, Forall_fmap, values_elem.
          intros k v Hk. by apply Hpowf, (Hunsigned k).
        + apply float32_of_float64_unsigned, EPSILON_unsigned. }
  intros Hp Hzero.
  assert (data mask idx = zero_mask EPSILON (size output_dict)) as Hvalue.
  { rewrite (Hmd idx Hidx). unfold ratio_denominator.
    rewrite (Hzero _ _ Hout).
    change (tf_pow (S754_zero false) p) with (powf (S754_zero false) p).
    rewrite powf_zero by done.
    unfold zero_mask. f_equal.
    - apply float32_add_zero_l, share_unsigned.
    - rewrite float32_sum_zero; [reflexivity|].
      apply Forall_fmap. apply values_elem. intros k v Hk. simpl.
      rewrite (Hzero k v Hk). by apply powf_zero. }
  split; [exact Hvalue|].
  intros Hsize. rewrite Hvalue.
  apply zero_mask_finite_positive. split; [|done].
  assert (size output_dict ≠ 0%nat); [|lia]. by apply map_size_non_empty_iff.
Qed.
End float32_mask.

Lemma string_length_app (a b : string) :
  String.length (a +:+ b) = (String.length a + String.length b)%nat.
Proof. induction a as [|c a IH]; simpl; [done|]. by rewrite IH. Qed.

Lemma append_suffix_inj (suffix i j : string) : i +:+ suffix = j +:+ suffix → i = j.
Proof.
  revert j. induction i as [|a i IH]; intros [|b j] Heq; simpl in Heq.
  - done.
  - apply (f_equal String.length) in Heq.
    rewrite !string_length_app in Heq. simpl in Heq. lia.
  - apply (f_equal String.length) in Heq.
    rewrite !string_length_app in Heq. simpl in Heq. lia.
  - injection Heq as -> Heq. f_equal. by apply IH.
Qed.

(** The entries of a dictionary, listed along its keys. *)
Lemma values_along_keys {V} (keys : list string) (d : gmap string V) :
  NoDup keys → dom d = list_to_set keys →
  ∃ vs, Forall2 (λ k v, d !! k = Some v) keys vs ∧ values d ≡ₚ vs.
Proof.
  intros Hnd. revert d. induction Hnd as [|k keys Hk Hnd IH]; intros d Hdom.
  - simpl in Hdom. apply dom_empty_inv_L in Hdom as ->.
    exists []. split; [constructor|]. unfold values. by rewrite map_to_list_empty.
  - assert (is_Some (d !! k)) as [v Hv].
    { apply elem_of_dom. rewrite Hdom, elem_of_list_to_set. by left. }
    destruct (IH (delete k d)) as (vs & Hvs & Hperm).
    { rewrite dom_delete_L, Hdom. apply set_eq. intros x.
      rewrite elem_of_difference, !elem_of_list_to_set, elem_of_singleton, elem_of_cons.
      split; [by intros [[->|Hx] Hxk]|]. intros Hx. split; [by right|]. by intros ->. }
    exists (v :: vs). split.
    + constructor; [done|]. eapply Forall2_impl; [exact Hvs|].
      simpl. intros k' v' Hk'. by apply lookup_delete_Some in Hk' as [_ ?].
    + rewrite <- (insert_delete_id d k v Hv). unfold values.
      rewrite map_to_list_insert by apply lookup_delete_eq.
      rewrite fmap_cons. simpl. by constructor.
Qed.

#[local] Instance spectrogram_key_inj : Inj (=) (=) (λ i : string, i +:+ "_spectrogram").
Proof. intros i j. apply append_suffix_inj. Qed.

Lemma Qnat_S n : Qnat (S n) == Qnat n + 1.
Proof. unfold Qnat. rewrite Nat2Z.inj_succ, <- Z.add_1_r, inject_Z_plus. reflexivity. Qed.

(** ** In exact arithmetic *)

Lemma exact_denominator (eps : Q) p (output_dict : gmap string (tensor Q)) idx :
  ratio_denominator (A:=Q) eps p output_dict idx
  = qsum_list ((λ v, data v idx ^ p) <$> values output_dict) + eps.
Proof. reflexivity. Qed.

Section masks_of_instruments.
Variables (eps : Q) (p : Z) (output_dict : gmap string (tensor Q)) (s : list nat).
Variables (output_sum : tensor Q) (idx : list nat).
Hypothesis Hshapes : ∀ k v, output_dict !! k = Some v → shape v = s.
Hypothesis Hsum_shape : shape output_sum = s.
Hypothesis Hsum_data : ∀ idx, data output_sum idx = ratio_denominator (A:=Q) eps p output_dict idx.
Hypothesis Hidx : in_bounds s idx.

Lemma instrument_masks_ok instruments vs :
  Forall2 (λ k v, output_dict !! k = Some v)
          ((λ i, i +:+ "_spectrogram") <$> instruments) vs →
  ∃ masks, mapM (instrument_mask (A:=Q) eps p output_dict output_sum) instruments = Ok masks
    ∧ Forall2 (λ v m, data m idx
                      = (data v idx ^ p + eps / Qnat (size output_dict))
                        / ratio_denominator (A:=Q) eps p output_dict idx) vs masks.
Proof.
  revert vs. induction instruments as [|i instruments IH]; intros vs Hvs.
  - apply Forall2_nil_inv_l in Hvs as ->. exists []. by split.
  - rewrite fmap_cons in Hvs. apply Forall2_cons_inv_l in Hvs as (v & vs' & Hv & Hvs & ->).
    destruct (IH vs' Hvs) as (masks & Hmasks & Hall).
    destruct (@instrument_mask_ok Q exact eps p output_dict s Hshapes output_sum i v
                Hv Hsum_shape Hsum_data) as (mask & Hmask & _ & Hd).
    exists (mask :: masks). split.
    + simpl. rewrite Hmask. simpl. by rewrite Hmasks.
    + constructor; [by apply Hd|done].
Qed.

Lemma instrument_masks_sum vs masks c D :
  Forall2 (λ (v m : tensor Q), data m idx = (data v idx ^ p + c) / D) vs masks →
  qsum_list ((λ m, data m idx) <$> masks)
  == (qsum_list ((λ v, data v idx ^ p) <$> vs) + Qnat (length vs) * c) / D.
Proof.
  induction 1 as [|v m vs masks Hm _ IH].
  - simpl. unfold Qdiv. change (Qnat 0) with 0. ring.
  - rewrite !fmap_cons. simpl qsum_list. rewrite IH, Hm.
    change (length (v :: vs)) with (S (length vs)). rewrite Qnat_S.
    unfold Qdiv. ring.
Qed.
End masks_of_instruments.


(** The entries of a two-instrument dictionary. *)
Lemma two_entries {V} (P : string → V → Prop) (k1 k2 : string) (v1 v2 : V) :
  P k1 v1 → P k2 v2 →
  ∀ k v, ({[ k1 := v1; k2 := v2 ]} : gmap string V) !! k = Some v → P k v.
Proof.
  intros H1 H2 k v Hk.
  apply lookup_insert_Some in Hk as [[<- <-]|[_ Hk]]; [done|].
  apply lookup_singleton_Some in Hk as [<- <-]. done.
Qed.

Lemma estimates_entries (P : string → tensor float32 → Prop) vocals accompaniment :
  P "vocals_spectrogram" (constant [1; 2; 2; 1]%nat vocals) →
  P "accompaniment_spectrogram" (constant [1; 2; 2; 1]%nat accompaniment) →
  ∀ k v, estimates vocals accompaniment !! k = Some v → P k v.
Proof. apply two_entries. Qed.

Lemma ratio_mask_spec_witness :
  (∃ output_sum mask,
     ratio_output_sum (arith := ieee float32_pow) (py_float EPSILON) 2
                      silent_estimates = Ok output_sum
     ∧ instrument_mask (arith := ieee float32_pow) (py_float EPSILON) 2
                       silent_estimates output_sum "vocals" = Ok mask
     ∧ float_value (data mask [0; 1; 1; 0]%nat) = Some (1 # 2)
     ∧ is_finite (data mask [0; 1; 1; 0]%nat) = true
     ∧ is_positive (data mask [0; 1; 1; 0]%nat) = true)
  ∧ (∃ output_sum mask,
       ratio_output_sum (arith := ieee float32_pow) (py_float EPSILON) 1
                        loud_estimates = Ok output_sum
       ∧ instrument_mask (arith := ieee float32_pow) (py_float EPSILON) 1
                         loud_estimates output_sum "vocals" = Ok mask
       ∧ unsigned (data mask [0; 1; 1; 0]%nat)).
Proof.
  split.
  - destruct (ratio_mask_spec float32_pow float32_pow_zero 2 silent_estimates
                [1; 2; 2; 1]%nat "vocals"
                (constant [1; 2; 2; 1]%nat (S754_zero false)) [0; 1; 1; 0]%nat)
      as (output_sum & mask & Hsum & Hmask & _ & _ & Hzero & _).
    + by apply estimates_entries.
    + reflexivity.
    + repeat constructor.
    + destruct Hzero as [Hvalue Hpositive]; [lia | by apply estimates_entries |].
      exists output_sum, mask. split; [exact Hsum|]. split; [exact Hmask|]. split.
      * rewrite Hvalue. vm_compute. reflexivity.
      * apply Hpositive. vm_compute. lia.
  - destruct (ratio_mask_spec float32_pow float32_pow_zero 1 loud_estimates
                [1; 2; 2; 1]%nat "vocals"
                (constant [1; 2; 2; 1]%nat (float32_of_Z (2 ^ 127))) [0; 1; 1; 0]%nat)
      as (output_sum & mask & Hsum & Hmask & _ & _ & _ & Hsign).
    + by apply estimates_entries.
    + reflexivity.
    + repeat constructor.
    + exists output_sum, mask. split; [exact Hsum|]. split; [exact Hmask|].
      apply Hsign.
      * intros x. apply float32_pow_unsigned.
      * apply estimates_entries; vm_compute; exact I.
Defined.

(** C1 as the specification states it fails in float32.  With the
    exponent 2, an estimate of 1e20 beside a silent one has a square and a
    sum that overflow: its mask is not a number and the mask of the silent
    one is zero.  With the exponent 1, two estimates of 2^127 have a sum
    that overflows: both masks are zero.  And an estimate of -1 beside one
    of 1 has a negative mask. *)
Lemma ratio_mask_may_vanish :
  masks_at_origin 2 overflowing_estimates = Ok [S754_nan; S754_zero false]
  ∧ masks_at_origin 1 loud_estimates = Ok [S754_zero false; S754_zero false]
  ∧ (∃ vocals accompaniment,
       masks_at_origin 1 signed_estimates = Ok [vocals; accompaniment]
       ∧ SFltb vocals (S754_zero false) = true)
  ∧ ¬ ratio_mask_finite_positive.
Proof.
  split; [vm_compute; reflexivity|]. split; [vm_compute; reflexivity|]. split.
  - do 2 eexists. split; vm_compute; reflexivity.
  - intros Hspec.
    destruct (ratio_output_sum_ok (arith := multiplied) (py_float EPSILON) 1
                loud_estimates [1; 2; 2; 1]%nat) as (output_sum & Hsum & Hss & Hsd).
    { by apply estimates_entries. }
    destruct (instrument_mask_ok (arith := multiplied) (py_float EPSILON) 1
                loud_estimates [1; 2; 2; 1]%nat
                ltac:(by apply estimates_entries) output_sum "vocals"
                (constant [1; 2; 2; 1]%nat (float32_of_Z (2 ^ 127))))
      as (mask & Hmask & Hms & Hmd); [reflexivity | by apply Hss | exact Hsd |].
    destruct (Hspec 1%Z loud_estimates [1; 2; 2; 1]%nat "vocals" output_sum mask
                [0; 0; 0; 0]%nat) as [_ Hpositive]; [lia | | | done | done |].
    + apply estimates_entries; (split; [reflexivity|]; split; vm_compute; reflexivity).
    + repeat constructor.
    + rewrite (Hmd [0; 0; 0; 0]%nat) in Hpositive by repeat constructor.
      vm_compute in Hpositive. discriminate Hpositive.
Qed.



(** * Dictionary comprehensions *)

Lemma mapM_Ok {A B} (g : A → result B) (l : list A) (items : list B) :
  mapM g l = Ok items ↔ Forall2 (λ a b, g a = Ok b) l items.
Proof.
  revert items. induction l as [|a l IH]; intros items; simpl.
  - split.
    + intros [= <-]. constructor.
    + intros ->%Forall2_nil_inv_l. done.
  - split.
    + destruct (g a) as [b|e] eqn:Hg; simpl; [|done].
      destruct (mapM g l) as [bs|e] eqn:Hl; simpl; [|done].
      intros [= <-]. constructor; [done|]. by apply IH.
    + intros (b & bs & Hb & Hbs & ->)%Forall2_cons_inv_l.
      rewrite Hb. simpl. apply IH in Hbs. by rewrite Hbs.
Qed.

Lemma mapM_Ok_exists {A B} (g : A → result B) (l : list A) :
  Forall (λ a, ∃ b, g a = Ok b) l → ∃ items, mapM g l = Ok items.
Proof.
  induction 1 as [|a l [b Hb] _ [bs Hbs]]; simpl.
  - by eexists.
  - rewrite Hb. simpl. rewrite Hbs. simpl. by eexists.
Qed.

Section dict_comprehension.
Context {V W : Type} (f : string → V → result W) (d : gmap string V).

Lemma comprehension_items (l : list (string * V)) (items : list (string * W)) :
  Forall2 (λ kv item, (w ← f kv.1 kv.2; mret (kv.1, w)) = Ok item) l items →
  items.*1 = l.*1
  ∧ ∀ k w, (k, w) ∈ items ↔ ∃ v, (k, v) ∈ l ∧ f k v = Ok w.
Proof.
  induction 1 as [|[k0 v0] [k1 w1] l items Hkv _ [IHk IH]].
  - split; [done|]. intros k w. split.
    + by intros ?%elem_of_nil.
    + by intros (v & ?%elem_of_nil & _).
  - simpl in Hkv. destruct (f k0 v0) as [w0|] eqn:Hf; simpl in Hkv; [|done].
    injection Hkv as <- <-. split; [rewrite !fmap_cons; by f_equal|].
    intros k w. rewrite elem_of_cons, IH. split.
    + intros [[= -> ->]|(v & Hv & Hfv)].
      * exists v0. split; [by left|done].
      * exists v. split; [by right|done].
    + intros (v & Hv & Hfv). apply elem_of_cons in Hv as [[= -> ->]|Hv].
      * left. rewrite Hf in Hfv. by injection Hfv as ->.
      * right. by exists v.
Qed.

Lemma dict_comprehension_lookup losses :
  dict_comprehension f d = Ok losses →
  ∀ k w, losses !! k = Some w ↔ ∃ v, d !! k = Some v ∧ f k v = Ok w.
Proof.
  unfold dict_comprehension. intros Hd k w.
  destruct (mapM _ (map_to_list d)) as [items|e] eqn:Hitems; simpl in Hd; [|done].
  injection Hd as <-. apply mapM_Ok, comprehension_items in Hitems as [Hkeys Hitems].
  unfold dict_of_items. rewrite <- elem_of_list_to_map.
  2:{ rewrite fmap_reverse, reverse_Permutation, Hkeys. apply NoDup_fst_map_to_list. }
  rewrite elem_of_reverse, Hitems. by setoid_rewrite elem_of_map_to_list.
Qed.

Lemma comprehension_total (l : list (string * V)) (items : list (string * W)) :
  Forall2 (λ kv item, (w ← f kv.1 kv.2; mret (kv.1, w)) = Ok item) l items →
  ∀ k v, (k, v) ∈ l → ∃ w, f k v = Ok w.
Proof.
  induction 1 as [|[k0 v0] [k1 w1] l items Hkv _ IH]; intros k v Hin.
  - by apply elem_of_nil in Hin.
  - apply elem_of_cons in Hin as [[= -> ->]|Hin]; [|by apply IH].
    simpl in Hkv. destruct (f k0 v0) as [w0|]; [by exists w0|done].
Qed.

Lemma dict_comprehension_dom losses :
  dict_comprehension f d = Ok losses → dom losses = dom d.
Proof.
  intros Hd. apply set_eq. intros k. rewrite !elem_of_dom. split.
  - intros [w Hw]. apply (dict_comprehension_lookup _ Hd) in Hw as (v & Hv & _).
    by exists v.
  - intros [v Hv]. unfold dict_comprehension in Hd.
    destruct (mapM _ (map_to_list d)) as [items|e] eqn:Hitems; simpl in Hd; [|done].
    apply mapM_Ok in Hitems.
    destruct (comprehension_total _ _ Hitems k v) as [w Hw];
      [by apply elem_of_map_to_list|].
    exists w. unfold dict_comprehension in *.
    apply (dict_comprehension_lookup losses); [|by exists v].
    unfold dict_comprehension. apply mapM_Ok in Hitems. by rewrite Hitems.
Qed.

Lemma dict_comprehension_ok :
  (∀ k v, d !! k = Some v → ∃ w, f k v = Ok w) →
  ∃ losses, dict_comprehension f d = Ok losses.
Proof.
  intros Hf. unfold dict_comprehension.
  destruct (mapM_Ok_exists (λ kv, w ← f kv.1 kv.2; mret (kv.1, w)) (map_to_list d))
    as [items Hitems].
  - apply Forall_forall. intros [k v] Hkv%elem_of_map_to_list.
    destruct (Hf k v Hkv) as [w Hw]. simpl. rewrite Hw. by eexists.
  - rewrite Hitems. by eexists.
Qed.
End dict_comprehension.

(** * The loss *)

Lemma Qnat_nonneg n : 0 <= Qnat n.
Proof. unfold Qnat. change 0 with (inject_Z 0). rewrite <- Zle_Qle. lia. Qed.

Lemma mean_nonneg (x : Q) n : 0 <= x → 0 <= x / Qnat n.
Proof.
  intros Hx. apply Qmult_le_0_compat; [done|].
  apply Qinv_le_0_compat, Qnat_nonneg.
Qed.

Lemma mean_zero (x : Q) n : x == 0 → x / Qnat n == 0.
Proof. intros ->. unfold Qdiv. ring. Qed.

Lemma l1_term_ok (output label : tensor Q) :
  shape label = shape output →
  ∃ t, l1_term output label = Ok t ∧ 0 <= t
    ∧ ((∀ idx, in_bounds (shape output) idx → data output idx == data label idx) →
       t == 0).
Proof.
  intros Hl. unfold l1_term, tsub.
  destruct (broadcast2_same "sub" Qminus output label (shape output) eq_refl Hl)
    as (d & Hd & Hs & Hdata).
  rewrite Hd. simpl. eexists. split; [reflexivity|].
  unfold reduce_mean, tabs. simpl. rewrite Hs. split.
  - apply mean_nonneg, tsum_nonneg. intros idx _. apply Qabs_nonneg.
  - intros Heq. apply mean_zero, tsum_zero. intros idx Hidx.
    rewrite (Hdata idx Hidx), (Heq idx Hidx). unfold Qminus. rewrite Qplus_opp_r.
    reflexivity.
Qed.

Lemma broadcast_dim_1_l d : broadcast_dim 1 d = Some d.
Proof. unfold broadcast_dim. repeat case_decide; congruence. Qed.

(** The weight of one batch entry against the entries of that batch. *)
Lemma broadcast2_weight {A B C} op (f : A → B → C) (w : tensor A) (a : tensor B)
    (nb nt nf nc : nat) :
  shape w = [nb; 1; 1; 1]%nat → shape a = [nb; nt; nf; nc] →
  ∃ c, broadcast2 op f w a = Ok c ∧ shape c = [nb; nt; nf; nc]
    ∧ ∀ b t k ch, (b < nb)%nat →
        data c [b; t; k; ch] = f (data w [b; 0; 0; 0]%nat)
                                 (data a (bidx [nb; nt; nf; nc] [b; t; k; ch])).
Proof.
  intros Hw Ha. unfold broadcast2. rewrite Hw, Ha.
  unfold broadcast_shape. cbn [reverse rev_append broadcast_rev].
  rewrite !broadcast_dim_1_l, broadcast_dim_same. simpl.
  eexists. split; [reflexivity|]. split; [reflexivity|].
  intros b t k ch Hb. simpl. f_equal. f_equal.
  unfold bidx, bidx_rev. simpl. case_decide; [|done].
  replace b with 0%nat by lia. done.
Qed.

(** The mean label energy of each batch entry. *)
Lemma batch_mean_ok (label : tensor Q) (nb nt nf nc : nat) :
  shape label = [nb; nt; nf; nc] →
  ∃ w, reduce_mean_axes [1; 2; 3]%nat label = Ok w
    ∧ shape w = [nb; 1; 1; 1]%nat
    ∧ ((∀ idx, in_bounds [nb; nt; nf; nc] idx → 0 <= data label idx) →
       ∀ b, (b < nb)%nat → 0 <= data w [b; 0; 0; 0]%nat).
Proof.
  intros Hl. unfold reduce_mean_axes, rank. rewrite Hl.
  rewrite bool_decide_eq_true_2 by (repeat constructor).
  eexists. split; [reflexivity|]. split; [reflexivity|].
  intros Hnonneg b Hb. simpl. apply mean_nonneg.
  do 3 (apply qsum_n_nonneg; intros ? ?).
  apply Hnonneg. unfold set_axes. simpl. repeat constructor; done.
Qed.

Lemma weighted_l1_term_ok (output label : tensor Q) (nb nt nf nc : nat) :
  shape output = [nb; nt; nf; nc] → shape label = [nb; nt; nf; nc] →
  ∃ t, weighted_l1_term output label = Ok t
    ∧ ((∀ idx, in_bounds [nb; nt; nf; nc] idx → 0 <= data label idx) → 0 <= t)
    ∧ ((∀ idx, in_bounds [nb; nt; nf; nc] idx → data output idx == data label idx) →
       t == 0).
Proof.
  intros Ho Hl. unfold weighted_l1_term.
  destruct (batch_mean_ok label nb nt nf nc Hl) as (w & Hw & Hws & Hwd).
  rewrite Hw. simpl. unfold tsub.
  destruct (broadcast2_same "sub" Qminus output label _ Ho Hl) as (d & Hd & Hs & Hdata).
  rewrite Hd. simpl. unfold tmul.
  destruct (broadcast2_weight "mul" Qmult w (tabs d) nb nt nf nc Hws Hs)
    as (m & Hm & Hms & Hmd).
  rewrite Hm. simpl. eexists. split; [reflexivity|].
  unfold reduce_mean. rewrite Hms. split.
  - intros Hnonneg. apply mean_nonneg, tsum_nonneg. intros idx Hidx.
    do 4 (apply Forall2_cons_inv_r in Hidx as (? & ? & ? & Hidx & ->)).
    apply Forall2_nil_inv_r in Hidx as ->.
    rewrite Hmd by done. apply Qmult_le_0_compat; [by apply Hwd|apply Qabs_nonneg].
  - intros Heq. apply mean_zero, tsum_zero. intros idx Hidx.
    pose proof (bidx_in_bounds _ _ Hidx) as Hb.
    do 4 (apply Forall2_cons_inv_r in Hidx as (? & ? & ? & Hidx & ->)).
    apply Forall2_nil_inv_r in Hidx as ->.
    rewrite Hmd by done. rewrite Hb. simpl.
    rewrite Hdata, Heq by (repeat constructor; done).
    unfold Qminus. rewrite Qplus_opp_r. change (Qabs 0) with 0. ring.
Qed.

Section build_loss.
Variables (self : EstimatorSpecBuilder) (output_dict labels : gmap string (tensor Q)).
Variable term : tensor Q → tensor Q → result Q.
Hypothesis Hselect : loss_selects self term.

Lemma build_loss_unfold :
  _build_loss self output_dict labels
  = (losses ← dict_comprehension
                (λ name output, label ← getitem labels name; term output label)
                output_dict;
     mret (qsum_list (values losses),
           <["absolute_difference" := qsum_list (values losses)]> losses)).
Proof.
  unfold _build_loss. destruct Hselect as [[Ht ->]|[Ht ->]]; rewrite Ht.
  - by rewrite decide_True.
  - rewrite decide_False by done. by rewrite decide_True.
Qed.

Lemma term_of_label name output t :
  (label ← getitem labels name; term output label) = Ok t
  ↔ ∃ label, labels !! name = Some label ∧ term output label = Ok t.
Proof.
  unfold getitem. destruct (labels !! name) as [label|]; simpl.
  - split; [by exists label|]. by intros (? & [= <-] & ?).
  - split; [done|]. by intros (? & ? & ?).
Qed.

Lemma build_loss_inv loss metrics :
  _build_loss self output_dict labels = Ok (loss, metrics) →
  ∃ losses, loss = qsum_list (values losses)
    ∧ metrics = <["absolute_difference" := loss]> losses
    ∧ dom losses = dom output_dict
    ∧ ∀ k t, losses !! k = Some t
        ↔ ∃ output label, output_dict !! k = Some output
            ∧ labels !! k = Some label ∧ term output label = Ok t.
Proof.
  rewrite build_loss_unfold.
  destruct (dict_comprehension _ output_dict) as [losses|e] eqn:Hlosses; [|done].
  simpl. unfold mret, result_ret. intros [= Hl Hm]. subst loss metrics.
  exists losses. split; [done|]. split; [done|].
  split; [by apply dict_comprehension_dom in Hlosses|].
  intros k t. rewrite (dict_comprehension_lookup _ _ _ Hlosses k t). split.
  - intros (output & Ho & (label & Hl & Ht)%term_of_label). by exists output, label.
  - intros (output & label & Ho & Hl & Ht). exists output. split; [done|].
    apply term_of_label. by exists label.
Qed.

Lemma build_loss_ok :
  (∀ name output, output_dict !! name = Some output →
     ∃ label t, labels !! name = Some label ∧ term output label = Ok t) →
  ∃ loss metrics, _build_loss self output_dict labels = Ok (loss, metrics).
Proof.
  intros Hterms. rewrite build_loss_unfold.
  destruct (dict_comprehension_ok
              (λ name output, label ← getitem labels name; term output label)
              output_dict) as [losses Hlosses].
  - intros k v Hk. destruct (Hterms k v Hk) as (label & t & Hl & Ht).
    exists t. apply term_of_label. by exists label.
  - rewrite Hlosses. simpl. by do 2 eexists.
Qed.

(** A property of every term is a property of every entry of [losses]. *)
Lemma build_loss_terms (P : Q → Prop) :
  (∀ name output, output_dict !! name = Some output →
     ∃ label t, labels !! name = Some label ∧ term output label = Ok t ∧ P t) →
  ∃ losses, _build_loss self output_dict labels
            = Ok (qsum_list (values losses),
                  <["absolute_difference" := qsum_list (values losses)]> losses)
    ∧ Forall P (values losses).
Proof.
  intros Hterms.
  destruct build_loss_ok as (loss & metrics & Hloss).
  { intros k v Hk. destruct (Hterms k v Hk) as (label & t & ? & ? & _). by exists label, t. }
  destruct (build_loss_inv _ _ Hloss) as (losses & -> & -> & _ & Hlookup).
  exists losses. split; [done|]. apply values_elem. intros k t Hk.
  apply Hlookup in Hk as (output & label & Ho & Hl & Ht).
  destruct (Hterms k output Ho) as (label' & t' & Hl' & Ht' & HP).
  rewrite Hl in Hl'. injection Hl' as <-. rewrite Ht in Ht'. by injection Ht' as <-.
Qed.

Lemma build_loss_sum instruments loss metrics :
  NoDup instruments →
  dom output_dict = list_to_set ((λ i, i +:+ "_spectrogram") <$> instruments) →
  _build_loss self output_dict labels = Ok (loss, metrics) →
  ∃ terms,
    Forall2 (λ i t, ∃ output label,
               output_dict !! (i +:+ "_spectrogram") = Some output
               ∧ labels !! (i +:+ "_spectrogram") = Some label
               ∧ term output label = Ok t) instruments terms
    ∧ loss == qsum_list terms.
Proof.
  intros Hnd Hdom Hloss.
  destruct (build_loss_inv _ _ Hloss) as (losses & -> & _ & Hdl & Hlookup).
  destruct (values_along_keys _ losses (NoDup_fmap_2 _ _ Hnd)) as (terms & Hterms & Hperm);
    [by rewrite Hdl|].
  exists terms. split; [|by apply qsum_list_perm].
  apply Forall2_fmap_l in Hterms. eapply Forall2_impl; [exact Hterms|].
  simpl. intros i t Ht. by apply Hlookup.
Qed.
End build_loss.

Lemma rank4_shape (s : list nat) :
  length s = 4%nat → ∃ nb nt nf nc, s = [nb; nt; nf; nc].
Proof.
  destruct s as [|nb [|nt [|nf [|nc [|? ?]]]]]; try done. intros _. by exists nb, nt, nf, nc.
Qed.

Lemma build_loss_unknown self output_dict labels name :
  loss_type (_params self) = Some name →
  name ≠ L1_MASK → name ≠ WEIGHTED_L1_MASK →
  _build_loss self output_dict labels = Raise (ValueError ("Unknown loss type: " +:+ name)).
Proof.
  intros Hname Hl Hw. unfold _build_loss. rewrite Hname. simpl.
  by rewrite !decide_False.
Qed.

Lemma build_loss_equal self output_dict labels term :
  loss_selects self term →
  matching_labels (λ output label, ∀ idx, in_bounds (shape output) idx →
                     data output idx == data label idx) output_dict labels →
  ∃ loss metrics, _build_loss self output_dict labels = Ok (loss, metrics) ∧ loss == 0.
Proof.
  intros Hselect Hlabels.
  destruct (build_loss_terms self output_dict labels term Hselect (λ t, t == 0))
    as (losses & Hloss & Hzero).
  - intros name output Ho.
    destruct (Hlabels name output Ho) as (label & Hl & Hs & Hrank & _ & Heq).
    exists label. destruct Hselect as [[_ ->]|[_ ->]].
    + destruct (l1_term_ok output label Hs) as (t & Ht & _ & Hz).
      exists t. split; [done|]. split; [done|]. by apply Hz.
    + destruct (rank4_shape _ Hrank) as (nb & nt & nf & nc & Hshape).
      destruct (weighted_l1_term_ok output label nb nt nf nc Hshape)
        as (t & Ht & _ & Hz); [by rewrite Hs|].
      exists t. split; [done|]. split; [done|]. apply Hz. by rewrite <- Hshape.
  - do 2 eexists. split; [exact Hloss|]. by apply qsum_list_zero.
Qed.

Lemma build_loss_weighted_nonneg self output_dict labels :
  loss_type (_params self) = Some WEIGHTED_L1_MASK →
  matching_labels (λ output label, ∀ idx, in_bounds (shape output) idx →
                     0 <= data label idx) output_dict labels →
  ∃ loss metrics, _build_loss self output_dict labels = Ok (loss, metrics) ∧ 0 <= loss.
Proof.
  intros Hty Hlabels.
  assert (loss_selects self weighted_l1_term) as Hselect by (right; by rewrite Hty).
  destruct (build_loss_terms self output_dict labels _ Hselect (λ t, 0 <= t))
    as (losses & Hloss & Hnonneg).
  - intros name output Ho.
    destruct (Hlabels name output Ho) as (label & Hl & Hs & Hrank & _ & Hpos).
    destruct (rank4_shape _ Hrank) as (nb & nt & nf & nc & Hshape).
    destruct (weighted_l1_term_ok output label nb nt nf nc Hshape)
      as (t & Ht & Hn & _); [by rewrite Hs|].
    exists label, t. split; [done|]. split; [done|]. apply Hn. by rewrite <- Hshape.
  - do 2 eexists. split; [exact Hloss|]. by apply qsum_list_nonneg.
Qed.


Lemma sample_outputs_nonneg name (output : tensor Q) idx :
  sample_outputs !! name = Some output → 0 <= data output idx.
Proof.
  revert name output. apply two_entries; simpl.
  - apply Qnat_nonneg.
  - apply Qmult_le_0_compat; [apply Qnat_nonneg|done].
Qed.

Lemma sample_outputs_labelled (P : tensor Q → tensor Q → Prop) outputs :
  (∀ name output label,
     outputs !! name = Some output → sample_outputs !! name = Some label →
     P output label) →
  (∀ name output, outputs !! name = Some output →
     ∃ label, sample_outputs !! name = Some label ∧ shape label = shape output
       ∧ shape output = [1; 2; 2; 1]%nat) →
  matching_labels P outputs sample_outputs.
Proof.
  intros HP Hshapes name output Ho.
  destruct (Hshapes name output Ho) as (label & Hl & Hs & Hshape).
  exists label. split; [done|]. split; [done|]. rewrite Hshape.
  split; [done|]. split; [done|]. by apply (HP name).
Qed.


(** * The inverse transform *)

Lemma silent_backend_contract : @overlap_add_contract silent_backend.
Proof.
  intros t frame_length frame_step window_fn c frames bins Hshape _ _ _.
  simpl. rewrite Hshape. by eexists.
Qed.

(** With frames no further apart than they are long, the frames of the
    forward transform cover the waveform. *)
Lemma forward_frames_cover (n : nat) (frame_length frame_step : Z) :
  (0 < frame_step ≤ frame_length)%Z →
  (n ≤ overlap_add_length (forward_frames n frame_step) frame_length frame_step)%nat.
Proof.
  intros [Hstep Hlen]. unfold overlap_add_length, forward_frames.
  pose proof (Z.div_mod (- Z.of_nat n) frame_step ltac:(lia)) as Hdiv.
  pose proof (Z.mod_pos_bound (- Z.of_nat n) frame_step Hstep) as Hmod.
  remember ((- Z.of_nat n) `div` frame_step)%Z as q eqn:Hq.
  remember ((- Z.of_nat n) `mod` frame_step)%Z as r eqn:Hr.
  assert (q ≤ 0)%Z as Hq0 by nia.
  rewrite Z2Nat.id by lia. apply Nat2Z.inj_le. rewrite Z2Nat.id by nia. nia.
Qed.

(** C4. Given a transform of [frames] frames, the inverse transform hands
    the frames, channel first, to [inverse_stft] with the configured frame
    length and step and the periodic Hann window, scales the result by 2/3
    and keeps at most as many samples as the input waveform has: the
    returned waveform has min(n, (frames - 1) * frame_step + frame_length)
    samples and the channels of the transform.  It has the sample count of
    the input waveform when the transform has the frames of the forward
    transform and frame_step <= frame_length. *)
Theorem inverse_stft_spec `{Backend} self stft features wave frames bins c n rest :
  overlap_add_contract →
  shape stft = [frames; bins; c] → (0 < frames)%nat →
  (0 < _frame_length self)%Z → (0 < _frame_step self)%Z →
  features !! "waveform" = Some (FReal wave) → shape wave = n :: rest →
  let length := overlap_add_length frames (_frame_length self) (_frame_step self) in
  ∃ channel_first inversed w,
    transpose_perm stft [2; 0; 1]%nat = Ok channel_first
    ∧ shape channel_first = [c; frames; bins]
    ∧ inverse_stft channel_first (_frame_length self) (_frame_step self) periodic_hann
      = Ok inversed
    ∧ periodic_hann (_frame_length self) = hann_window (_frame_length self) true
    ∧ _inverse_stft self stft features = (Ok w, features)
    ∧ shape w = [Nat.min n length; c]
    ∧ (∀ i ch, data w [i; ch] = data inversed [ch; i] * (2 # 3))
    ∧ ((n ≤ length)%nat → shape w = [n; c])
    ∧ (frames = forward_frames n (_frame_step self) →
       (_frame_step self ≤ _frame_length self)%Z → shape w = [n; c]).
Proof.
  intros Hcontract Hshape Hframes Hlen Hstep Hwave Hn length.
  assert (transpose_perm stft [2; 0; 1]%nat
          = Ok (Tensor [c; frames; bins]
                       (λ idx, data stft (set_axes [2; 0; 1]%nat idx idx)))) as Htr.
  { unfold transpose_perm, rank. rewrite Hshape.
    rewrite bool_decide_eq_true_2; [done|].
    split; [done|]. split; [|repeat constructor].
    apply (bool_decide_unpack _). reflexivity. }
  match type of Htr with _ = Ok ?t =>
    destruct (Hcontract t (_frame_length self) (_frame_step self) periodic_hann
                c frames bins eq_refl Hframes Hlen Hstep) as (inversed & Hinv & Hs)
  end.
  do 3 eexists. split; [exact Htr|]. split; [reflexivity|].
  split; [exact Hinv|]. split; [reflexivity|].
  assert (_inverse_stft self stft features
          = (Ok (Tensor [Nat.min n length; c]
                        (data (transpose (tscale inversed WINDOW_COMPENSATION_FACTOR)))),
             features)) as Hrun.
  { unfold _inverse_stft, mbind, M_bind, lift, get_feature, getitem.
    rewrite Htr, Hinv, Hwave. simpl. unfold shape0. rewrite Hn.
    unfold slice_rows, rank. simpl. rewrite Hs. reflexivity. }
  split; [exact Hrun|]. split; [reflexivity|]. split; [reflexivity|].
  split.
  - intros Hle. simpl. by rewrite Nat.min_l.
  - intros -> Hle. simpl. rewrite Nat.min_l; [done|].
    by apply forward_frames_cover.
Qed.

Lemma inverse_stft_spec_witness :
  ∃ w, @_inverse_stft silent_backend unet_builder dense_stft dense_features
       = (Ok w, dense_features)
    ∧ shape w = [5; 1]%nat.
Proof.
  destruct (@inverse_stft_spec silent_backend unet_builder dense_stft dense_features
              (zeros [5; 1]%nat) 5 3 1 5 [1%nat] silent_backend_contract)
    as (channel_first & inversed & w & _ & _ & _ & _ & Hrun & _ & _ & _ & Hshape);
    [reflexivity | lia | reflexivity | reflexivity | reflexivity | reflexivity |].
  exists w. split; [exact Hrun|].
  apply Hshape; [reflexivity | vm_compute; discriminate].
Defined.

(** C4 as the specification states it fails, the slice never padding: with frames of
    length 4 every 8 samples, the two frames of a waveform of 16 samples
    give back 12 samples; and a transform of one frame of length 4 gives
    back 4 samples, whatever the length of the waveform, here 5. *)
Lemma inverse_stft_may_be_shorter :
  (∃ w, (@_inverse_stft silent_backend sparse_builder sparse_stft sparse_features).1
        = Ok w
     ∧ shape w = [12; 1]%nat)
  ∧ (∃ w, (@_inverse_stft silent_backend unet_builder short_stft dense_features).1
          = Ok w
       ∧ shape w = [4; 1]%nat)
  ∧ ¬ inverse_stft_restores_shape.
Proof.
  split; [|split].
  - eexists. split; reflexivity.
  - eexists. split; reflexivity.
  - intros Hrestores.
    pose proof (Hrestores silent_backend sparse_builder sparse_stft sparse_features
                  (zeros [16; 1]%nat) _ silent_backend_contract eq_refl eq_refl) as Hs.
    discriminate Hs.
Qed.

(** * The round trip *)

Lemma qsum_n_ext n (f g : nat → Q) :
  (∀ i, (i < n)%nat → f i == g i) → qsum_n n f == qsum_n n g.
Proof.
  induction n as [|n IH]; intros Hfg; simpl; [reflexivity|].
  rewrite IH, Hfg by auto with lia. reflexivity.
Qed.

(** Evaluates the cosines and sines of the quarter turns in the goal. *)
Ltac quarter_turns :=
  repeat match goal with
         | |- context [quarter_cos (Z.of_nat ?k)] =>
             let v := eval vm_compute in (quarter_cos (Z.of_nat k)) in
             change (quarter_cos (Z.of_nat k)) with v
         | |- context [quarter_sin (Z.of_nat ?k)] =>
             let v := eval vm_compute in (quarter_sin (Z.of_nat k)) in
             change (quarter_sin (Z.of_nat k)) with v
         end.

Lemma irfft_rfft_4 (frame : nat → Q) (bin : nat → complex) j :
  (j < 4)%nat →
  (∀ k, (k < 3)%nat → bin k = rfft 4 quarter_cos quarter_sin frame k) →
  irfft 4 quarter_cos quarter_sin bin j == frame j.
Proof.
  intros Hj Hbin. unfold irfft.
  change (Z.to_nat (4 `div` 2)) with 2%nat.
  unfold qsum_n. rewrite !Hbin by lia. unfold rfft.
  change (Z.to_nat 4) with 4%nat. unfold qsum_n.
  destruct j as [|[|[|[|j]]]]; [| | | |lia]; simpl; quarter_turns;
    change (inject_Z 4) with 4; field.
Qed.

Section round_trip.
Context `{Backend} (self : EstimatorSpecBuilder).
Variables (features : gmap string feature) (wave : tensor Q) (n c : nat).
Hypothesis Hlibrary : library_transforms.
Hypothesis Hlength : _frame_length self = 4%Z.
Hypothesis Hstep : (0 < _frame_step self)%Z.
Hypothesis Hwave : features !! "waveform" = Some (FReal wave).
Hypothesis Hws : shape wave = [n; c].

Lemma forward_transform_4 :
  ∃ stft_feature, forward_transform self wave = Ok stft_feature
    ∧ shape stft_feature = [forward_frames n (_frame_step self); 3; c]%nat
    ∧ ∀ f k ch, data stft_feature [f; k; ch]
        = rfft 4 quarter_cos quarter_sin
               (windowed_frame (_frame_step self) wave n ch f) k.
Proof.
  unfold forward_transform. rewrite (proj1 Hlibrary). unfold tf_stft.
  rewrite Hlength. simpl shape. rewrite Hws.
  change (reverse [n; c]) with [c; n].
  change (window_values (periodic_hann 4)) with (Some hann4).
  change (enclosing_power_of_two 4) with 4%Z.
  change (cos_turn 4) with (Some quarter_cos).
  change (sin_turn 4) with (Some quarter_sin).
  rewrite bool_decide_eq_true_2 by lia.
  simpl mbind. unfold transpose_perm, rank. simpl shape.
  rewrite bool_decide_eq_true_2.
  - eexists. split; [reflexivity|]. split; [reflexivity|].
    intros f k ch. reflexivity.
  - split; [done|]. split; [|repeat constructor].
    apply (bool_decide_unpack _). reflexivity.
Qed.

Lemma inverse_transform_4 stft_feature frames :
  shape stft_feature = [frames; 3; c]%nat →
  ∃ w, _inverse_stft self stft_feature features = (Ok w, features)
    ∧ shape w = [Nat.min n (overlap_add_length frames 4 (_frame_step self)); c]
    ∧ ∀ t ch, data w [t; ch]
        = qsum_n frames
            (λ f, let start := (f * Z.to_nat (_frame_step self))%nat in
                  if (start <=? t)%nat && (t <? start + 4)%nat
                  then hann4 (t - start)
                       * irfft 4 quarter_cos quarter_sin
                               (λ k, if (k <? 3)%nat then data stft_feature [f; k; ch]
                                     else (0, 0))
                               (t - start)
                  else 0)
          * WINDOW_COMPENSATION_FACTOR.
Proof.
  intros Hshape.
  unfold _inverse_stft, mbind, M_bind, lift, get_feature, getitem.
  unfold transpose_perm, rank. rewrite Hshape.
  rewrite bool_decide_eq_true_2.
  2:{ split; [done|]. split; [|repeat constructor].
      apply (bool_decide_unpack _). reflexivity. }
  rewrite (proj2 Hlibrary). unfold tf_inverse_stft.
  rewrite Hlength. simpl shape.
  change (window_values (periodic_hann 4)) with (Some hann4).
  change (enclosing_power_of_two 4) with 4%Z.
  change (cos_turn 4) with (Some quarter_cos).
  change (sin_turn 4) with (Some quarter_sin).
  rewrite bool_decide_eq_true_2 by lia.
  rewrite Hwave. simpl. unfold shape0. rewrite Hws.
  unfold slice_rows, rank. simpl.
  eexists. split; [reflexivity|]. split; [reflexivity|].
  intros t ch. reflexivity.
Qed.
End round_trip.

Lemma qsum_n_scale n (g : nat → Q) (x : Q) :
  qsum_n n (λ i, g i * x) == qsum_n n g * x.
Proof.
  induction n as [|n IH]; simpl; [ring|]. rewrite IH. ring.
Qed.

Lemma qsum_n_truncate m n (g : nat → Q) :
  (m ≤ n)%nat → (∀ f, (m ≤ f < n)%nat → g f == 0) → qsum_n n g == qsum_n m g.
Proof.
  intros Hmn. induction Hmn as [|n Hmn IH]; intros Hg; [reflexivity|].
  simpl. rewrite IH, Hg by auto with lia. ring.
Qed.

Lemma hann4_values :
  hann4 0 == 0 ∧ hann4 1 == 1 # 2 ∧ hann4 2 == 1 ∧ hann4 3 == 1 # 2.
Proof. repeat split; reflexivity. Qed.

Lemma forward_frames_1 n : forward_frames n 1 = n.
Proof. unfold forward_frames. rewrite Z.div_1_r. lia. Qed.

(** Frames of length 4 every sample lay the whole window over every
    sample but the first three. *)
Lemma overlap_gain_every_sample n t :
  (t < n)%nat → overlap_gain n 1 t == (3 # 2) * head_gain t.
Proof.
  intros Ht. unfold overlap_gain. change (Z.to_nat 1) with 1%nat.
  set (g := λ f : nat, if (f * 1 <=? t)%nat && (t <? f * 1 + 4)%nat
                       then hann4 (t - f * 1) * hann4 (t - f * 1) else 0).
  assert (∀ f, (f ≤ t)%nat → (t < f + 4)%nat → g f == hann4 (t - f) * hann4 (t - f))
    as Hin.
  { intros f Hf1 Hf2. subst g. simpl. rewrite Nat.mul_1_r.
    destruct (Nat.leb_spec f t); [|lia]. destruct (Nat.ltb_spec t (f + 4)); [|lia].
    reflexivity. }
  assert (∀ f, (t < f ∨ f + 4 ≤ t)%nat → g f == 0) as Hout.
  { intros f Hf. subst g. simpl. rewrite Nat.mul_1_r.
    destruct (Nat.leb_spec f t); [|reflexivity].
    destruct (Nat.ltb_spec t (f + 4)); [lia|reflexivity]. }
  rewrite (qsum_n_truncate (S t) n g) by (try lia; intros f Hf; apply Hout; lia).
  destruct hann4_values as (H0 & H1 & H2 & H3).
  destruct t as [|[|[|t]]].
  - simpl qsum_n. rewrite Hin by lia. simpl. rewrite H0. reflexivity.
  - simpl qsum_n. rewrite !Hin by lia. simpl. rewrite H0, H1. reflexivity.
  - simpl qsum_n. rewrite !Hin by lia. simpl. rewrite H0, H1, H2. reflexivity.
  - change (qsum_n (S (S (S (S t)))) g)
      with (qsum_n t g + g t + g (S t) + g (S (S t)) + g (S (S (S t)))).
    rewrite (qsum_n_zero t g) by (intros f Hf; apply Hout; lia).
    rewrite !Hin by lia.
    replace (S (S (S t)) - t)%nat with 3%nat by lia.
    replace (S (S (S t)) - S t)%nat with 2%nat by lia.
    replace (S (S (S t)) - S (S t))%nat with 1%nat by lia.
    replace (S (S (S t)) - S (S (S t)))%nat with 0%nat by lia.
    rewrite H0, H1, H2, H3. reflexivity.
Qed.

Section round_trip_values.
Context `{Backend} (self : EstimatorSpecBuilder).
Variables (features : gmap string feature) (wave : tensor Q) (n c : nat).
Hypothesis Hlibrary : library_transforms.
Hypothesis Hlength : _frame_length self = 4%Z.
Hypothesis Hstep : (0 < _frame_step self)%Z.
Hypothesis Hwave : features !! "waveform" = Some (FReal wave).
Hypothesis Hws : shape wave = [n; c].

(** The round trip multiplies every sample by two thirds of the squares of
    the window values that the frames lay over it. *)
Lemma round_trip_gain :
  ∃ stft_feature w,
    forward_transform self wave = Ok stft_feature
    ∧ _inverse_stft self stft_feature features = (Ok w, features)
    ∧ shape w = [Nat.min n (overlap_add_length (forward_frames n (_frame_step self))
                                               4 (_frame_step self)); c]
    ∧ ∀ t ch, data w [t; ch]
        == (2 # 3) * overlap_gain (forward_frames n (_frame_step self))
                                  (_frame_step self) t
           * (if (t <? n)%nat then data wave [t; ch] else 0).
Proof.
  destruct (forward_transform_4 self wave n c Hlibrary Hlength Hstep Hws)
    as (stft_feature & Hforward & Hshape & Hbins).
  destruct (inverse_transform_4 self features wave n c Hlibrary Hlength Hstep Hwave
              Hws stft_feature _ Hshape) as (w & Hinverse & Hwshape & Hdata).
  exists stft_feature, w. split; [done|]. split; [done|]. split; [done|].
  intros t ch. rewrite Hdata. unfold overlap_gain.
  set (x := if (t <? n)%nat then data wave [t; ch] else 0).
  change WINDOW_COMPENSATION_FACTOR with (2 # 3).
  match goal with |- qsum_n ?F ?G * _ == _ * qsum_n _ ?P * _ =>
    assert (qsum_n F G == qsum_n F P * x) as ->; [|ring]
  end.
  rewrite <- qsum_n_scale.
  apply qsum_n_ext. intros f _. cbv beta zeta.
  destruct ((f * Z.to_nat (_frame_step self) <=? t)%nat
            && (t <? f * Z.to_nat (_frame_step self) + 4)%nat) eqn:Hcond; [|ring].
  apply andb_prop in Hcond as [Hle Hlt].
  apply Nat.leb_le in Hle. apply Nat.ltb_lt in Hlt.
  match goal with |- _ * irfft _ _ _ ?bin ?j == _ =>
    assert (irfft 4 quarter_cos quarter_sin bin j
            == windowed_frame (_frame_step self) wave n ch f j) as ->
  end.
  { apply irfft_rfft_4; [lia|]. intros k Hk.
    destruct (Nat.ltb_spec k 3); [apply Hbins|lia]. }
  unfold windowed_frame.
  replace (f * Z.to_nat (_frame_step self)
           + (t - f * Z.to_nat (_frame_step self)))%nat with t by lia.
  subst x. ring.
Qed.
End round_trip_values.

Lemma append_prefix_inj (prefix a b : string) : prefix +:+ a = prefix +:+ b → a = b.
Proof.
  induction prefix as [|c prefix IH]; [done|].
  change (String c (prefix +:+ a) = String c (prefix +:+ b) → a = b).
  intros [= Heq]. by apply IH.
Qed.

Lemma stft_key_ne_spectrogram_key mix : mix +:+ "_stft" ≠ mix +:+ "_spectrogram".
Proof. by intros Heq%append_prefix_inj. Qed.

(** The STFT feature that [_build_stft_feature] stores is the forward
    transform of the waveform. *)
Lemma build_stft_feature_forward `{Backend} self features wave stft_feature fs :
  features !! "waveform" = Some (FReal wave) →
  forward_transform self wave = Ok stft_feature →
  _build_stft_feature self features = (Ok (), fs) →
  fs !! (_mix_name self +:+ "_stft") = Some (FComplex stft_feature).
Proof.
  intros Hwave Hforward. unfold forward_transform in Hforward.
  unfold _build_stft_feature, mbind, M_bind, lift, get_feature, getitem, set_feature.
  rewrite Hwave. simpl.
  destruct (stft (transpose wave) (_frame_length self) (_frame_step self)
                 periodic_hann true) as [frames|e]; [|done].
  simpl in Hforward. rewrite Hforward.
  destruct (pad_and_partition stft_feature (_T self)) as [segments|e]; [|done].
  destruct (slice_bins (_F self) (tmap complex_abs segments)) as [spectrogram|e];
    [|done].
  intros [= <-].
  rewrite lookup_insert_ne by (symmetry; apply stft_key_ne_spectrogram_key).
  apply lookup_insert_eq.
Qed.


Lemma exact_signal_library : @library_transforms exact_signal.
Proof. split; reflexivity. Qed.



(** * What reads the features and what writes them *)

Lemma read_only_ret {A} (a : A) : read_only (mret a).
Proof. by intros fs. Qed.

Lemma read_only_lift {A} (r : result A) : read_only (lift r).
Proof. by intros fs. Qed.

Lemma read_only_get key : read_only (get_feature key).
Proof. by intros fs. Qed.

Lemma read_only_has key : read_only (has_feature key).
Proof. by intros fs. Qed.

Lemma read_only_bind {A B} (m : M A) (k : A → M B) :
  read_only m → (∀ a, read_only (k a)) → read_only (m ≫= k).
Proof.
  intros Hm Hk fs. unfold mbind, M_bind. specialize (Hm fs).
  destruct (m fs) as [[a|e] fs']; simpl in *; subst fs'; [apply Hk|done].
Qed.

Lemma read_only_mapM {A B} (f : A → M B) (l : list A) :
  (∀ a, read_only (f a)) → read_only (mapM f l).
Proof.
  intros Hf. induction l as [|a l IH]; simpl.
  - apply read_only_ret.
  - apply read_only_bind; [done|]. intros b.
    apply read_only_bind; [done|]. intros bs. apply read_only_ret.
Qed.

Create HintDb read_only.
#[local] Hint Resolve read_only_ret read_only_lift read_only_get read_only_has
  read_only_bind read_only_mapM : read_only.

Section read_only_methods.
Context `{Backend} (self : EstimatorSpecBuilder).

Lemma build_output_dict_read_only : read_only (_build_output_dict self).
Proof. unfold _build_output_dict. auto 20 with read_only. Qed.

Lemma inverse_stft_read_only stft : read_only (_inverse_stft self stft).
Proof. unfold _inverse_stft. auto 20 with read_only. Qed.

Lemma build_manual_output_waveform_read_only output_dict :
  read_only (_build_manual_output_waveform self output_dict).
Proof.
  unfold _build_manual_output_waveform.
  pose proof inverse_stft_read_only. auto 30 with read_only.
Qed.

Lemma build_mwf_output_waveform_read_only output_dict :
  read_only (_build_mwf_output_waveform self output_dict).
Proof.
  unfold _build_mwf_output_waveform.
  pose proof inverse_stft_read_only. auto 30 with read_only.
Qed.

Lemma build_output_waveform_read_only output_dict :
  read_only (_build_output_waveform self output_dict).
Proof.
  unfold _build_output_waveform.
  apply read_only_bind.
  - destruct (default false (MWF (_params self)));
      [apply build_mwf_output_waveform_read_only
      |apply build_manual_output_waveform_read_only].
  - intros ow. apply read_only_bind; [apply read_only_has|].
    intros []; auto 10 with read_only.
Qed.

Lemma build_evaluation_model_read_only labels :
  read_only (build_evaluation_model self labels).
Proof.
  unfold build_evaluation_model.
  pose proof build_output_dict_read_only. auto 20 with read_only.
Qed.

Lemma build_train_model_read_only labels :
  read_only (build_train_model self labels).
Proof.
  unfold build_train_model.
  pose proof build_output_dict_read_only. auto 20 with read_only.
Qed.
End read_only_methods.

(** * The constructor *)

Lemma init_Ok params builder :
  __init__ params = Ok builder ↔
  mix_name params = Some (_mix_name builder)
  ∧ instrument_list params = Some (_instruments builder)
  ∧ n_channels params = Some (_n_channels builder)
  ∧ T params = Some (_T builder)
  ∧ F params = Some (_F builder)
  ∧ frame_length params = Some (_frame_length builder)
  ∧ frame_step params = Some (_frame_step builder)
  ∧ _params builder = params.
Proof.
  unfold __init__, require. split.
  - destruct (mix_name params), (instrument_list params), (n_channels params),
      (T params), (F params), (frame_length params), (frame_step params);
      simpl; try done.
    by intros [= <-].
  - destruct builder. simpl. intros (-> & -> & -> & -> & -> & -> & -> & ->). done.
Qed.

Lemma init_Raise params e :
  __init__ params = Raise e →
  ∃ key, e = KeyError key
    ∧ key ∈ ["mix_name"; "instrument_list"; "n_channels"; "T"; "F";
             "frame_length"; "frame_step"].
Proof.
  unfold __init__, require.
  destruct (mix_name params); simpl; [|intros [= <-]; eexists; split; [done|set_solver]].
  destruct (instrument_list params); simpl;
    [|intros [= <-]; eexists; split; [done|set_solver]].
  destruct (n_channels params); simpl;
    [|intros [= <-]; eexists; split; [done|set_solver]].
  destruct (T params); simpl; [|intros [= <-]; eexists; split; [done|set_solver]].
  destruct (F params); simpl; [|intros [= <-]; eexists; split; [done|set_solver]].
  destruct (frame_length params); simpl;
    [|intros [= <-]; eexists; split; [done|set_solver]].
  destruct (frame_step params); simpl;
    [|intros [= <-]; eexists; split; [done|set_solver]].
  done.
Qed.

(** X17. The constructor succeeds exactly when the seven required keys are
    present; otherwise model_fn raises KeyError for one of them in every
    mode, an unknown one included, and leaves the features untouched. *)
Theorem model_fn_required_keys `{Backend} labels mode' params config features :
  ((∃ builder, __init__ params = Ok builder)
   ↔ is_Some (mix_name params) ∧ is_Some (instrument_list params)
     ∧ is_Some (n_channels params) ∧ is_Some (T params) ∧ is_Some (F params)
     ∧ is_Some (frame_length params) ∧ is_Some (frame_step params))
  ∧ ((¬ ∃ builder, __init__ params = Ok builder) →
     ∃ key, model_fn labels mode' params config features
            = (Raise (KeyError key), features)
       ∧ key ∈ ["mix_name"; "instrument_list"; "n_channels"; "T"; "F";
                "frame_length"; "frame_step"]).
Proof.
  split.
  - split.
    + intros [builder Hb]. apply init_Ok in Hb as (-> & -> & -> & -> & -> & -> & -> & _).
      repeat split; by eexists.
    + intros ([a Ha] & [b Hb] & [c Hc] & [d Hd] & [e He] & [f Hf] & [g Hg]).
      eexists {| _params := params; _mix_name := a; _instruments := b;
                 _n_channels := c; _T := d; _F := e; _frame_length := f;
                 _frame_step := g |}.
      by apply init_Ok.
  - intros Hno. destruct (__init__ params) as [builder|e] eqn:Hinit.
    + exfalso. apply Hno. by exists builder.
    + destruct (init_Raise _ _ Hinit) as (key & -> & Hkey).
      exists key. split; [|done]. unfold model_fn, mbind, M_bind, lift. by rewrite Hinit.
Qed.

Lemma model_fn_required_keys_witness :
  ∃ key, @model_fn silent_backend ∅ "nonsense" empty_params PNone sample_features
         = (Raise (KeyError key), sample_features)
    ∧ key ∈ ["mix_name"; "instrument_list"; "n_channels"; "T"; "F";
             "frame_length"; "frame_step"].
Proof.
  apply (proj2 (@model_fn_required_keys silent_backend ∅ "nonsense" empty_params
                  PNone sample_features)).
  intros [builder Hbuilder]. discriminate Hbuilder.
Defined.

(** * The learning rate *)

(** X15. The optimizer is built exactly when its name is Adadelta or a
    learning rate is configured; otherwise KeyError('learning_rate') is
    raised. *)
Theorem build_optimizer_learning_rate (self : EstimatorSpecBuilder) :
  ((∃ o, _build_optimizer self = Ok o)
   ↔ optimizer (_params self) = Some ADADELTA
     ∨ is_Some (learning_rate (_params self)))
  ∧ (optimizer (_params self) ≠ Some ADADELTA →
     learning_rate (_params self) = None →
     _build_optimizer self = Raise (KeyError "learning_rate")).
Proof.
  unfold _build_optimizer. split; [split|].
  - intros [o Ho]. case_decide as Hname; [by left|]. right.
    destruct (learning_rate (_params self)); [by eexists|done].
  - intros [Hname|[rate Hrate]].
    + rewrite decide_True by done. by eexists.
    + case_decide; [by eexists|]. rewrite Hrate. simpl. case_decide; by eexists.
  - intros Hname Hrate. rewrite decide_False by done. by rewrite Hrate.
Qed.

Lemma build_optimizer_learning_rate_witness :
  _build_optimizer (optimizer_builder (Some "SGD") None)
  = Raise (KeyError "learning_rate")
  ∧ ∃ o, _build_optimizer (optimizer_builder (Some "Adadelta") None) = Ok o.
Proof.
  split.
  - apply (proj2 (build_optimizer_learning_rate _)); [discriminate | reflexivity].
  - apply (proj1 (build_optimizer_learning_rate _)). by left.
Defined.

(** * Training and evaluation *)

Section train_and_eval.
Context `{Backend} (self : EstimatorSpecBuilder) (labels : gmap string (tensor Q)).

(** X16. Training returns a spec exactly when evaluation returns one on the
    same inputs, the optimizer is built and its [minimize] returns a train
    operation for the loss; the spec has the loss and the metrics of the
    evaluation and that train operation.  When [minimize] raises, as it
    does for a model without variables, training raises the same error. *)
Theorem build_train_model_extends_evaluation features :
  (∀ spec,
     (build_train_model self labels features).1 = Ok spec ↔
     ∃ evaluation optimizer value train_operation,
       (build_evaluation_model self labels features).1 = Ok evaluation
       ∧ _build_optimizer self = Ok optimizer
       ∧ loss evaluation = Some value
       ∧ minimize optimizer value = Ok train_operation
       ∧ spec = {| mode := TRAIN; predictions := None; loss := Some value;
                   train_op := Some train_operation;
                   eval_metric_ops := eval_metric_ops evaluation |})
  ∧ (∀ evaluation optimizer value e,
       (build_evaluation_model self labels features).1 = Ok evaluation →
       _build_optimizer self = Ok optimizer →
       loss evaluation = Some value →
       minimize optimizer value = Raise e →
       (build_train_model self labels features).1 = Raise e).
Proof.
  unfold build_train_model, build_evaluation_model, mbind, M_bind, lift.
  destruct (_build_output_dict self features) as [[output_dict|e] fs]; simpl.
  - destruct (_build_loss self output_dict labels) as [[value metrics]|e]; simpl.
    + destruct (_build_optimizer self) as [optimizer|e]; simpl.
      * split.
        -- intros spec.
           destruct (minimize optimizer value) as [train_operation|e] eqn:Hmin; simpl.
           ++ split.
              ** intros [= <-]. by eexists _, optimizer, value, train_operation.
              ** intros (evaluation & optimizer' & value' & train_operation'
                         & [= <-] & [= <-] & [= <-] & Hmin' & ->).
                 simpl in Hmin'. rewrite Hmin in Hmin'. by injection Hmin' as <-.
           ++ split; [done|].
              intros (evaluation & optimizer' & value' & train_operation'
                      & [= <-] & [= <-] & [= <-] & Hmin' & _).
              simpl in Hmin'. by rewrite Hmin in Hmin'.
        -- intros evaluation optimizer' value' e [= <-] [= <-] [= <-] Hmin.
           simpl in Hmin. by rewrite Hmin.
      * split; [|done]. intros spec. split; [done|]. by intros (? & ? & ? & ? & _ & ? & _).
    + split; [|done]. intros spec. split; [done|]. by intros (? & ? & ? & ? & ? & _).
  - split; [|done]. intros spec. split; [done|]. by intros (? & ? & ? & ? & ? & _).
Qed.
End train_and_eval.

Lemma build_train_model_extends_evaluation_witness :
  (∃ value metrics,
     (@build_train_model trainable_backend (optimizer_builder None (Some (1 # 1000)))
        sample_outputs sample_features).1
     = Ok {| mode := TRAIN; predictions := None; loss := Some value;
             train_op := Some (TrainOperation (AdamOptimizer (1 # 1000)) value);
             eval_metric_ops := metrics |})
  ∧ (@build_train_model silent_backend (optimizer_builder None (Some (1 # 1000)))
       sample_outputs sample_features).1
    = Raise (ValueError "No variables to optimize.").
Proof.
  split.
  - do 2 eexists.
    apply (proj2 (proj1 (@build_train_model_extends_evaluation trainable_backend
                           (optimizer_builder None (Some (1 # 1000))) sample_outputs
                           sample_features) _)).
    do 4 eexists. split; [reflexivity|]. split; [reflexivity|].
    split; [reflexivity|]. split; reflexivity.
  - eapply (proj2 (@build_train_model_extends_evaluation silent_backend
                     (optimizer_builder None (Some (1 # 1000))) sample_outputs
                     sample_features)); reflexivity.
Defined.

(** * Failures of the output dictionary *)

Section output_dict_failures.
Context `{Backend} (self : EstimatorSpecBuilder) (features : gmap string feature).

Lemma build_output_dict_no_feature :
  features !! (_mix_name self +:+ "_spectrogram") = None →
  _build_output_dict self features
  = (Raise (KeyError (_mix_name self +:+ "_spectrogram")), features).
Proof.
  intros Hnone. unfold _build_output_dict, get_feature, getitem, mbind, M_bind.
  by rewrite Hnone.
Qed.

Lemma build_output_dict_no_attribute input cfg module :
  features !! (_mix_name self +:+ "_spectrogram") = Some input →
  model (_params self) = Some cfg →
  importable !! path_to_module (default DEFAULT_MODEL (model_type cfg)) = Some module →
  module !! model_name (default DEFAULT_MODEL (model_type cfg)) = None →
  _build_output_dict self features
  = (Raise (AttributeError (model_name (default DEFAULT_MODEL (model_type cfg)))),
     features).
Proof.
  intros Hin Hcfg Hmod Hattr.
  unfold _build_output_dict, get_feature, getitem, mbind, M_bind, lift.
  rewrite Hin, Hcfg. simpl. rewrite (resolve_model_found _ _ Hmod).
  unfold getattr. by rewrite Hattr.
Qed.

Lemma build_output_dict_no_params input cfg (apply_model : model_function) :
  features !! (_mix_name self +:+ "_spectrogram") = Some input →
  model (_params self) = Some cfg →
  resolve_model (default DEFAULT_MODEL (model_type cfg)) = Ok apply_model →
  model_params cfg = None →
  _build_output_dict self features = (Raise (KeyError "params"), features).
Proof.
  intros Hin Hcfg Hres Hmp.
  unfold _build_output_dict, get_feature, getitem, mbind, M_bind, lift.
  rewrite Hin, Hcfg. simpl. by rewrite Hres, Hmp.
Qed.
End output_dict_failures.

(** X19. Building the output dictionary raises KeyError for an absent mix
    spectrogram, AttributeError, not the "No model function" error, when
    the module is located and lacks the function, and KeyError('params')
    when the model entry has no parameters; the features stay untouched. *)
Theorem build_output_dict_failures `{Backend} (self : EstimatorSpecBuilder)
    (features : gmap string feature) :
  (features !! (_mix_name self +:+ "_spectrogram") = None →
   _build_output_dict self features
   = (Raise (KeyError (_mix_name self +:+ "_spectrogram")), features))
  ∧ (∀ input cfg module,
       features !! (_mix_name self +:+ "_spectrogram") = Some input →
       model (_params self) = Some cfg →
       importable !! path_to_module (default DEFAULT_MODEL (model_type cfg))
       = Some module →
       module !! model_name (default DEFAULT_MODEL (model_type cfg)) = None →
       _build_output_dict self features
       = (Raise (AttributeError
                   (model_name (default DEFAULT_MODEL (model_type cfg)))),
          features))
  ∧ (∀ input cfg (apply_model : model_function),
       features !! (_mix_name self +:+ "_spectrogram") = Some input →
       model (_params self) = Some cfg →
       resolve_model (default DEFAULT_MODEL (model_type cfg)) = Ok apply_model →
       model_params cfg = None →
       _build_output_dict self features = (Raise (KeyError "params"), features)).
Proof.
  split; [|split].
  - apply build_output_dict_no_feature.
  - apply build_output_dict_no_attribute.
  - apply build_output_dict_no_params.
Qed.

Lemma build_output_dict_failures_witness :
  @_build_output_dict silent_backend unet_builder ∅
  = (Raise (KeyError "mix_spectrogram"), ∅)
  ∧ @_build_output_dict silent_backend softmax_builder sample_features
    = (Raise (AttributeError "softmax_unet"), sample_features)
  ∧ @_build_output_dict silent_backend no_model_params_builder sample_features
    = (Raise (KeyError "params"), sample_features).
Proof.
  split; [|split].
  - apply (proj1 (@build_output_dict_failures silent_backend unet_builder ∅)).
    reflexivity.
  - apply (proj1 (proj2 (@build_output_dict_failures silent_backend softmax_builder
                           sample_features))
             (FReal sample_spectrogram)
             (ModelConfig (Some "unet.softmax_unet") (Some (PDict [])))
             {[ "unet" := echo_model ]}); reflexivity.
  - apply (proj2 (proj2 (@build_output_dict_failures silent_backend
                           no_model_params_builder sample_features))
             (FReal sample_spectrogram) (ModelConfig (Some "unet.unet") None)
             echo_model); reflexivity.
Defined.

(** * Splitting a model type *)

Lemma split_nonempty sep s : split sep s ≠ [].
Proof.
  destruct s as [|a s]; simpl; [done|].
  case_decide; [done|]. by destruct (split sep s).
Qed.

Lemma concat_cons sep x y l :
  String.concat sep (x :: y :: l) = x +:+ sep +:+ String.concat sep (y :: l).
Proof. reflexivity. Qed.

Lemma concat_cons_head sep a x l :
  String.concat sep (String a x :: l) = String a (String.concat sep (x :: l)).
Proof. by destruct l. Qed.

Lemma concat_split sep s : String.concat (String sep "") (split sep s) = s.
Proof.
  induction s as [|a s IH]; simpl; [done|].
  pose proof (split_nonempty sep s) as Hne.
  destruct (split sep s) as [|x l]; [done|].
  case_decide as Ha.
  - subst a. by rewrite concat_cons, IH.
  - by rewrite concat_cons_head, IH.
Qed.

Lemma split_no_separator sep s part :
  part ∈ split sep s → ∀ a b, part ≠ a +:+ String sep b.
Proof.
  revert part. induction s as [|c s IH]; simpl; intros part Hpart a b Heq.
  - apply list_elem_of_singleton in Hpart as ->. by destruct a.
  - case_decide as Hc.
    + apply elem_of_cons in Hpart as [->|Hpart]; [by destruct a|].
      by apply (IH part Hpart a b).
    + pose proof (split_nonempty sep s) as Hne.
      destruct (split sep s) as [|x l]; [done|].
      apply elem_of_cons in Hpart as [->|Hpart].
      * destruct a as [|c' a]; simpl in Heq; injection Heq as Hc' Hx; [done|].
        apply (IH x ltac:(by left) a b Hx).
      * apply (IH part ltac:(by right) a b Heq).
Qed.

Lemma removelast_last {A} (l : list A) x :
  last l = Some x → removelast l ++ [x] = l.
Proof.
  induction l as [|y l IH]; [done|].
  destruct l as [|z l]; simpl in *; [by intros [= ->]|].
  intros Hx. f_equal. by apply IH.
Qed.

Lemma string_app_assoc (a b c : string) : (a +:+ b) +:+ c = a +:+ b +:+ c.
Proof.
  induction a as [|x a IH]; [done|].
  change (String x ((a +:+ b) +:+ c) = String x (a +:+ b +:+ c)). by f_equal.
Qed.

Lemma concat_snoc sep l name :
  l ≠ [] → String.concat sep (l ++ [name]) = String.concat sep l +:+ sep +:+ name.
Proof.
  induction l as [|x l IH]; [done|]. intros _.
  destruct l as [|y l]; [done|].
  change ((x :: y :: l) ++ [name]) with (x :: y :: (l ++ [name])).
  rewrite !concat_cons. change (y :: l ++ [name]) with ((y :: l) ++ [name]).
  rewrite IH by done. by rewrite !string_app_assoc.
Qed.

(** X18. The components of the module path and the model name, joined by dots,
    give the model type back, and the model name has no dot: with a dot in
    the model type, module path + "." + name is
    "spleeter.model.functions." + model type; without one, the name is the
    model type and the module path ends in a dot. *)
Theorem model_type_round_trip (model_type : string) :
  String.concat "." (removelast (split dot model_type) ++ [model_name model_type])
  = model_type
  ∧ (∀ a b, model_name model_type ≠ a +:+ "." +:+ b)
  ∧ (removelast (split dot model_type) ≠ [] →
     path_to_module model_type +:+ "." +:+ model_name model_type
     = "spleeter.model.functions." +:+ model_type)
  ∧ (removelast (split dot model_type) = [] →
     model_name model_type = model_type
     ∧ path_to_module model_type = "spleeter.model.functions.").
Proof.
  unfold model_name, path_to_module.
  pose proof (split_nonempty dot model_type) as Hne.
  pose proof (concat_split dot model_type) as Hjoin.
  destruct (last (split dot model_type)) as [name|] eqn:Hlast.
  2:{ apply last_None in Hlast. done. }
  pose proof (removelast_last _ _ Hlast) as Hsplit. simpl.
  split; [by rewrite Hsplit|]. split.
  - apply (split_no_separator dot model_type). by apply last_Some_elem_of.
  - rewrite <- Hsplit in Hjoin. split.
    + intros Hprefix. rewrite string_app_assoc. f_equal.
      rewrite <- (concat_snoc "." _ name Hprefix). exact Hjoin.
    + intros Hprefix. rewrite Hprefix in Hjoin. simpl in Hjoin. by rewrite Hprefix.
Qed.

Lemma model_type_round_trip_witness :
  path_to_module "unet.unet" +:+ "." +:+ model_name "unet.unet"
  = "spleeter.model.functions.unet.unet"
  ∧ model_name "unet" = "unet"
  ∧ path_to_module "unet" = "spleeter.model.functions.".
Proof.
  split.
  - apply (proj1 (proj2 (proj2 (model_type_round_trip "unet.unet")))). discriminate.
  - apply (proj2 (proj2 (proj2 (model_type_round_trip "unet")))). reflexivity.
Defined.

(** * Bounds of the masks *)

Lemma values_lookup {V} (d : gmap string V) k v : d !! k = Some v → v ∈ values d.
Proof.
  intros Hk. unfold values. apply list_elem_of_fmap. exists (k, v).
  split; [done|]. by apply elem_of_map_to_list.
Qed.

Lemma qsum_n_bounds n (f : nat → Q) lo hi :
  (∀ i, (i < n)%nat → lo <= f i ∧ f i <= hi) →
  Qnat n * lo <= qsum_n n f ∧ qsum_n n f <= Qnat n * hi.
Proof.
  induction n as [|n IH]; intros Hf; simpl.
  - change (Qnat 0) with 0. lra.
  - destruct IH as [IHlo IHhi]; [auto with lia|].
    destruct (Hf n ltac:(lia)) as [Hlo Hhi]. rewrite Qnat_S. lra.
Qed.

Lemma mean_bounds n (f : nat → Q) lo hi :
  (0 < n)%nat → (∀ i, (i < n)%nat → lo <= f i ∧ f i <= hi) →
  lo <= qsum_n n f / Qnat n ∧ qsum_n n f / Qnat n <= hi.
Proof.
  intros Hn Hf. destruct (qsum_n_bounds n f lo hi Hf) as [Hlo Hhi].
  assert (0 < Qnat n) as HN by (apply Qnat_pos; lia). split.
  - apply Qle_shift_div_l; [done|]. lra.
  - apply Qle_shift_div_r; [done|]. lra.
Qed.

(** X10. Extending a mask whose values lie in [0, 1] gives a mask whose values
    lie in [0, 1], under both policies. *)
Theorem extend_mask_bounds (self : EstimatorSpecBuilder) (mask : tensor Q)
    (nb nt nf nc : nat) (extension : string) :
  mask_extension (_params self) = Some extension →
  extension = "average" ∨ extension = "zeros" →
  shape mask = [nb; nt; nf; nc] → _F self = Z.of_nat nf →
  (0 < nf ≤ Z.to_nat (_frame_length self `div` 2 + 1))%nat →
  (∀ idx, in_bounds [nb; nt; nf; nc] idx → 0 <= data mask idx ∧ data mask idx <= 1) →
  ∃ m, _extend_mask self mask = Ok m
    ∧ ∀ idx, in_bounds (shape m) idx → 0 <= data m idx ∧ data m idx <= 1.
Proof.
  intros Hext Hpolicy Hshape HF [Hpos Hle] Hmask.
  assert (Z.of_nat nf ≤ _frame_length self `div` 2 + 1)%Z as Hw by lia.
  destruct Hpolicy as [-> | ->].
  - destruct (extend_mask_average self mask nb nt nf nc Hshape HF Hw Hext)
      as (m & Hm & Hs & Hd).
    exists m. split; [done|]. rewrite Hs. intros idx Hidx.
    do 4 (apply Forall2_cons_inv_r in Hidx as (? & ? & ? & Hidx & ->)).
    apply Forall2_nil_inv_r in Hidx as ->.
    match goal with |- 0 <= data m [?b; ?t; ?f; ?c] ∧ _ =>
      destruct (Hd b t f c) as [Hlow Hhigh]; [done..|];
      destruct (decide (f < nf)%nat) as [Hf|Hf]
    end.
    + rewrite Hlow by done. apply Hmask. repeat constructor; done.
    + rewrite Hhigh by lia. apply mean_bounds; [done|].
      intros k Hk. apply Hmask. repeat constructor; done.
  - destruct (extend_mask_zeros self mask nb nt nf nc Hshape HF Hw Hext)
      as (m & Hm & Hs & Hd).
    exists m. split; [done|]. rewrite Hs. intros idx Hidx.
    do 4 (apply Forall2_cons_inv_r in Hidx as (? & ? & ? & Hidx & ->)).
    apply Forall2_nil_inv_r in Hidx as ->.
    match goal with |- 0 <= data m [?b; ?t; ?f; ?c] ∧ _ =>
      destruct (Hd b t f c) as [Hlow Hhigh];
      destruct (decide (f < nf)%nat) as [Hf|Hf]
    end.
    + rewrite Hlow by done. apply Hmask. repeat constructor; done.
    + rewrite Hhigh by lia. lra.
Qed.

Lemma extend_mask_bounds_witness :
  ∃ m, _extend_mask (extension_builder "average") half_mask = Ok m
    ∧ ∀ idx, in_bounds (shape m) idx → 0 <= data m idx ∧ data m idx <= 1.
Proof.
  apply (extend_mask_bounds (extension_builder "average") half_mask 1 2 2 1 "average").
  - reflexivity.
  - by left.
  - reflexivity.
  - reflexivity.
  - vm_compute. lia.
  - intros idx _. split; discriminate.
Defined.

(** X11. The extension raises KeyError when mask_extension is absent, and a
    TensorFlow tiling error when F exceeds frame_length // 2 + 1. *)
Theorem extend_mask_failures (self : EstimatorSpecBuilder) (mask : tensor Q) :
  (mask_extension (_params self) = None →
   _extend_mask self mask = Raise (KeyError "mask_extension"))
  ∧ (∀ extension nb nt nf nc,
       mask_extension (_params self) = Some extension →
       extension = "average" ∨ extension = "zeros" →
       shape mask = [nb; nt; nf; nc] →
       (_frame_length self `div` 2 + 1 < _F self)%Z →
       _extend_mask self mask = Raise (TFError "tile")).
Proof.
  split.
  - intros Hext. unfold _extend_mask. by rewrite Hext.
  - intros extension nb nt nf nc Hext Hpolicy Hshape Hwide.
    destruct mask as [s d]. simpl in Hshape. subst s.
    unfold _extend_mask. rewrite Hext. simpl.
    destruct Hpolicy as [-> | ->]; simpl.
    + unfold reduce_mean_axes. simpl. unfold tile. simpl.
      rewrite bool_decide_eq_false_2; [done|].
      intros [_ Hall]. apply Forall_cons in Hall as [_ Hall].
      apply Forall_cons in Hall as [_ Hall]. apply Forall_cons in Hall as [Hneg _]. lia.
    + unfold tile. simpl.
      rewrite bool_decide_eq_false_2; [done|].
      intros [_ Hall]. apply Forall_cons in Hall as [_ Hall].
      apply Forall_cons in Hall as [_ Hall]. apply Forall_cons in Hall as [Hneg _]. lia.
Qed.

Lemma extend_mask_failures_witness :
  _extend_mask no_extension_builder half_mask = Raise (KeyError "mask_extension")
  ∧ _extend_mask wide_builder (zeros [1; 2; 5; 1]%nat) = Raise (TFError "tile").
Proof.
  split.
  - apply (proj1 (extend_mask_failures no_extension_builder half_mask)). reflexivity.
  - apply (proj2 (extend_mask_failures wide_builder (zeros [1; 2; 5; 1]%nat))
             "zeros" 1 2 5 1)%nat; [reflexivity | by right | reflexivity |].
    vm_compute. reflexivity.
Defined.

(** * More on the loss *)



(** X13. The metrics of a loss that is built are the loss itself under
    "absolute_difference" and, under every other name of the output
    dictionary, the term of that output; they have no other key. *)
Theorem build_loss_metrics (self : EstimatorSpecBuilder)
    (output_dict labels : gmap string (tensor Q))
    (term : tensor Q → tensor Q → result Q) (loss : Q) (metrics : gmap string Q) :
  loss_selects self term →
  _build_loss self output_dict labels = Ok (loss, metrics) →
  metrics !! "absolute_difference" = Some loss
  ∧ dom metrics = {["absolute_difference"]} ∪ dom output_dict
  ∧ ∀ name t, name ≠ "absolute_difference" →
      (metrics !! name = Some t
       ↔ ∃ output label, output_dict !! name = Some output
           ∧ labels !! name = Some label ∧ term output label = Ok t).
Proof.
  intros Hselect Hloss.
  destruct (build_loss_inv self output_dict labels term Hselect _ _ Hloss)
    as (losses & -> & -> & Hdom & Hlookup).
  split; [apply lookup_insert_eq|]. split.
  - by rewrite dom_insert_L, Hdom.
  - intros name t Hname. by rewrite lookup_insert_ne.
Qed.

Lemma build_loss_metrics_witness :
  ∃ loss metrics,
    _build_loss (loss_builder None) silent_outputs sample_outputs = Ok (loss, metrics)
    ∧ metrics !! "absolute_difference" = Some loss
    ∧ dom metrics = {["absolute_difference"]} ∪ dom silent_outputs.
Proof.
  assert (∃ loss metrics,
            _build_loss (loss_builder None) silent_outputs sample_outputs
            = Ok (loss, metrics)) as (loss & metrics & Hloss).
  { do 2 eexists. reflexivity. }
  exists loss, metrics. split; [exact Hloss|].
  destruct (build_loss_metrics (loss_builder None) silent_outputs sample_outputs
              l1_term loss metrics) as (Habs & Hdom & _).
  - left. split; reflexivity.
  - exact Hloss.
  - by split.
Defined.

(** X14. When an output has no label, building the loss fails. *)
Theorem build_loss_missing_label (self : EstimatorSpecBuilder)
    (output_dict labels : gmap string (tensor Q)) name output :
  output_dict !! name = Some output → labels !! name = None →
  ∃ e, _build_loss self output_dict labels = Raise e.
Proof.
  intros Ho Hl.
  destruct (_build_loss self output_dict labels) as [[loss metrics]|e] eqn:Hloss;
    [|by exists e].
  exfalso.
  assert (∃ term, loss_selects self term) as [term Hselect].
  { unfold _build_loss in Hloss. unfold loss_selects.
    destruct (decide (default L1_MASK (loss_type (_params self)) = L1_MASK)) as [H1|H1];
      [exists l1_term; by left|].
    destruct (decide (default L1_MASK (loss_type (_params self)) = WEIGHTED_L1_MASK))
      as [H2|H2]; [exists weighted_l1_term; by right|].
    simpl in Hloss. discriminate Hloss. }
  destruct (build_loss_inv self output_dict labels term Hselect _ _ Hloss)
    as (losses & _ & _ & Hdom & Hlookup).
  assert (is_Some (losses !! name)) as [t Ht].
  { apply elem_of_dom. rewrite Hdom. apply elem_of_dom. by exists output. }
  apply Hlookup in Ht as (output' & label & _ & Hlabel & _). by rewrite Hl in Hlabel.
Qed.

Lemma build_loss_missing_label_witness :
  ∃ e, _build_loss (loss_builder None) sample_outputs ∅ = Raise e.
Proof.
  apply (build_loss_missing_label (loss_builder None) sample_outputs ∅
           "vocals_spectrogram" sample_spectrogram); reflexivity.
Defined.

(** * Shapes of the separated waveforms *)

Lemma mapM_store_ok {A B} (f : A → M B) (P : A → B → Prop) (l : list A) fs :
  (∀ a, a ∈ l → ∃ b, f a fs = (Ok b, fs) ∧ P a b) →
  ∃ bs, mapM f l fs = (Ok bs, fs) ∧ Forall2 P l bs.
Proof.
  induction l as [|a l IH]; intros Hf; simpl.
  - exists []. by split.
  - destruct (Hf a ltac:(by left)) as (b & Hb & HP).
    destruct IH as (bs & Hbs & HPs); [intros a' Ha'; apply Hf; by right|].
    exists (b :: bs). split; [|by constructor].
    unfold mbind, M_bind. rewrite Hb. unfold mbind, M_bind in Hbs. by rewrite Hbs.
Qed.

Lemma dict_of_items_dom {V} (items : list (string * V)) :
  dom (dict_of_items items) = list_to_set items.*1.
Proof.
  unfold dict_of_items. rewrite dom_list_to_map_L. apply set_eq. intros k.
  by rewrite !elem_of_list_to_set, fmap_reverse, elem_of_reverse.
Qed.

Lemma dict_of_items_lookup {V} (items : list (string * V)) k v :
  dict_of_items items !! k = Some v → (k, v) ∈ items.
Proof.
  unfold dict_of_items. intros Hk%elem_of_list_to_map_2. by apply elem_of_reverse.
Qed.

Section inverse_shape.
Context `{Backend} (self : EstimatorSpecBuilder).
Hypothesis Hcontract : overlap_add_contract.
Hypothesis Hlength : (0 < _frame_length self)%Z.
Hypothesis Hstep : (0 < _frame_step self)%Z.

Lemma inverse_stft_shape stft features wave frames bins c n rest :
  shape stft = [frames; bins; c] → (0 < frames)%nat →
  features !! "waveform" = Some (FReal wave) → shape wave = n :: rest →
  ∃ w, _inverse_stft self stft features = (Ok w, features)
    ∧ shape w = [Nat.min n (overlap_add_length frames (_frame_length self)
                                                (_frame_step self)); c].
Proof.
  intros Hshape Hframes Hwave Hn.
  assert (transpose_perm stft [2; 0; 1]%nat
          = Ok (Tensor [c; frames; bins]
                       (λ idx, data stft (set_axes [2; 0; 1]%nat idx idx)))) as Htr.
  { unfold transpose_perm, rank. rewrite Hshape.
    rewrite bool_decide_eq_true_2; [done|].
    split; [done|]. split; [|repeat constructor].
    apply (bool_decide_unpack _). reflexivity. }
  match type of Htr with _ = Ok ?t =>
    destruct (Hcontract t (_frame_length self) (_frame_step self) periodic_hann
                c frames bins eq_refl Hframes Hlength Hstep) as (inversed & Hinv & Hs)
  end.
  eexists. split; [|shelve].
  unfold _inverse_stft, mbind, M_bind, lift, get_feature, getitem.
  rewrite Htr, Hinv, Hwave. simpl. unfold shape0. rewrite Hn.
  unfold slice_rows, rank. simpl. rewrite Hs. reflexivity.
  Unshelve. reflexivity.
Qed.
End inverse_shape.

Section manual_waveforms.
Context `{Backend} (self : EstimatorSpecBuilder).
Variables (output_dict : gmap string (tensor Q)) (features : gmap string feature).
Variables (p : Z) (extension : string) (nb nt nf nc frames n : nat).
Variables (x : tensor complex) (wave : tensor Q).
Let width := Z.to_nat (_frame_length self `div` 2 + 1).
Hypothesis Hcontract : overlap_add_contract.
Hypothesis Hlength : (0 < _frame_length self)%Z.
Hypothesis Hstep : (0 < _frame_step self)%Z.
Hypothesis Hp : separation_exponent (_params self) = Some p.
Hypothesis Hext : mask_extension (_params self) = Some extension.
Hypothesis Hpolicy : extension = "average" ∨ extension = "zeros".
Hypothesis Hshapes : ∀ k v, output_dict !! k = Some v → shape v = [nb; nt; nf; nc].
Hypothesis HF : _F self = Z.of_nat nf.
Hypothesis Hband : (0 < nf ≤ width)%nat.
Hypothesis Hx : features !! (_mix_name self +:+ "_stft") = Some (FComplex x).
Hypothesis Hxs : shape x = [frames; width; nc].
Hypothesis Hframes : (0 < frames ≤ nb * nt)%nat.
Hypothesis Hwave : features !! "waveform" = Some (FReal wave).
Hypothesis Hws : shape wave = [n; nc].
Hypothesis Hn :
  (n ≤ overlap_add_length frames (_frame_length self) (_frame_step self))%nat.

Lemma extend_mask_shape mask :
  shape mask = [nb; nt; nf; nc] →
  ∃ m, _extend_mask self mask = Ok m ∧ shape m = [nb; nt; width; nc].
Proof.
  intros Hm. assert (Z.of_nat nf ≤ _frame_length self `div` 2 + 1)%Z as Hw
    by (subst width; lia).
  destruct Hpolicy as [Hav|Hz].
  - destruct (extend_mask_average self mask nb nt nf nc Hm HF Hw) as (m & ? & ? & _);
      [by rewrite Hext, Hav|]. by exists m.
  - destruct (extend_mask_zeros self mask nb nt nf nc Hm HF Hw) as (m & ? & ? & _);
      [by rewrite Hext, Hz|]. by exists m.
Qed.

Lemma masked_waveform output_sum instrument output :
  output_dict !! (instrument +:+ "_spectrogram") = Some output →
  shape output_sum = [nb; nt; nf; nc] →
  ∃ w,
    (mask ← lift (@instrument_mask Q exact EPSILON p output_dict output_sum instrument);
     mask ← lift (_extend_mask self mask);
     mask ← lift (reshape_stack_back mask);
     stft_feature ← get_feature (_mix_name self +:+ "_stft");
     n ← lift (feature_shape0 stft_feature);
     mask ← lift (slice_rows 1 n mask);
     stft_feature ← lift (as_complex stft_feature);
     masked ← lift (tcmul (tcast_complex mask) stft_feature);
     waveform ← _inverse_stft self masked;
     mret (instrument, FReal waveform)) features
    = (Ok (instrument, FReal w), features)
    ∧ shape w = [n; nc].
Proof.
  intros Hout Hsum.
  assert (∃ mask, @instrument_mask Q exact EPSILON p output_dict output_sum instrument = Ok mask
                  ∧ shape mask = [nb; nt; nf; nc]) as (mask & Hmask & Hms).
  { unfold instrument_mask, getitem. rewrite Hout. simpl. unfold ratio_mask, tdiv.
    destruct (broadcast2_same "truediv" tf_truediv
                (tadd_scalar (tpow output p)
                             (@py_truediv Q exact EPSILON (size output_dict)))
                output_sum [nb; nt; nf; nc]) as (m & Hm & Hs & _);
      [by apply (Hshapes _ _ Hout)|done|]. by exists m. }
  destruct (extend_mask_shape mask Hms) as (extended & Hextended & Hes).
  assert (∃ stacked, reshape_stack_back extended = Ok stacked
                     ∧ shape stacked = [(nb * nt)%nat; width; nc])
    as (stacked & Hstacked & Hss).
  { unfold reshape_stack_back. rewrite Hes. by eexists. }
  assert (∃ trimmed, slice_rows 1 frames stacked = Ok trimmed
                     ∧ shape trimmed = [frames; width; nc])
    as (trimmed & Htrimmed & Hts).
  { unfold slice_rows, rank. rewrite Hss. simpl. eexists. split; [reflexivity|].
    simpl. f_equal. lia. }
  destruct (broadcast2_same "mul" cmul (tcast_complex trimmed) x [frames; width; nc])
    as (masked & Hmasked & Hmks & _); [done|done|].
  destruct (inverse_stft_shape self Hcontract Hlength Hstep masked features wave
              frames width nc n [nc]) as (w & Hw & Hwshape); [done|lia|done|done|].
  exists w. split; [|by rewrite Hwshape, Nat.min_l].
  unfold mbind, M_bind, lift, get_feature, getitem.
  rewrite Hmask, Hextended, Hstacked, Hx. simpl. unfold shape0. rewrite Hxs.
  rewrite Htrimmed. unfold tcmul. rewrite Hmasked, Hw. reflexivity.
Qed.

Lemma manual_waveforms_ok :
  (∀ instrument, instrument ∈ _instruments self →
     is_Some (output_dict !! (instrument +:+ "_spectrogram"))) →
  ∃ output_waveform,
    _build_manual_output_waveform self output_dict features
    = (Ok output_waveform, features)
    ∧ dom output_waveform = list_to_set (_instruments self)
    ∧ ∀ instrument v, output_waveform !! instrument = Some v →
        ∃ w, v = FReal w ∧ shape w = [n; nc].
Proof.
  intros Hcovered. unfold _build_manual_output_waveform.
  unfold mbind at 1, M_bind at 1, lift at 1. rewrite Hp. simpl.
  destruct (_instruments self) as [|i0 instruments] eqn:Hinstruments.
  { destruct (@ratio_output_sum_ok Q exact EPSILON p output_dict _ Hshapes)
      as (output_sum & Hsum & _).
    unfold mbind, M_bind, lift. rewrite Hsum. simpl.
    eexists. split; [reflexivity|]. split; [done|].
    intros instrument v Hv%dict_of_items_lookup. by apply elem_of_nil in Hv. }
  rewrite <- Hinstruments in *.
  assert (output_dict ≠ ∅) as Hne.
  { destruct (Hcovered i0) as [v Hv]; [rewrite Hinstruments; by left|].
    intros ->. by rewrite lookup_empty in Hv. }
  destruct (@ratio_output_sum_ok Q exact EPSILON p output_dict _ Hshapes)
    as (output_sum & Hsum & Hss & _).
  unfold mbind at 1, M_bind at 1, lift at 1. rewrite Hsum.
  match goal with |- context [mapM ?f (_instruments self)] =>
    destruct (mapM_store_ok f
                (λ instrument item, item.1 = instrument
                                    ∧ ∃ w, item.2 = FReal w ∧ shape w = [n; nc])
                (_instruments self) features) as (items & Hitems & Hall);
      [|set (loop := mapM f (_instruments self)) in *]
  end.
  { intros instrument Hin. destruct (Hcovered instrument Hin) as [output Hout].
    destruct (masked_waveform output_sum instrument output Hout (Hss Hne))
      as (w & Hw & Hwshape).
    exists (instrument, FReal w). split; [exact Hw|]. split; [done|]. by exists w. }
  unfold mbind, M_bind. rewrite Hitems.
  eexists. split; [reflexivity|].
  assert (items.*1 = _instruments self) as Hkeys.
  { clear -Hall. induction Hall as [|a b l k [Ha _] _ IH]; [done|].
    rewrite fmap_cons. by f_equal. }
  split; [by rewrite dict_of_items_dom, Hkeys|].
  intros instrument v Hv%dict_of_items_lookup.
  apply list_elem_of_lookup in Hv as [j Hj].
  destruct (Forall2_lookup_r _ _ _ _ _ Hall Hj) as (a & _ & _ & Hw). exact Hw.
Qed.

(** X2. When every instrument has an estimate of shape (B, T, F, C), the mix
    STFT has frames <= B * T frames of frame_length // 2 + 1 bins and
    overlap-add covers the n samples of the waveform, the ratio-mask
    reconstruction succeeds without touching the features: its keys are
    the instruments and every waveform has shape (n, C). *)
Theorem build_manual_output_waveform_shapes :
  (∀ instrument, instrument ∈ _instruments self →
     is_Some (output_dict !! (instrument +:+ "_spectrogram"))) →
  ∃ output_waveform,
    _build_manual_output_waveform self output_dict features
    = (Ok output_waveform, features)
    ∧ (∀ key, is_Some (output_waveform !! key) ↔ key ∈ _instruments self)
    ∧ ∀ instrument, instrument ∈ _instruments self →
        ∃ w, output_waveform !! instrument = Some (FReal w) ∧ shape w = [n; nc].
Proof.
  intros Hcovered.
  destruct (manual_waveforms_ok Hcovered) as (output_waveform & Hrun & Hdom & Hall).
  exists output_waveform. split; [done|]. split.
  - intros key. by rewrite <- elem_of_dom, Hdom, elem_of_list_to_set.
  - intros instrument Hin.
    assert (is_Some (output_waveform !! instrument)) as [v Hv].
    { apply elem_of_dom. rewrite Hdom. by apply elem_of_list_to_set. }
    destruct (Hall instrument v Hv) as (w & -> & Hw). by exists w.
Qed.
End manual_waveforms.

Lemma build_manual_output_waveform_shapes_witness :
  ∃ output_waveform,
    @_build_manual_output_waveform silent_backend unet_builder sample_outputs
       manual_features
    = (Ok output_waveform, manual_features)
    ∧ ∃ w, output_waveform !! "vocals" = Some (FReal w) ∧ shape w = [5; 1]%nat.
Proof.
  destruct (@build_manual_output_waveform_shapes silent_backend unet_builder
              sample_outputs manual_features 2 "zeros" 1 2 2 1 2 5
              (zero_complex [2; 3; 1]%nat) (zeros [5; 1]%nat))
    as (output_waveform & Hrun & _ & Hall).
  - apply silent_backend_contract.
  - reflexivity.
  - reflexivity.
  - reflexivity.
  - reflexivity.
  - by right.
  - apply two_entries; reflexivity.
  - reflexivity.
  - vm_compute. lia.
  - reflexivity.
  - reflexivity.
  - lia.
  - reflexivity.
  - reflexivity.
  - vm_compute. lia.
  - intros instrument Hin. apply (bool_decide_unpack _).
    apply elem_of_cons in Hin as [->|Hin]; [reflexivity|].
    apply list_elem_of_singleton in Hin as ->. reflexivity.
  - exists output_waveform. split; [exact Hrun|]. apply Hall. by left.
Defined.

(** * The features that prediction writes *)
Lemma writes_only_read_only {A} keys (m : M A) : read_only m → writes_only keys m.
Proof. intros Hm fs k _. by rewrite Hm. Qed.

Lemma writes_only_set keys key v : key ∈ keys → writes_only keys (set_feature key v).
Proof.
  intros Hkey fs k Hk. simpl. apply lookup_insert_ne. by intros ->.
Qed.

Lemma writes_only_bind {A B} keys (m : M A) (k : A → M B) :
  writes_only keys m → (∀ a, writes_only keys (k a)) → writes_only keys (m ≫= k).
Proof.
  intros Hm Hk fs key Hkey. unfold mbind, M_bind. specialize (Hm fs key Hkey).
  destruct (m fs) as [[a|e] fs']; simpl in *; [|done].
  by rewrite Hk.
Qed.

Section predict_writes.
Context `{Backend} (self : EstimatorSpecBuilder).

Lemma build_stft_feature_writes :
  writes_only [_mix_name self +:+ "_stft"; _mix_name self +:+ "_spectrogram"]
              (_build_stft_feature self).
Proof.
  unfold _build_stft_feature.
  repeat (apply writes_only_bind; [|intros ?]);
    try solve [apply writes_only_read_only; auto with read_only].
  - apply writes_only_set. by left.
  - apply writes_only_set. right. by left.
Qed.

(** X4. Whatever prediction does, and whether it succeeds or fails, the only
    features it can change are "<mix>_stft" and "<mix>_spectrogram". *)
Theorem build_predict_model_writes features key :
  key ≠ _mix_name self +:+ "_stft" → key ≠ _mix_name self +:+ "_spectrogram" →
  (build_predict_model self features).2 !! key = features !! key.
Proof.
  intros Hstft Hspec.
  assert (writes_only [_mix_name self +:+ "_stft"; _mix_name self +:+ "_spectrogram"]
                      (build_predict_model self)) as Hwrites.
  { unfold build_predict_model.
    apply writes_only_bind; [apply build_stft_feature_writes|]. intros _.
    apply writes_only_read_only.
    pose proof (build_output_dict_read_only self).
    pose proof (build_output_waveform_read_only self).
    auto 10 with read_only. }
  apply Hwrites. intros Hin. apply elem_of_cons in Hin as [->|Hin]; [done|].
  apply list_elem_of_singleton in Hin. done.
Qed.
End predict_writes.

Lemma build_predict_model_writes_witness :
  (@build_predict_model silent_backend unet_builder predict_features).2 !! "audio_id"
  = Some (FValue (PStr "track")).
Proof.
  rewrite (@build_predict_model_writes silent_backend unet_builder predict_features
             "audio_id"); [reflexivity | discriminate | discriminate].
Defined.

(** * Prediction from end to end *)

Lemma framing_backend_overlap : @overlap_add_contract framing_backend.
Proof.
  intros t frame_length frame_step window_fn c frames bins Hshape _ _ _.
  simpl. rewrite Hshape. by eexists.
Qed.

Lemma framing_backend_stft : @stft_contract framing_backend.
Proof.
  intros t frame_length frame_step window_fn c n Hshape _ _.
  simpl. rewrite Hshape. by eexists.
Qed.

Lemma framing_backend_partition : @partition_contract framing_backend.
Proof.
  intros t segment_len frames rest Hshape Hlen.
  simpl. rewrite Hshape. do 2 eexists. split; [reflexivity|]. split; [reflexivity|].
  pose proof (Z.div_mod (- Z.of_nat frames) segment_len ltac:(lia)) as Hdiv.
  pose proof (Z.mod_pos_bound (- Z.of_nat frames) segment_len Hlen) as Hmod.
  remember ((- Z.of_nat frames) `div` segment_len)%Z as q eqn:Hq.
  remember ((- Z.of_nat frames) `mod` segment_len)%Z as r eqn:Hr.
  assert (q ≤ 0)%Z as Hq0 by nia.
  apply Nat2Z.inj_le. rewrite Nat2Z.inj_mul, !Z2Nat.id by lia. nia.
Qed.

Lemma echo_model_contract instruments model_params :
  model_contract echo_model instruments model_params.
Proof.
  intros input. eexists. split; [reflexivity|]. split.
  - intros k v Hk%dict_of_items_lookup.
    apply list_elem_of_fmap in Hk as (i & [= _ ->] & _). done.
  - intros instrument Hin. apply elem_of_dom.
    rewrite dict_of_items_dom, elem_of_list_to_set, <- list_fmap_compose.
    apply list_elem_of_fmap. by exists instrument.
Qed.

Lemma waveform_ne_stft_key mix : "waveform" ≠ mix +:+ "_stft".
Proof.
  intros Heq.
  do 9 (destruct mix as [|? mix]; [discriminate Heq|]). discriminate Heq.
Qed.

Lemma waveform_ne_spectrogram_key mix : "waveform" ≠ mix +:+ "_spectrogram".
Proof.
  intros Heq.
  do 9 (destruct mix as [|? mix]; [discriminate Heq|]). discriminate Heq.
Qed.

Lemma audio_id_ne_stft_key mix : "audio_id" ≠ mix +:+ "_stft".
Proof.
  intros Heq.
  do 9 (destruct mix as [|? mix]; [discriminate Heq|]). discriminate Heq.
Qed.

Lemma audio_id_ne_spectrogram_key mix : "audio_id" ≠ mix +:+ "_spectrogram".
Proof.
  intros Heq.
  do 9 (destruct mix as [|? mix]; [discriminate Heq|]). discriminate Heq.
Qed.

Lemma forward_frames_pos n frame_step :
  (0 < n)%nat → (0 < frame_step)%Z → (0 < forward_frames n frame_step)%nat.
Proof.
  intros Hn Hstep. unfold forward_frames.
  pose proof (Z.div_mod (- Z.of_nat n) frame_step ltac:(lia)) as Hdiv.
  pose proof (Z.mod_pos_bound (- Z.of_nat n) frame_step Hstep) as Hmod.
  remember ((- Z.of_nat n) `div` frame_step)%Z as q eqn:Hq.
  remember ((- Z.of_nat n) `mod` frame_step)%Z as r eqn:Hr.
  assert (q < 0)%Z by nia. lia.
Qed.

Section predict.
Context `{Backend} (self : EstimatorSpecBuilder).
Variables (features : gmap string feature) (wave : tensor Q) (n nf nc : nat).
Hypothesis Hstft : stft_contract.
Hypothesis Hpartition : partition_contract.
Hypothesis Hlength : (0 < _frame_length self)%Z.
Hypothesis Hstep : (0 < _frame_step self)%Z.
Hypothesis HT : (0 < _T self)%Z.
Hypothesis HF : _F self = Z.of_nat nf.
Hypothesis Hband : (nf ≤ fft_unique_bins (_frame_length self))%nat.
Hypothesis Hwave : features !! "waveform" = Some (FReal wave).
Hypothesis Hws : shape wave = [n; nc].

Lemma stft_feature_ok :
  ∃ stft_feature spectrogram nb,
    _build_stft_feature self features
    = (Ok (), <[_mix_name self +:+ "_spectrogram" := FReal spectrogram]>
                (<[_mix_name self +:+ "_stft" := FComplex stft_feature]> features))
    ∧ shape stft_feature
      = [forward_frames n (_frame_step self);
         fft_unique_bins (_frame_length self); nc]
    ∧ shape spectrogram = [nb; Z.to_nat (_T self); nf; nc]
    ∧ (forward_frames n (_frame_step self) ≤ nb * Z.to_nat (_T self))%nat.
Proof.
  destruct (Hstft (transpose wave) (_frame_length self) (_frame_step self)
              periodic_hann nc n) as (frames & Hframes & Hfs);
    [by simpl; rewrite Hws|done|done|].
  assert (∃ stft_feature, transpose_perm frames [1; 2; 0]%nat = Ok stft_feature
            ∧ shape stft_feature
              = [forward_frames n (_frame_step self);
                 fft_unique_bins (_frame_length self); nc])
    as (stft_feature & Htr & Hss).
  { unfold transpose_perm, rank. rewrite Hfs.
    rewrite bool_decide_eq_true_2; [by eexists|].
    split; [done|]. split; [|repeat constructor].
    apply (bool_decide_unpack _). reflexivity. }
  destruct (Hpartition stft_feature (_T self) _ _ Hss HT)
    as (segments & nb & Hsegments & Hsegs & Hcover).
  assert (∃ spectrogram,
            slice_bins (_F self) (tmap complex_abs segments) = Ok spectrogram
            ∧ shape spectrogram = [nb; Z.to_nat (_T self); nf; nc])
    as (spectrogram & Hspec & Hspecs).
  { unfold slice_bins, rank. simpl. rewrite Hsegs. simpl.
    eexists. split; [reflexivity|]. simpl. do 2 f_equal. f_equal.
    unfold slice_end. rewrite HF.
    destruct (Z.ltb_spec (Z.of_nat nf) 0); [lia|]. rewrite Nat2Z.id. lia. }
  exists stft_feature, spectrogram, nb. split; [|done].
  unfold _build_stft_feature, mbind, M_bind, lift, get_feature, getitem, set_feature.
  rewrite Hwave. simpl. rewrite Hframes, Htr, Hsegments, Hspec. reflexivity.
Qed.

(** X3. With the contracts of the forward transform and of the partition, a
    waveform of shape (n, c) gives an STFT feature of shape
    (ceil(n / frame_step), fft_length // 2 + 1, c), where fft_length is the
    smallest power of two that is at least the frame length, and, for a
    band F of at most that many bins, a spectrogram feature of shape
    (segments, T, F, c) whose segments cover the frames; both are stored
    and the waveform feature stays. *)
Theorem build_stft_feature_shapes :
  ∃ stft_feature spectrogram nb fs,
    _build_stft_feature self features = (Ok (), fs)
    ∧ fs !! (_mix_name self +:+ "_stft") = Some (FComplex stft_feature)
    ∧ fs !! (_mix_name self +:+ "_spectrogram") = Some (FReal spectrogram)
    ∧ fs !! "waveform" = Some (FReal wave)
    ∧ shape stft_feature
      = [forward_frames n (_frame_step self);
         fft_unique_bins (_frame_length self); nc]
    ∧ shape spectrogram = [nb; Z.to_nat (_T self); nf; nc]
    ∧ (forward_frames n (_frame_step self) ≤ nb * Z.to_nat (_T self))%nat.
Proof.
  destruct stft_feature_ok as (stft_feature & spectrogram & nb & Hrun & Hshapes).
  exists stft_feature, spectrogram, nb. eexists. split; [exact Hrun|].
  split; [|split; [|split]]; [| | |exact Hshapes].
  - rewrite lookup_insert_ne by (symmetry; apply stft_key_ne_spectrogram_key).
    apply lookup_insert_eq.
  - apply lookup_insert_eq.
  - rewrite lookup_insert_ne by (symmetry; apply waveform_ne_spectrogram_key).
    rewrite lookup_insert_ne by (symmetry; apply waveform_ne_stft_key).
    exact Hwave.
Qed.
End predict.

Lemma build_stft_feature_shapes_witness :
  (∃ stft_feature spectrogram fs,
     @_build_stft_feature framing_backend unet_builder predict_features = (Ok (), fs)
     ∧ fs !! "mix_stft" = Some (FComplex stft_feature)
     ∧ fs !! "mix_spectrogram" = Some (FReal spectrogram)
     ∧ shape stft_feature = [5; 3; 1]%nat
     ∧ ∃ nb, shape spectrogram = [nb; 2; 2; 1]%nat)
  ∧ (∃ stft_feature fs,
       @_build_stft_feature framing_backend long_frame_builder predict_features
       = (Ok (), fs)
       ∧ fs !! "mix_stft" = Some (FComplex stft_feature)
       ∧ shape stft_feature = [5; 5; 1]%nat).
Proof.
  split.
  - destruct (@build_stft_feature_shapes framing_backend unet_builder predict_features
                (zeros [5; 1]%nat) 5 2 1 framing_backend_stft framing_backend_partition)
      as (stft_feature & spectrogram & nb & fs & Hrun & Hstft & Hspec & _ & Hs1 & Hs2 & _);
      [reflexivity | reflexivity | reflexivity | reflexivity | vm_compute; lia
      | reflexivity | reflexivity |].
    exists stft_feature, spectrogram, fs. split; [exact Hrun|].
    split; [exact Hstft|]. split; [exact Hspec|]. split; [exact Hs1|].
    exists nb. exact Hs2.
  - destruct (@build_stft_feature_shapes framing_backend long_frame_builder
                predict_features (zeros [5; 1]%nat) 5 2 1
                framing_backend_stft framing_backend_partition)
      as (stft_feature & spectrogram & nb & fs & Hrun & Hstft & _ & _ & Hs1 & _);
      [reflexivity | reflexivity | reflexivity | reflexivity | vm_compute; lia
      | reflexivity | reflexivity |].
    exists stft_feature, fs. split; [exact Hrun|]. split; [exact Hstft|]. exact Hs1.
Defined.

Section predict_waveforms.
Context `{Backend} (self : EstimatorSpecBuilder).
Variables (features : gmap string feature) (wave : tensor Q) (n nf nc : nat).
Variables (cfg : model_config) (mp : pyval) (apply_model : model_function).
Variables (p : Z) (extension : string).
Hypothesis Hstft : stft_contract.
Hypothesis Hpartition : partition_contract.
Hypothesis Hoverlap : overlap_add_contract.
Hypothesis Hstep : (0 < _frame_step self ≤ _frame_length self)%Z.
Hypothesis Hpower : enclosing_power_of_two (_frame_length self) = _frame_length self.
Hypothesis HT : (0 < _T self)%Z.
Hypothesis HF : _F self = Z.of_nat nf.
Hypothesis Hband : (0 < nf ≤ Z.to_nat (_frame_length self `div` 2 + 1))%nat.
Hypothesis Hwave : features !! "waveform" = Some (FReal wave).
Hypothesis Hws : shape wave = [n; nc].
Hypothesis Hn : (0 < n)%nat.
Hypothesis Hcfg : model (_params self) = Some cfg.
Hypothesis Hmp : model_params cfg = Some mp.
Hypothesis Hresolve :
  resolve_model (default DEFAULT_MODEL (model_type cfg)) = Ok apply_model.
Hypothesis Hmodel : model_contract apply_model (_instruments self) mp.
Hypothesis Hp : separation_exponent (_params self) = Some p.
Hypothesis Hext : mask_extension (_params self) = Some extension.
Hypothesis Hpolicy : extension = "average" ∨ extension = "zeros".
Hypothesis Hmwf : default false (MWF (_params self)) = false.

(** X1. With the external contracts, a frame length that is a power of two,
    frames no further apart than they are
    long, a band 0 < F <= frame_length // 2 + 1, a model that returns one
    estimate per instrument of the shape of the mix spectrogram and the
    ratio-mask strategy, prediction of a waveform of n > 0 samples and c
    channels succeeds: the predictions have the instruments as keys, plus
    audio_id when the features have one, every instrument maps to a
    waveform of shape (n, c), and audio_id is passed through. *)
Theorem build_predict_model_shapes :
  ∃ spec fs output_waveform,
    build_predict_model self features = (Ok spec, fs)
    ∧ mode spec = PREDICT
    ∧ predictions spec = Some output_waveform
    ∧ (∀ key, is_Some (output_waveform !! key)
              ↔ key ∈ _instruments self
                ∨ (key = "audio_id" ∧ is_Some (features !! "audio_id")))
    ∧ (∀ instrument, instrument ∈ _instruments self → instrument ≠ "audio_id" →
         ∃ w, output_waveform !! instrument = Some (FReal w) ∧ shape w = [n; nc])
    ∧ (∀ audio_id, features !! "audio_id" = Some audio_id →
         output_waveform !! "audio_id" = Some audio_id).
Proof.
  assert (0 < _frame_length self)%Z as Hlength by lia.
  assert (fft_unique_bins (_frame_length self)
          = Z.to_nat (_frame_length self `div` 2 + 1)) as Hbins
    by (unfold fft_unique_bins; by rewrite Hpower).
  destruct (stft_feature_ok self features wave n nf nc Hstft Hpartition Hlength
              ltac:(lia) HT HF ltac:(lia) Hwave Hws)
    as (stft_feature & spectrogram & nb & Hrun & Hss & Hspecs & Hcover).
  rewrite Hbins in Hss.
  set (fs := <[_mix_name self +:+ "_spectrogram" := FReal spectrogram]>
               (<[_mix_name self +:+ "_stft" := FComplex stft_feature]> features))
    in *.
  assert (fs !! (_mix_name self +:+ "_stft") = Some (FComplex stft_feature)) as Hfstft.
  { subst fs. rewrite lookup_insert_ne by (symmetry; apply stft_key_ne_spectrogram_key).
    apply lookup_insert_eq. }
  assert (fs !! "waveform" = Some (FReal wave)) as Hfwave.
  { subst fs. rewrite lookup_insert_ne by (symmetry; apply waveform_ne_spectrogram_key).
    by rewrite lookup_insert_ne by (symmetry; apply waveform_ne_stft_key). }
  assert (fs !! "audio_id" = features !! "audio_id") as Hfid.
  { subst fs. rewrite lookup_insert_ne by (symmetry; apply audio_id_ne_spectrogram_key).
    by rewrite lookup_insert_ne by (symmetry; apply audio_id_ne_stft_key). }
  destruct (Hmodel spectrogram) as (output_dict & Happly & Hshapes & Hcovered).
  assert (_build_output_dict self fs = (Ok output_dict, fs)) as Hdict.
  { rewrite (build_output_dict_applies self fs spectrogram cfg mp apply_model);
      [by rewrite Happly|by apply lookup_insert_eq|done..]. }
  destruct (manual_waveforms_ok self output_dict fs p extension nb
              (Z.to_nat (_T self)) nf nc (forward_frames n (_frame_step self)) n
              stft_feature wave Hoverlap Hlength ltac:(lia) Hp Hext Hpolicy)
    as (manual & Hmanual & Hdom & Hall); try done.
  { intros k v Hk. by rewrite (Hshapes k v Hk). }
  { split; [apply forward_frames_pos; [done|lia]|done]. }
  { by apply forward_frames_cover. }
  destruct (features !! "audio_id") as [audio_id|] eqn:Hid.
  - exists {| mode := PREDICT; predictions := Some (<["audio_id" := audio_id]> manual);
              loss := None; train_op := None; eval_metric_ops := None |},
           fs, (<["audio_id" := audio_id]> manual).
    split.
    { unfold build_predict_model, _build_output_waveform, mbind, M_bind.
      rewrite Hrun, Hdict, Hmwf, Hmanual. simpl.
      rewrite bool_decide_eq_true_2 by (rewrite Hfid; by eexists).
      unfold get_feature, getitem. by rewrite Hfid. }
    split; [done|]. split; [done|]. split; [|split].
    + intros key. rewrite lookup_insert_is_Some, <- elem_of_dom, Hdom,
        elem_of_list_to_set.
      split.
      * intros [<-|[_ Hin]]; [right; split; [done|by eexists]|by left].
      * intros [Hin|[-> _]]; [|by left].
        destruct (decide ("audio_id" = key)); [by left|by right].
    + intros instrument Hin Hne. rewrite lookup_insert_ne by done.
      assert (is_Some (manual !! instrument)) as [v Hv].
      { apply elem_of_dom. rewrite Hdom. by apply elem_of_list_to_set. }
      destruct (Hall instrument v Hv) as (w & -> & Hw). by exists w.
    + intros ? [= <-]. apply lookup_insert_eq.
  - exists {| mode := PREDICT; predictions := Some manual;
              loss := None; train_op := None; eval_metric_ops := None |},
           fs, manual.
    split.
    { unfold build_predict_model, _build_output_waveform, mbind, M_bind.
      rewrite Hrun, Hdict, Hmwf, Hmanual. simpl.
      rewrite bool_decide_eq_false_2 by (rewrite Hfid; by intros [? ?]). done. }
    split; [done|]. split; [done|]. split; [|split].
    + intros key. rewrite <- elem_of_dom, Hdom, elem_of_list_to_set.
      split; [by left|]. by intros [?|[_ [? ?]]].
    + intros instrument Hin Hne.
      assert (is_Some (manual !! instrument)) as [v Hv].
      { apply elem_of_dom. rewrite Hdom. by apply elem_of_list_to_set. }
      destruct (Hall instrument v Hv) as (w & -> & Hw). by exists w.
    + done.
Qed.
End predict_waveforms.

Lemma build_predict_model_shapes_witness :
  ∃ spec fs output_waveform,
    @build_predict_model framing_backend unet_builder predict_features = (Ok spec, fs)
    ∧ predictions spec = Some output_waveform
    ∧ (∃ w, output_waveform !! "vocals" = Some (FReal w) ∧ shape w = [5; 1]%nat)
    ∧ output_waveform !! "audio_id" = Some (FValue (PStr "track")).
Proof.
  destruct (@build_predict_model_shapes framing_backend unet_builder predict_features
              (zeros [5; 1]%nat) 5 2 1 unet_config (PDict []) echo_model 2 "zeros"
              framing_backend_stft framing_backend_partition framing_backend_overlap)
    as (spec & fs & output_waveform & Hrun & _ & Hpred & _ & Hall & Hid).
  - vm_compute. split; [reflexivity|discriminate].
  - reflexivity.
  - reflexivity.
  - reflexivity.
  - vm_compute. lia.
  - reflexivity.
  - reflexivity.
  - lia.
  - reflexivity.
  - reflexivity.
  - reflexivity.
  - apply echo_model_contract.
  - reflexivity.
  - reflexivity.
  - by right.
  - reflexivity.
  - exists spec, fs, output_waveform. split; [exact Hrun|]. split; [exact Hpred|].
    split; [apply Hall; [by left|discriminate]|]. apply Hid. reflexivity.
Defined.

(** X5. In every mode other than PREDICT, model_fn leaves the features as they
    were, whether it succeeds or fails. *)
Theorem model_fn_keeps_features `{Backend} labels mode' params config features :
  mode' ≠ PREDICT →
  (model_fn labels mode' params config features).2 = features.
Proof.
  intros Hmode. unfold model_fn, mbind, M_bind, lift.
  destruct (__init__ params) as [builder|e]; [|done].
  rewrite decide_False by done.
  case_decide; [apply build_evaluation_model_read_only|].
  case_decide; [apply build_train_model_read_only|done].
Qed.

Lemma model_fn_keeps_features_witness :
  (@model_fn silent_backend sample_outputs "train" unet_params PNone sample_features).2
  = sample_features.
Proof.
  apply (@model_fn_keeps_features silent_backend). discriminate.
Defined.

(** X6. The waveform reconstruction, with either strategy, and the inverse
    transform read the features and never write them. *)
Theorem reconstruction_keeps_features `{Backend} (self : EstimatorSpecBuilder)
    (output_dict : gmap string (tensor Q)) (stft : tensor complex)
    (features : gmap string feature) :
  (_build_output_waveform self output_dict features).2 = features
  ∧ (_build_manual_output_waveform self output_dict features).2 = features
  ∧ (_build_mwf_output_waveform self output_dict features).2 = features
  ∧ (_inverse_stft self stft features).2 = features.
Proof.
  split; [apply build_output_waveform_read_only|].
  split; [apply build_manual_output_waveform_read_only|].
  split; [apply build_mwf_output_waveform_read_only|apply inverse_stft_read_only].
Qed.

Lemma audio_id_passthrough (strategy : M (gmap string feature)) features
    (output_waveform : gmap string feature) :
  read_only strategy →
  ((output_waveform ← strategy;
    present ← has_feature "audio_id";
    if present : bool then
      audio_id ← get_feature "audio_id";
      mret (<["audio_id" := audio_id]> output_waveform)
    else mret output_waveform) features).1 = Ok output_waveform →
  (∀ audio_id, features !! "audio_id" = Some audio_id →
     output_waveform !! "audio_id" = Some audio_id)
  ∧ (features !! "audio_id" = None → (strategy features).1 = Ok output_waveform).
Proof.
  intros Hro. unfold mbind, M_bind. specialize (Hro features).
  destruct (strategy features) as [[ow|e] fs]; simpl in *; subst fs; [|done].
  unfold get_feature, getitem.
  destruct (features !! "audio_id") as [audio_id|] eqn:Hid.
  - rewrite bool_decide_eq_true_2 by (by eexists). simpl. rewrite Hid. simpl.
    intros [= Heq]. subst output_waveform. split; [|done]. intros ? [= <-]. apply lookup_insert_eq.
  - rewrite bool_decide_eq_false_2 by (by intros [? ?]). simpl. intros [= Heq].
    subst output_waveform. by split.
Qed.

(** X7. When the reconstruction succeeds, an audio_id of the features is in the
    output under "audio_id", replacing an instrument of that name; with
    no audio_id the output is that of the selected strategy. *)
Theorem build_output_waveform_audio_id `{Backend} (self : EstimatorSpecBuilder)
    (output_dict : gmap string (tensor Q)) (features : gmap string feature)
    (output_waveform : gmap string feature) :
  (_build_output_waveform self output_dict features).1 = Ok output_waveform →
  (∀ audio_id, features !! "audio_id" = Some audio_id →
     output_waveform !! "audio_id" = Some audio_id)
  ∧ (features !! "audio_id" = None →
     (if default false (MWF (_params self))
      then _build_mwf_output_waveform self output_dict features
      else _build_manual_output_waveform self output_dict features).1
     = Ok output_waveform).
Proof.
  unfold _build_output_waveform.
  destruct (default false (MWF (_params self))); apply audio_id_passthrough.
  - apply build_mwf_output_waveform_read_only.
  - apply build_manual_output_waveform_read_only.
Qed.

Lemma build_output_waveform_audio_id_witness :
  ∃ output_waveform,
    (@_build_output_waveform silent_backend unet_builder sample_outputs
       (<["audio_id" := FValue (PStr "track")]> manual_features)).1
    = Ok output_waveform
    ∧ output_waveform !! "audio_id" = Some (FValue (PStr "track")).
Proof.
  assert (∃ output_waveform,
            (@_build_output_waveform silent_backend unet_builder sample_outputs
               (<["audio_id" := FValue (PStr "track")]> manual_features)).1
            = Ok output_waveform) as [output_waveform Hrun].
  { eexists. reflexivity. }
  exists output_waveform. split; [exact Hrun|].
  apply (proj1 (@build_output_waveform_audio_id silent_backend unet_builder
                  sample_outputs
                  (<["audio_id" := FValue (PStr "track")]> manual_features)
                  output_waveform Hrun)).
  reflexivity.
Defined.

(** X8. The ratio-mask reconstruction raises KeyError when separation_exponent
    is absent, a TensorFlow packing error when two estimates differ in
    shape, whatever the instruments, and KeyError for the first instrument
    when it has no estimate. *)
Theorem build_manual_output_waveform_failures `{Backend} (self : EstimatorSpecBuilder)
    (output_dict : gmap string (tensor Q)) (features : gmap string feature) :
  (separation_exponent (_params self) = None →
   _build_manual_output_waveform self output_dict features
   = (Raise (KeyError "separation_exponent"), features))
  ∧ (∀ p k1 v1 k2 v2,
       separation_exponent (_params self) = Some p →
       output_dict !! k1 = Some v1 → output_dict !! k2 = Some v2 →
       shape v1 ≠ shape v2 →
       _build_manual_output_waveform self output_dict features
       = (Raise (TFError "pack"), features))
  ∧ (∀ p s instrument instruments,
       separation_exponent (_params self) = Some p →
       (∀ k v, output_dict !! k = Some v → shape v = s) →
       _instruments self = instrument :: instruments →
       output_dict !! (instrument +:+ "_spectrogram") = None →
       _build_manual_output_waveform self output_dict features
       = (Raise (KeyError (instrument +:+ "_spectrogram")), features)).
Proof.
  split; [|split].
  - intros Hp. unfold _build_manual_output_waveform, mbind, M_bind, lift.
    by rewrite Hp.
  - intros p k1 v1 k2 v2 Hp H1 H2 Hne.
    unfold _build_manual_output_waveform, mbind, M_bind, lift. rewrite Hp. simpl.
    unfold ratio_output_sum.
    pose proof (values_lookup _ _ _ H1) as Hv1.
    pose proof (values_lookup _ _ _ H2) as Hv2.
    destruct (values output_dict) as [|t ts] eqn:Hvalues;
      [by apply elem_of_nil in Hv1|].
    simpl. rewrite bool_decide_eq_false_2; [done|].
    intros Hall. rewrite Forall_forall in Hall.
    assert (∀ v, v ∈ t :: ts → shape v = shape t) as Hsame.
    { intros v Hv. apply (Hall (tpow v p)).
      change (tpow v p ∈ (λ e, tpow e p) <$> (t :: ts)).
      apply list_elem_of_fmap. by exists v. }
    apply Hne. by rewrite (Hsame v1 Hv1), (Hsame v2 Hv2).
  - intros p s instrument instruments Hp Hshapes Hi Hnone.
    unfold _build_manual_output_waveform.
    unfold mbind at 1, M_bind at 1, lift at 1. rewrite Hp. simpl.
    destruct (@ratio_output_sum_ok Q exact EPSILON p output_dict s Hshapes)
      as (output_sum & Hsum & _).
    unfold mbind at 1, M_bind at 1, lift at 1. rewrite Hsum, Hi. simpl.
    unfold mbind, M_bind, lift, instrument_mask, getitem. by rewrite Hnone.
Qed.

Lemma build_manual_output_waveform_failures_witness :
  @_build_manual_output_waveform silent_backend unet_builder ragged_outputs
     manual_features
  = (Raise (TFError "pack"), manual_features)
  ∧ @_build_manual_output_waveform silent_backend unet_builder accompaniment_only
       manual_features
    = (Raise (KeyError "vocals_spectrogram"), manual_features)
  ∧ @_build_manual_output_waveform silent_backend (sample_builder empty_params)
       sample_outputs manual_features
    = (Raise (KeyError "separation_exponent"), manual_features).
Proof.
  split; [|split].
  - apply (proj1 (proj2 (@build_manual_output_waveform_failures silent_backend
                           unet_builder ragged_outputs manual_features))
             2%Z "vocals_spectrogram" (zeros [1; 2; 2; 1]%nat)
             "accompaniment_spectrogram" (zeros [1; 2; 3; 1]%nat));
      [reflexivity | reflexivity | reflexivity | discriminate].
  - apply (proj2 (proj2 (@build_manual_output_waveform_failures silent_backend
                           unet_builder accompaniment_only manual_features))
             2%Z [1; 2; 2; 1]%nat "vocals" ["accompaniment"]);
      [reflexivity | | reflexivity | reflexivity].
    intros k v Hk. unfold accompaniment_only in Hk.
    apply lookup_singleton_Some in Hk as [_ <-]. reflexivity.
  - apply (proj1 (@build_manual_output_waveform_failures silent_backend
                    (sample_builder empty_params) sample_outputs manual_features)).
    reflexivity.
Defined.
